(** * Per-block operations of the beacon chain (package [blocks])

    A shallow embedding of the block operation processors
    ([ProcessEth1Data], [ProcessBlockRandao], [ProcessProposerSlashings],
    [ProcessAttesterSlashings], [ProcessBlockAttestations],
    [ProcessValidatorExits]) and the properties the specification states
    about them.

    Conventions of the embedding:
    - a [uint64] is a [Z]; sums and increments are reduced with [wrap64];
    - a byte is a [Z] below 256 and a [[]byte] is a [list Z]; a nil slice
      and an empty one are the same list, as they are for [bytes.Equal]
      and [proto.Equal];
    - the validator registry is a Go slice of pointers: the state holds a
      slice header, the backing arrays and the validator objects live in
      a [Heap], so that two headers on one array see each other's writes;
      the other repeated fields of the state are held by value, since the
      package keeps no second reference to them and a decoded message
      shares no element between two positions;
    - a processor runs in the monad [M]: it reads and writes the heap and
      ends with a value, an [error] or a run-time panic;
    - the collaborators that live in other packages ([helpers],
      [validators], [params], [hashutil], [bytesutil], [reflect]) are the
      fields of the class [Env]. *)

From Stdlib Require Import ZArith List Lia String.
From stdpp Require Import base option list gmap.

Local Open Scope Z_scope.

(** ** Machine integers and byte slices *)

Definition two64 : Z := 2 ^ 64.

(** Reduction of an unbounded integer to the [uint64] the code holds. *)
Definition wrap64 (x : Z) : Z := x mod two64.

(** [bytes.Equal]: same length and same content; nil equals empty. *)
Definition bytes_Equal (a b : list Z) : bool := bool_decide (a = b).

(** Heap addresses. *)
Abbreviation loc := positive.

(** A slice header over an array of pointers: the backing array and the
    length. The capacity is the length of the array in the heap. *)
Record slice := Slice { sl_arr : loc; sl_len : nat }.

#[global] Instance slice_eq_dec : EqDecision slice.
Proof. solve_decision. Defined.

(** ** Messages *)

Module Eth1Data.
Record t := mk { DepositRootHash32 : list Z; BlockHash32 : list Z }.
#[global] Instance Eth1Data_eq_dec : EqDecision t.
Proof. solve_decision. Defined.
End Eth1Data.

Module Eth1DataVote.
(** [Eth1Data] is a pointer to a message and may be nil. *)
Record t := mk { Eth1Data : option Eth1Data.t; VoteCount : Z }.
#[global] Instance Eth1DataVote_eq_dec : EqDecision t.
Proof. solve_decision. Defined.
End Eth1DataVote.

Module Validator.
Record t := mk {
  Pubkey : list Z;
  WithdrawalCredentialsHash32 : list Z;
  ExitEpoch : Z;
  PenalizedEpoch : Z;
  RandaoCommitmentHash32 : list Z;
  RandaoLayers : Z
}.
#[global] Instance Validator_eq_dec : EqDecision t.
Proof. solve_decision. Defined.

Definition set_randao (v : t) (commitment : list Z) (layers : Z) : t :=
  mk (Pubkey v) (WithdrawalCredentialsHash32 v) (ExitEpoch v)
     (PenalizedEpoch v) commitment layers.
End Validator.

Module ProposalSignedData.
Record t := mk { Slot : Z; Shard : Z; BlockRootHash32 : list Z }.
End ProposalSignedData.

Module ProposerSlashing.
(** The two proposal signatures are carried by the message and read
    nowhere in the package; they are left out. *)
Record t := mk {
  ProposerIndex : Z;
  ProposalData_1 : ProposalSignedData.t;
  ProposalData_2 : ProposalSignedData.t
}.
End ProposerSlashing.

Module AttestationData.
Record t := mk {
  Slot : Z;
  Shard : Z;
  JustifiedEpoch : Z;
  JustifiedBlockRootHash32 : list Z;
  LatestCrosslinkRootHash32 : list Z;
  ShardBlockRootHash32 : list Z
}.
#[global] Instance AttestationData_eq_dec : EqDecision t.
Proof. solve_decision. Defined.

Definition set_ShardBlockRootHash32 (d : t) (r : list Z) : t :=
  mk (Slot d) (Shard d) (JustifiedEpoch d) (JustifiedBlockRootHash32 d)
     (LatestCrosslinkRootHash32 d) r.
End AttestationData.

Module SlashableAttestation.
Record t := mk {
  ValidatorIndices : list Z;
  CustodyBitfield : list Z;
  Data : AttestationData.t
}.
End SlashableAttestation.

Module AttesterSlashing.
Record t := mk {
  SlashableAttestation_1 : SlashableAttestation.t;
  SlashableAttestation_2 : SlashableAttestation.t
}.
End AttesterSlashing.

Module Attestation.
Record t := mk {
  Data : AttestationData.t;
  AggregationBitfield : list Z;
  CustodyBitfield : list Z
}.
End Attestation.

Module PendingAttestationRecord.
Record t := mk {
  Data : AttestationData.t;
  AggregationBitfield : list Z;
  CustodyBitfield : list Z;
  SlotIncluded : Z
}.
#[global] Instance PendingAttestationRecord_eq_dec : EqDecision t.
Proof. solve_decision. Defined.
End PendingAttestationRecord.

Module Exit.
Record t := mk { Epoch : Z; ValidatorIndex : Z }.
End Exit.

Module CrosslinkRecord.
Record t := mk { ShardBlockRootHash32 : list Z }.
#[global] Instance CrosslinkRecord_eq_dec : EqDecision t.
Proof. solve_decision. Defined.
End CrosslinkRecord.

Module BeaconBlockBody.
Record t := mk {
  ProposerSlashings : list ProposerSlashing.t;
  AttesterSlashings : list AttesterSlashing.t;
  Attestations : list Attestation.t;
  Exits : list Exit.t
}.
End BeaconBlockBody.

Module BeaconBlock.
Record t := mk {
  RandaoRevealHash32 : list Z;
  Eth1Data : option Eth1Data.t;
  Body : BeaconBlockBody.t
}.
End BeaconBlock.

Module BeaconState.
Record t := mk {
  Slot : Z;
  Eth1DataVotes : list Eth1DataVote.t;
  ValidatorRegistry : slice;
  LatestRandaoMixesHash32S : list (list Z);
  LatestCrosslinks : list CrosslinkRecord.t;
  LatestAttestations : list PendingAttestationRecord.t;
  JustifiedEpoch : Z;
  PreviousJustifiedEpoch : Z
}.
#[global] Instance BeaconState_eq_dec : EqDecision t.
Proof. solve_decision. Defined.

Definition set_Eth1DataVotes (s : t) (x : list Eth1DataVote.t) : t :=
  mk (Slot s) x (ValidatorRegistry s) (LatestRandaoMixesHash32S s)
     (LatestCrosslinks s) (LatestAttestations s) (JustifiedEpoch s)
     (PreviousJustifiedEpoch s).

Definition set_ValidatorRegistry (s : t) (x : slice) : t :=
  mk (Slot s) (Eth1DataVotes s) x (LatestRandaoMixesHash32S s)
     (LatestCrosslinks s) (LatestAttestations s) (JustifiedEpoch s)
     (PreviousJustifiedEpoch s).

Definition set_LatestRandaoMixesHash32S (s : t) (x : list (list Z)) : t :=
  mk (Slot s) (Eth1DataVotes s) (ValidatorRegistry s) x
     (LatestCrosslinks s) (LatestAttestations s) (JustifiedEpoch s)
     (PreviousJustifiedEpoch s).

Definition set_LatestAttestations (s : t)
    (x : list PendingAttestationRecord.t) : t :=
  mk (Slot s) (Eth1DataVotes s) (ValidatorRegistry s)
     (LatestRandaoMixesHash32S s) (LatestCrosslinks s) x
     (JustifiedEpoch s) (PreviousJustifiedEpoch s).
End BeaconState.

(** ** Errors

    One constructor per [errors.New] / [fmt.Errorf] site of the package;
    a constructor with a [cause] is a site that wraps another error. *)

Inductive error : Type :=
  | ExternalError (code : Z)
  | ProposerIndexFailed (cause : error)
  | RandaoVerifyFailed (cause : error)
  | RandaoMismatch
  | TooManyProposerSlashings
  | ProposerSlashingInvalid (idx : nat) (cause : error)
  | SlotsMismatch
  | ShardsMismatch
  | BlockRootsMismatch
  | PenalizeProposerFailed (index : Z) (cause : error)
  | TooManyAttesterSlashings
  | AttesterSlashingInvalid (idx : nat) (cause : error)
  | SlashableIndicesFailed (cause : error)
  | PenalizeValidatorFailed (index : Z) (cause : error)
  | SlashableDataEqual
  | NotDoubleNorSurroundVote
  | SlashableAttestation1Invalid (cause : error)
  | SlashableAttestation2Invalid (cause : error)
  | NoSlashableIndices
  | CustodyAllZero
  | EmptyValidatorIndices
  | IndicesNotAscending
  | CustodyLengthMismatch
  | TooManyIndices
  | TooManyAttestations
  | AttestationInvalid (idx : nat) (cause : error)
  | AttestationTooRecent
  | AttestationTooStale
  | JustifiedEpochMismatch
  | PreviousJustifiedEpochMismatch
  | BlockRootFailed (cause : error)
  | JustifiedBlockRootMismatch
  | CrosslinkRootMismatch
  | ShardBlockRootNotZero
  | TooManyExits
  | ExitInvalid (idx : nat) (cause : error)
  | ExitEpochTooEarly
  | ExitInFuture.

(** The two errors of the inclusion window of an attestation. *)
Definition is_window_error (e : error) : bool :=
  match e with
  | AttestationTooRecent | AttestationTooStale => true
  | _ => false
  end.

(** ** Results, heap and the processor monad *)

(** How a Go call ends: a value, a returned error, or a run-time panic
    (index out of range, nil dereference, division by zero). *)
Inductive Res (A : Type) : Type :=
  | Ok (a : A)
  | Err (e : error)
  | Panic.
Arguments Ok {A} a.
Arguments Err {A} e.
Arguments Panic {A}.

#[global] Instance Res_ret : MRet Res := λ A a, Ok a.
#[global] Instance Res_bind : MBind Res := λ A B f r,
  match r with
  | Ok a => f a
  | Err e => Err e
  | Panic => Panic
  end.

(** A nil error. *)
Abbreviation OK := (Ok tt).

Record Heap := mkHeap {
  validators : gmap loc Validator.t;
  registries : gmap loc (list loc)
}.

(** Calls to the registry mutators of package [validators], recorded in
    the order they are made (ghost state: the code keeps no such log). *)
Inductive call : Type :=
  | CallPenalizeValidator (index : Z)
  | CallInitiateValidatorExit (index : Z).

#[global] Instance call_eq_dec : EqDecision call.
Proof. solve_decision. Defined.

Record World := mkWorld { heap : Heap; calls : list call }.

Definition M (A : Type) : Type := World → Res A * World.

#[global] Instance M_ret : MRet M := λ A a w, (Ok a, w).
#[global] Instance M_bind : MBind M := λ A B f m w,
  match m w with
  | (Ok a, w') => f a w'
  | (Err e, w') => (Err e, w')
  | (Panic, w') => (Panic, w')
  end.

(** A computation that only reads the heap. *)
Definition reading {A} (f : Heap → Res A) : M A := λ w, (f (heap w), w).

Definition fail {A} (e : error) : M A := λ w, (Err e, w).

(** [wrapping f m]: [m] with its error, if any, passed through [f]
    (the [fmt.Errorf(".. %v", err)] idiom). *)
Definition wrapping {A} (f : error → error) (m : M A) : M A := λ w,
  match m w with
  | (Err e, w') => (Err (f e), w')
  | r => r
  end.

Definition wrap_check (f : error → error) (r : Res unit) : Res unit :=
  match r with
  | Err e => Err (f e)
  | r => r
  end.

Definition wrap_list_error (r : Res (list Z)) : Res (list Z) :=
  match r with
  | Err e => Err (SlashableIndicesFailed e)
  | r => r
  end.

(** ** Reading and writing the registry *)

(** [sl[i]] for a [uint64] index: the pointer stored there; out of range
    is a panic. *)
Definition slice_index (h : Heap) (sl : slice) (i : Z) : Res loc :=
  if bool_decide (0 <= i < Z.of_nat (sl_len sl)) then
    match registries h !! sl_arr sl with
    | Some arr =>
        match arr !! Z.to_nat i with
        | Some p => Ok p
        | None => Panic
        end
    | None => Panic
    end
  else Panic.

(** [*p]: a nil or dangling pointer is a panic. *)
Definition load (h : Heap) (p : loc) : Res Validator.t :=
  match validators h !! p with
  | Some v => Ok v
  | None => Panic
  end.

(** [*sl[i]]. *)
Definition registry_at (h : Heap) (sl : slice) (i : Z) : Res Validator.t :=
  p ← slice_index h sl i; load h p.

(** [*p = v]. *)
Definition store (p : loc) (v : Validator.t) : M unit := λ w,
  match validators (heap w) !! p with
  | Some _ =>
      (OK, mkWorld (mkHeap (<[p := v]> (validators (heap w)))
                           (registries (heap w))) (calls w))
  | None => (Panic, w)
  end.

(** [sl[i] = p]. *)
Definition slice_store (sl : slice) (i : Z) (p : loc) : M unit := λ w,
  if bool_decide (0 <= i < Z.of_nat (sl_len sl)) then
    match registries (heap w) !! sl_arr sl with
    | Some arr =>
        if bool_decide (Z.to_nat i < length arr)%nat then
          (OK, mkWorld (mkHeap (validators (heap w))
                 (<[sl_arr sl := <[Z.to_nat i := p]> arr]>
                    (registries (heap w)))) (calls w))
        else (Panic, w)
    | None => (Panic, w)
    end
  else (Panic, w).

(** The registry as a reader of the state sees it: the validators behind
    the first [sl_len] pointers of the backing array. *)
Definition registry_view (h : Heap) (sl : slice) : option (list Validator.t) :=
  arr ← registries h !! sl_arr sl;
  mapM (λ p, validators h !! p) (take (sl_len sl) arr).

(** A result that does not touch the heap, as a computation. *)
Definition lift {A} (r : Res A) : M A := λ w, (r, w).

(** ** Collaborators *)

(** [params.BeaconConfig()]: the constants the processors read. *)
Record BeaconChainConfig := mkConfig {
  MaxProposerSlashings : Z;
  MaxAttesterSlashings : Z;
  MaxAttestations : Z;
  MaxExits : Z;
  MaxIndicesPerSlashableVote : Z;
  LatestRandaoMixesLength : Z;
  MinAttestationInclusionDelay : Z;
  EpochLength : Z
}.

(** The functions of other packages the processors call. None of them is
    part of the package; a theorem holds for every instance, or states
    what it assumes of one.
    - [helpers]: [CurrentEpoch], [SlotToEpoch], [StartSlot],
      [EntryExitEffectEpoch];
    - [blocks.BlockRoot], whose file is not among the sources;
    - [validators]: [BeaconProposerIdx] reads the state and the registry;
      [PenalizeValidator] and [InitiateValidatorExit] return a state and
      may write the heap;
    - [hashutil.Hash], [bytesutil.ToBytes32];
    - [reflect.DeepEqual] on two [*AttestationData], which (unlike
      [bytes.Equal]) also tells a nil slice from an empty one. *)
Class Env := mkEnv {
  BeaconConfig : BeaconChainConfig;
  CurrentEpoch : BeaconState.t → Z;
  SlotToEpoch : Z → Z;
  StartSlot : Z → Z;
  EntryExitEffectEpoch : Z → Z;
  BlockRoot : BeaconState.t → Z → Res (list Z);
  BeaconProposerIdx : Heap → BeaconState.t → Z → Res Z;
  PenalizeValidator : Heap → BeaconState.t → Z → Res BeaconState.t * Heap;
  InitiateValidatorExit : Heap → BeaconState.t → Z → BeaconState.t * Heap;
  Hash : list Z → list Z;
  ToBytes32 : list Z → list Z;
  DeepEqual : AttestationData.t → AttestationData.t → bool
}.

(** Modelled from the spec: [mathutil.CeilDiv8] is not among the sources;
    the spec gives [ceil(n/8)], computed as [(n + 7) >> 3]. *)
Definition CeilDiv8 (n : Z) : Z := Z.shiftr (n + 7) 3.

(** [proto.Equal] on two [*Eth1Data]: two nil pointers are equal, a nil
    and a message are not, two messages are compared field by field. *)
Definition proto_Equal (a b : option Eth1Data.t) : bool := bool_decide (a = b).

Section Processors.
Context {env : Env}.

(** Modelled from the spec: [hashutil.RepeatHash] is not among the
    sources; [repeat_hash(x, 0) = x] and
    [repeat_hash(x, n) = hash(repeat_hash(x, n-1))]. *)
Definition RepeatHash (x : list Z) (n : Z) : list Z :=
  Nat.iter (Z.to_nat n) Hash x.

(** The two mutators, with the call recorded. *)
Definition call_PenalizeValidator (s : BeaconState.t) (i : Z)
  : M BeaconState.t := λ w,
  let '(r, h) := PenalizeValidator (heap w) s i in
  (r, mkWorld h (calls w ++ [CallPenalizeValidator i])).

Definition call_InitiateValidatorExit (s : BeaconState.t) (i : Z)
  : M BeaconState.t := λ w,
  let '(s', h) := InitiateValidatorExit (heap w) s i in
  (Ok s', mkWorld h (calls w ++ [CallInitiateValidatorExit i])).

(** *** ProcessEth1Data *)

(** The [for idx := range beaconState.Eth1DataVotes] loop: the votes
    after it and the flag [eth1DataVoteAdded]. *)
Fixpoint eth1_votes_loop (votes : list Eth1DataVote.t)
    (d : option Eth1Data.t) : list Eth1DataVote.t * bool :=
  match votes with
  | [] => ([], false)
  | v :: rest =>
      if proto_Equal (Eth1DataVote.Eth1Data v) d then
        (Eth1DataVote.mk (Eth1DataVote.Eth1Data v)
           (wrap64 (Eth1DataVote.VoteCount v + 1)) :: rest, true)
      else
        let '(rest', added) := eth1_votes_loop rest d in
        (v :: rest', added)
  end.

Definition ProcessEth1Data (beaconState : BeaconState.t)
    (block : BeaconBlock.t) : BeaconState.t :=
  let '(votes, eth1DataVoteAdded) :=
    eth1_votes_loop (BeaconState.Eth1DataVotes beaconState)
                    (BeaconBlock.Eth1Data block) in
  if negb eth1DataVoteAdded then
    BeaconState.set_Eth1DataVotes beaconState
      (votes ++ [Eth1DataVote.mk (BeaconBlock.Eth1Data block) 1])
  else BeaconState.set_Eth1DataVotes beaconState votes.

(** *** ProcessBlockRandao *)

Definition verifyBlockRandao (proposer : Validator.t)
    (block : BeaconBlock.t) : Res unit :=
  let blockRandaoReveal := ToBytes32 (BeaconBlock.RandaoRevealHash32 block) in
  let proposerRandaoCommit :=
    ToBytes32 (Validator.RandaoCommitmentHash32 proposer) in
  let randaoHashLayers :=
    RepeatHash blockRandaoReveal (Validator.RandaoLayers proposer) in
  if bool_decide (randaoHashLayers ≠ proposerRandaoCommit)
  then Err RandaoMismatch
  else OK.

(** [for i, x := range reveal { latestMix[i] ^= x }] on the array
    [latestMix]: an index past the array is a panic ([None]). *)
Fixpoint xor_into (latestMix reveal : list Z) {struct reveal}
  : option (list Z) :=
  match reveal with
  | [] => Some latestMix
  | x :: reveal' =>
      match latestMix with
      | [] => None
      | m :: latestMix' =>
          match xor_into latestMix' reveal' with
          | Some r => Some (Z.lxor m x :: r)
          | None => None
          end
      end
  end.

Definition ProcessBlockRandao (beaconState : BeaconState.t)
    (block : BeaconBlock.t) : M BeaconState.t :=
  proposerIndex ← wrapping ProposerIndexFailed
    (reading (λ h, BeaconProposerIdx h beaconState
                     (BeaconState.Slot beaconState)));
  let registry := BeaconState.ValidatorRegistry beaconState in
  proposer ← reading (λ h, slice_index h registry proposerIndex);
  v ← reading (λ h, load h proposer);
  _ ← lift (wrap_check RandaoVerifyFailed (verifyBlockRandao v block));
  let latestMixesLength := LatestRandaoMixesLength BeaconConfig in
  if bool_decide (latestMixesLength = 0) then lift Panic else
  let i := Z.to_nat (BeaconState.Slot beaconState `mod` latestMixesLength) in
  match BeaconState.LatestRandaoMixesHash32S beaconState !! i with
  | None => lift Panic
  | Some latestMixSlice =>
      match xor_into (ToBytes32 latestMixSlice)
                     (BeaconBlock.RandaoRevealHash32 block) with
      | None => lift Panic
      | Some latestMix =>
          _ ← store proposer
                (Validator.set_randao v
                   (BeaconBlock.RandaoRevealHash32 block) 0);
          _ ← slice_store registry proposerIndex proposer;
          let beaconState :=
            BeaconState.set_LatestRandaoMixesHash32S beaconState
              (<[i := latestMix]>
                 (BeaconState.LatestRandaoMixesHash32S beaconState)) in
          mret (BeaconState.set_ValidatorRegistry beaconState registry)
      end
  end.

(** *** ProcessProposerSlashings *)

Definition verifyProposerSlashing (slashing : ProposerSlashing.t)
    (verifySignatures : bool) : Res unit :=
  let slot1 := ProposalSignedData.Slot (ProposerSlashing.ProposalData_1 slashing) in
  let slot2 := ProposalSignedData.Slot (ProposerSlashing.ProposalData_2 slashing) in
  let shard1 := ProposalSignedData.Shard (ProposerSlashing.ProposalData_1 slashing) in
  let shard2 := ProposalSignedData.Shard (ProposerSlashing.ProposalData_2 slashing) in
  let root1 :=
    ProposalSignedData.BlockRootHash32 (ProposerSlashing.ProposalData_1 slashing) in
  let root2 :=
    ProposalSignedData.BlockRootHash32 (ProposerSlashing.ProposalData_2 slashing) in
  if bool_decide (slot1 ≠ slot2) then Err SlotsMismatch
  else if bool_decide (shard1 ≠ shard2) then Err ShardsMismatch
  else if negb (bytes_Equal root1 root2) then Err BlockRootsMismatch
  else if verifySignatures then OK
  else OK.

(** The [for idx, slashing := range body.ProposerSlashings] loop, from
    entry [idx] on. [registry] is the slice header read off the state
    before the loop. *)
Fixpoint proposer_slashings_loop (registry : slice) (verifySignatures : bool)
    (idx : nat) (slashings : list ProposerSlashing.t)
    (beaconState : BeaconState.t) : M BeaconState.t :=
  match slashings with
  | [] => mret beaconState
  | slashing :: rest =>
      _ ← lift (wrap_check (ProposerSlashingInvalid idx)
                  (verifyProposerSlashing slashing verifySignatures));
      proposer ← reading (λ h,
        registry_at h registry (ProposerSlashing.ProposerIndex slashing));
      if Validator.PenalizedEpoch proposer >? CurrentEpoch beaconState then
        beaconState ← wrapping
          (PenalizeProposerFailed (ProposerSlashing.ProposerIndex slashing))
          (call_PenalizeValidator beaconState
             (ProposerSlashing.ProposerIndex slashing));
        proposer_slashings_loop registry verifySignatures (S idx) rest beaconState
      else
        proposer_slashings_loop registry verifySignatures (S idx) rest beaconState
  end.

Definition ProcessProposerSlashings (beaconState : BeaconState.t)
    (block : BeaconBlock.t) (verifySignatures : bool) : M BeaconState.t :=
  let body := BeaconBlock.Body block in
  let registry := BeaconState.ValidatorRegistry beaconState in
  if Z.of_nat (length (BeaconBlockBody.ProposerSlashings body))
       >? MaxProposerSlashings BeaconConfig
  then fail TooManyProposerSlashings
  else proposer_slashings_loop registry verifySignatures 0
         (BeaconBlockBody.ProposerSlashings body) beaconState.

(** *** ProcessAttesterSlashings *)

(** The loop [for i := 0; i < len(indices)-1; i++] of
    [verifySlashableAttestation]: [true] when it runs to its end, [false]
    when it returns the error. *)
Fixpoint indices_loop (indices : list Z) : bool :=
  match indices with
  | a :: (b :: _) as rest => if a >=? b then false else indices_loop rest
  | _ => true
  end.

Definition verifySlashableAttestation (att : SlashableAttestation.t)
    (verifySignatures : bool) : Res unit :=
  let emptyCustody :=
    replicate (length (SlashableAttestation.CustodyBitfield att)) 0 in
  if bytes_Equal (SlashableAttestation.CustodyBitfield att) emptyCustody
  then Err CustodyAllZero
  else if bool_decide (length (SlashableAttestation.ValidatorIndices att) = 0%nat)
  then Err EmptyValidatorIndices
  else if negb (indices_loop (SlashableAttestation.ValidatorIndices att))
  then Err IndicesNotAscending
  else if bool_decide
            (Z.of_nat (length (SlashableAttestation.CustodyBitfield att))
             ≠ CeilDiv8 (Z.of_nat (length (SlashableAttestation.ValidatorIndices att))))
  then Err CustodyLengthMismatch
  else if Z.of_nat (length (SlashableAttestation.ValidatorIndices att))
            >? MaxIndicesPerSlashableVote BeaconConfig
  then Err TooManyIndices
  else if verifySignatures then OK
  else OK.

Definition isDoubleVote (data1 data2 : AttestationData.t) : bool :=
  bool_decide (SlotToEpoch (AttestationData.Slot data1)
               = SlotToEpoch (AttestationData.Slot data2)).

Definition isSurroundVote (data1 data2 : AttestationData.t) : bool :=
  let sourceEpoch1 := AttestationData.JustifiedEpoch data1 in
  let sourceEpoch2 := AttestationData.JustifiedEpoch data2 in
  let targetEpoch1 := SlotToEpoch (AttestationData.Slot data1) in
  let targetEpoch2 := SlotToEpoch (AttestationData.Slot data2) in
  (sourceEpoch1 <? sourceEpoch2) && (targetEpoch2 <? targetEpoch1).

Definition verifyAttesterSlashing (slashing : AttesterSlashing.t)
    (verifySignatures : bool) : Res unit :=
  let slashableAttestation1 := AttesterSlashing.SlashableAttestation_1 slashing in
  let slashableAttestation2 := AttesterSlashing.SlashableAttestation_2 slashing in
  let data1 := SlashableAttestation.Data slashableAttestation1 in
  let data2 := SlashableAttestation.Data slashableAttestation2 in
  if DeepEqual data1 data2 then Err SlashableDataEqual
  else if negb (isDoubleVote data1 data2 || isSurroundVote data1 data2)
  then Err NotDoubleNorSurroundVote
  else
    _ ← wrap_check SlashableAttestation1Invalid
          (verifySlashableAttestation slashableAttestation1 verifySignatures);
    _ ← wrap_check SlashableAttestation2Invalid
          (verifySlashableAttestation slashableAttestation2 verifySignatures);
    OK.

(** The inner loop [for _, idx2 := range ...ValidatorIndices] of
    [attesterSlashableIndices], for one [idx1]. *)
Fixpoint slashable_inner (h : Heap) (beaconState : BeaconState.t) (idx1 : Z)
    (indices2 : list Z) (slashableIndices : list Z) : Res (list Z) :=
  match indices2 with
  | [] => Ok slashableIndices
  | idx2 :: rest =>
      if bool_decide (idx1 = idx2) then
        v ← registry_at h (BeaconState.ValidatorRegistry beaconState) idx1;
        if Validator.PenalizedEpoch v >? CurrentEpoch beaconState
        then slashable_inner h beaconState idx1 rest (slashableIndices ++ [idx1])
        else slashable_inner h beaconState idx1 rest slashableIndices
      else slashable_inner h beaconState idx1 rest slashableIndices
  end.

(** The outer loop [for _, idx1 := range ...ValidatorIndices]. *)
Fixpoint slashable_outer (h : Heap) (beaconState : BeaconState.t)
    (indices1 indices2 : list Z) (slashableIndices : list Z) : Res (list Z) :=
  match indices1 with
  | [] => Ok slashableIndices
  | idx1 :: rest =>
      acc ← slashable_inner h beaconState idx1 indices2 slashableIndices;
      slashable_outer h beaconState rest indices2 acc
  end.

Definition attesterSlashableIndices (h : Heap) (beaconState : BeaconState.t)
    (slashing : AttesterSlashing.t) : Res (list Z) :=
  let slashableAttestation1 := AttesterSlashing.SlashableAttestation_1 slashing in
  let slashableAttestation2 := AttesterSlashing.SlashableAttestation_2 slashing in
  slashableIndices ← slashable_outer h beaconState
    (SlashableAttestation.ValidatorIndices slashableAttestation1)
    (SlashableAttestation.ValidatorIndices slashableAttestation2) [];
  if bool_decide (length slashableIndices < 1)%nat
  then Err NoSlashableIndices
  else Ok slashableIndices.

(** The loop [for _, validatorIndex := range slashableIndices]. *)
Fixpoint penalize_loop (slashableIndices : list Z)
    (beaconState : BeaconState.t) : M BeaconState.t :=
  match slashableIndices with
  | [] => mret beaconState
  | validatorIndex :: rest =>
      beaconState ← wrapping (PenalizeValidatorFailed validatorIndex)
        (call_PenalizeValidator beaconState validatorIndex);
      penalize_loop rest beaconState
  end.

(** The loop [for idx, slashing := range body.AttesterSlashings]. *)
Fixpoint attester_slashings_loop (verifySignatures : bool) (idx : nat)
    (slashings : list AttesterSlashing.t) (beaconState : BeaconState.t)
    : M BeaconState.t :=
  match slashings with
  | [] => mret beaconState
  | slashing :: rest =>
      _ ← lift (wrap_check (AttesterSlashingInvalid idx)
                  (verifyAttesterSlashing slashing verifySignatures));
      slashableIndices ← reading (λ h,
        wrap_list_error (attesterSlashableIndices h beaconState slashing));
      beaconState ← penalize_loop slashableIndices beaconState;
      attester_slashings_loop verifySignatures (S idx) rest beaconState
  end.

Definition ProcessAttesterSlashings (beaconState : BeaconState.t)
    (block : BeaconBlock.t) (verifySignatures : bool) : M BeaconState.t :=
  let body := BeaconBlock.Body block in
  if Z.of_nat (length (BeaconBlockBody.AttesterSlashings body))
       >? MaxAttesterSlashings BeaconConfig
  then fail TooManyAttesterSlashings
  else attester_slashings_loop verifySignatures 0
         (BeaconBlockBody.AttesterSlashings body) beaconState.

(** *** ProcessBlockAttestations *)

Definition verifyAttestation (beaconState : BeaconState.t)
    (att : Attestation.t) (verifySignatures : bool) : Res unit :=
  let data := Attestation.Data att in
  let inclusionDelay := MinAttestationInclusionDelay BeaconConfig in
  if wrap64 (AttestationData.Slot data + inclusionDelay)
       >? BeaconState.Slot beaconState
  then Err AttestationTooRecent
  else if wrap64 (AttestationData.Slot data + EpochLength BeaconConfig)
            <? BeaconState.Slot beaconState
  then Err AttestationTooStale
  else
    _ ← (if AttestationData.Slot data
              >=? StartSlot (SlotToEpoch (BeaconState.Slot beaconState))
         then
           if bool_decide (AttestationData.JustifiedEpoch data
                           ≠ BeaconState.JustifiedEpoch beaconState)
           then Err JustifiedEpochMismatch else OK
         else
           if bool_decide (AttestationData.JustifiedEpoch data
                           ≠ BeaconState.PreviousJustifiedEpoch beaconState)
           then Err PreviousJustifiedEpochMismatch else OK);
    blockRoot ← match BlockRoot beaconState
                        (StartSlot (AttestationData.JustifiedEpoch data)) with
                | Err e => Err (BlockRootFailed e)
                | r => r
                end;
    let justifiedBlockRoot := AttestationData.JustifiedBlockRootHash32 data in
    if negb (bytes_Equal justifiedBlockRoot blockRoot)
    then Err JustifiedBlockRootMismatch
    else
      let crossLinkRoot := AttestationData.LatestCrosslinkRootHash32 data in
      let shardBlockRoot := AttestationData.ShardBlockRootHash32 data in
      let shard := AttestationData.Shard data in
      if bool_decide (0 <= shard) then
        match BeaconState.LatestCrosslinks beaconState !! Z.to_nat shard with
        | None => Panic
        | Some crosslink =>
            let stateShardBlockRoot :=
              CrosslinkRecord.ShardBlockRootHash32 crosslink in
            if negb (bytes_Equal crossLinkRoot stateShardBlockRoot
                     || bytes_Equal shardBlockRoot stateShardBlockRoot)
            then Err CrosslinkRootMismatch
            else if negb (bytes_Equal
                            (AttestationData.ShardBlockRootHash32 data) [])
            then Err ShardBlockRootNotZero
            else if verifySignatures then OK
            else OK
        end
      else Panic.

Definition pending_of (beaconState : BeaconState.t) (attestation : Attestation.t)
  : PendingAttestationRecord.t :=
  PendingAttestationRecord.mk
    (Attestation.Data attestation)
    (Attestation.AggregationBitfield attestation)
    (Attestation.CustodyBitfield attestation)
    (BeaconState.Slot beaconState).

(** The loop [for idx, attestation := range atts], from entry [idx] on,
    with the records appended so far. *)
Fixpoint attestations_loop (beaconState : BeaconState.t)
    (verifySignatures : bool) (idx : nat) (atts : list Attestation.t)
    (pendingAttestations : list PendingAttestationRecord.t)
    : Res (list PendingAttestationRecord.t) :=
  match atts with
  | [] => Ok pendingAttestations
  | attestation :: rest =>
      _ ← wrap_check (AttestationInvalid idx)
            (verifyAttestation beaconState attestation verifySignatures);
      attestations_loop beaconState verifySignatures (S idx) rest
        (pendingAttestations ++ [pending_of beaconState attestation])
  end.

Definition ProcessBlockAttestations (beaconState : BeaconState.t)
    (block : BeaconBlock.t) (verifySignatures : bool) : Res BeaconState.t :=
  let atts := BeaconBlockBody.Attestations (BeaconBlock.Body block) in
  if Z.of_nat (length atts) >? MaxAttestations BeaconConfig
  then Err TooManyAttestations
  else
    pendingAttestations ←
      attestations_loop beaconState verifySignatures 0 atts [];
    Ok (BeaconState.set_LatestAttestations beaconState pendingAttestations).

(** *** ProcessValidatorExits *)

Definition verifyExit (h : Heap) (beaconState : BeaconState.t)
    (exit : Exit.t) (verifySignatures : bool) : Res unit :=
  validator ← registry_at h (BeaconState.ValidatorRegistry beaconState)
                 (Exit.ValidatorIndex exit);
  let currentEpoch := CurrentEpoch beaconState in
  let entryExitEffectEpoch := EntryExitEffectEpoch currentEpoch in
  if Validator.ExitEpoch validator <=? entryExitEffectEpoch
  then Err ExitEpochTooEarly
  else if currentEpoch <? Exit.Epoch exit
  then Err ExitInFuture
  else if verifySignatures then OK
  else OK.

(** The loop [for idx, exit := range exits]. *)
Fixpoint exits_loop (verifySignatures : bool) (idx : nat)
    (exits : list Exit.t) (beaconState : BeaconState.t) : M BeaconState.t :=
  match exits with
  | [] => mret beaconState
  | exit :: rest =>
      _ ← reading (λ h, wrap_check (ExitInvalid idx)
                          (verifyExit h beaconState exit verifySignatures));
      beaconState ← call_InitiateValidatorExit beaconState
                      (Exit.ValidatorIndex exit);
      exits_loop verifySignatures (S idx) rest beaconState
  end.

Definition ProcessValidatorExits (beaconState : BeaconState.t)
    (block : BeaconBlock.t) (verifySignatures : bool) : M BeaconState.t :=
  let exits := BeaconBlockBody.Exits (BeaconBlock.Body block) in
  if Z.of_nat (length exits) >? MaxExits BeaconConfig
  then fail TooManyExits
  else
    let validatorRegistry := BeaconState.ValidatorRegistry beaconState in
    beaconState ← exits_loop verifySignatures 0 exits beaconState;
    mret (BeaconState.set_ValidatorRegistry beaconState validatorRegistry).

End Processors.

(** ** Notions used by the statements *)

Section Notions.
Context {env : Env}.

(** The sum of the vote counts of a tally list. *)
Definition sum_votes (votes : list Eth1DataVote.t) : Z :=
  foldr (λ v acc, Eth1DataVote.VoteCount v + acc) 0 votes.

(** A vote for exactly the data [d]. *)
Definition votes_for (d : option Eth1Data.t) (v : Eth1DataVote.t) : Prop :=
  proto_Equal (Eth1DataVote.Eth1Data v) d = true.

(** A check that ends in one of the two inclusion-window errors. *)
Definition window_failure (r : Res unit) : bool :=
  match r with
  | Err e => is_window_error e
  | _ => false
  end.

(** Every adjacent pair of the list is strictly increasing. *)
Definition strictly_ascending (indices : list Z) : Prop :=
  ∀ (i : nat) (a b : Z),
    indices !! i = Some a → indices !! S i = Some b → a < b.

(** Validator [i], read through the slice [sl], has been penalized at or
    before [epoch]. *)
Definition already_slashed (h : Heap) (sl : slice) (epoch : Z) (i : Z) : Prop :=
  ∃ v, registry_at h sl i = Ok v ∧ Validator.PenalizedEpoch v <= epoch.

(** No call to [PenalizeValidator i] among the calls made from [w] to
    [w'], and [i] still slashed in a state the run returns. *)
Definition spares (i : Z) (w : World) (r : Res BeaconState.t) (w' : World)
  : Prop :=
  (∃ new, calls w' = calls w ++ new ∧ CallPenalizeValidator i ∉ new) ∧
  (∀ s', r = Ok s' →
         already_slashed (heap w') (BeaconState.ValidatorRegistry s')
           (CurrentEpoch s') i).

(** What the slashing processors assume of [PenalizeValidator]: it keeps
    the current epoch and the registry slice of the state, and no
    validator that counts as slashed at the current epoch stops doing so
    (the penalized validator itself gets an epoch that is at most the
    current one). *)
Definition penalize_keeps_slashed : Prop :=
  ∀ h s j r h', PenalizeValidator h s j = (r, h') →
    (∀ sl i, already_slashed h sl (CurrentEpoch s) i →
             already_slashed h' sl (CurrentEpoch s) i) ∧
    (∀ s', r = Ok s' →
           CurrentEpoch s' = CurrentEpoch s ∧
           BeaconState.ValidatorRegistry s' = BeaconState.ValidatorRegistry s).

(** [initiate_validator_exit] applied once per exit, in list order, as
    the specification words the exit stage. *)
Fixpoint apply_exits (h : Heap) (s : BeaconState.t) (exits : list Exit.t)
  : BeaconState.t * Heap :=
  match exits with
  | [] => (s, h)
  | exit :: rest =>
      let '(s', h') := InitiateValidatorExit h s (Exit.ValidatorIndex exit) in
      apply_exits h' s' rest
  end.

(** Every exit of the list passes [verifyExit] in the state it meets. *)
Fixpoint exits_pass (verifySignatures : bool) (h : Heap) (s : BeaconState.t)
    (exits : list Exit.t) : Prop :=
  match exits with
  | [] => True
  | exit :: rest =>
      verifyExit h s exit verifySignatures = OK ∧
      let '(s', h') := InitiateValidatorExit h s (Exit.ValidatorIndex exit) in
      exits_pass verifySignatures h' s' rest
  end.

(** The calls the exit stage makes for a list of exits. *)
Definition exit_calls (exits : list Exit.t) : list call :=
  map (λ e, CallInitiateValidatorExit (Exit.ValidatorIndex e)) exits.

(** The index into the ring of randao mixes for the slot of a state. *)
Definition mix_index (s : BeaconState.t) : nat :=
  Z.to_nat (BeaconState.Slot s `mod` LatestRandaoMixesLength BeaconConfig).

(** The facts behind a successful run of [ProcessBlockRandao]. *)
Record randao_run (s : BeaconState.t) (b : BeaconBlock.t) (h : Heap)
    (proposerIndex : Z) (proposer : loc) (v : Validator.t) (arr : list loc)
    (mix latestMix : list Z) : Prop := mkRandaoRun {
  run_proposer_index :
    BeaconProposerIdx h s (BeaconState.Slot s) = Ok proposerIndex;
  run_in_range :
    0 <= proposerIndex < Z.of_nat (sl_len (BeaconState.ValidatorRegistry s));
  run_array :
    registries h !! sl_arr (BeaconState.ValidatorRegistry s) = Some arr;
  run_pointer : arr !! Z.to_nat proposerIndex = Some proposer;
  run_validator : validators h !! proposer = Some v;
  run_verified : verifyBlockRandao v b = OK;
  run_length : LatestRandaoMixesLength BeaconConfig ≠ 0;
  run_mix : BeaconState.LatestRandaoMixesHash32S s !! mix_index s = Some mix;
  run_xor :
    xor_into (ToBytes32 mix) (BeaconBlock.RandaoRevealHash32 b) = Some latestMix
}.

(** The state and the heap such a run leaves. *)
Definition randao_state_after (s : BeaconState.t) (latestMix : list Z)
  : BeaconState.t :=
  BeaconState.set_ValidatorRegistry
    (BeaconState.set_LatestRandaoMixesHash32S s
       (<[mix_index s := latestMix]> (BeaconState.LatestRandaoMixesHash32S s)))
    (BeaconState.ValidatorRegistry s).

Definition randao_heap_after (b : BeaconBlock.t) (h : Heap) (proposer : loc)
    (v : Validator.t) : Heap :=
  mkHeap (<[proposer := Validator.set_randao v
                          (BeaconBlock.RandaoRevealHash32 b) 0]> (validators h))
         (registries h).

(** The contract of [bytesutil.ToBytes32]: a 32-byte array, and the
    bytes of a 32-byte slice unchanged. *)
Definition ToBytes32_contract : Prop :=
  (∀ x, length (ToBytes32 x) = 32%nat) ∧
  (∀ x, length x = 32%nat → ToBytes32 x = x).

End Notions.

(** ** Test doubles and sample data *)

Definition sample_config : BeaconChainConfig :=
  mkConfig 16 1 128 16 4096 4 4 64.

(** Writes [f] through the pointer at [sl[i]]; a panic when the index or
    the pointer is bad. *)
Definition update_validator (f : Validator.t → Validator.t) (h : Heap)
    (sl : slice) (i : Z) : option Heap :=
  match slice_index h sl i with
  | Ok p =>
      match validators h !! p with
      | Some v => Some (mkHeap (<[p := f v]> (validators h)) (registries h))
      | None => None
      end
  | _ => None
  end.

Definition set_PenalizedEpoch (e : Z) (v : Validator.t) : Validator.t :=
  Validator.mk (Validator.Pubkey v) (Validator.WithdrawalCredentialsHash32 v)
    (Validator.ExitEpoch v) e (Validator.RandaoCommitmentHash32 v)
    (Validator.RandaoLayers v).

Definition set_ExitEpoch (e : Z) (v : Validator.t) : Validator.t :=
  Validator.mk (Validator.Pubkey v) (Validator.WithdrawalCredentialsHash32 v)
    e (Validator.PenalizedEpoch v) (Validator.RandaoCommitmentHash32 v)
    (Validator.RandaoLayers v).

(** A penalty written in place: the validator's penalized epoch becomes
    the current epoch. *)
Definition penalize_in_place (h : Heap) (s : BeaconState.t) (i : Z)
  : Res BeaconState.t * Heap :=
  match update_validator (set_PenalizedEpoch (BeaconState.Slot s `div` 64)) h
          (BeaconState.ValidatorRegistry s) i with
  | Some h' => (Ok s, h')
  | None => (Panic, h)
  end.

(** An exit written in place through the registry of the state. *)
Definition exit_in_place (h : Heap) (s : BeaconState.t) (i : Z)
  : BeaconState.t * Heap :=
  match update_validator (set_ExitEpoch (BeaconState.Slot s `div` 64 + 5)) h
          (BeaconState.ValidatorRegistry s) i with
  | Some h' => (s, h')
  | None => (s, h)
  end.

(** Zero padding or truncation to 32 bytes. *)
Definition pad32 (x : list Z) : list Z := take 32 (x ++ replicate 32 0).

Definition sample_env : Env := {|
  BeaconConfig := sample_config;
  CurrentEpoch := λ s, BeaconState.Slot s `div` 64;
  SlotToEpoch := λ slot, slot `div` 64;
  StartSlot := λ epoch, epoch * 64;
  EntryExitEffectEpoch := λ epoch, epoch + 1 + 4;
  BlockRoot := λ _ _, Ok [];
  BeaconProposerIdx := λ _ _ _, Ok 0;
  PenalizeValidator := penalize_in_place;
  InitiateValidatorExit := exit_in_place;
  Hash := λ x, map (λ b, (b + 1) `mod` 256) x;
  ToBytes32 := pad32;
  DeepEqual := λ a b, bool_decide (a = b)
|}.

Definition FAR_FUTURE_EPOCH : Z := two64 - 1.

Definition zero32 : list Z := replicate 32 0.

(** A validator that has neither exited nor been penalized. *)
Definition fresh_validator (k : Z) : Validator.t :=
  Validator.mk [k] [] FAR_FUTURE_EPOCH FAR_FUTURE_EPOCH zero32 0.

(** Eight validators at addresses 1 to 8 behind the array at address 9;
    validator 2 was penalized at epoch 0. *)
Definition sample_heap : Heap :=
  mkHeap
    (list_to_map
       [(1%positive, fresh_validator 0); (2%positive, fresh_validator 1);
        (3%positive, set_PenalizedEpoch 0 (fresh_validator 2));
        (4%positive, fresh_validator 3); (5%positive, fresh_validator 4);
        (6%positive, fresh_validator 5); (7%positive, fresh_validator 6);
        (8%positive, fresh_validator 7)])
    {[ 9%positive := [1; 2; 3; 4; 5; 6; 7; 8]%positive ]}.

Definition sample_world : World := mkWorld sample_heap [].

Definition eth1_D : option Eth1Data.t := Some (Eth1Data.mk [1; 2] [3; 4]).
Definition eth1_E : option Eth1Data.t := Some (Eth1Data.mk [5] [6]).

Definition sample_state (slot : Z) : BeaconState.t :=
  BeaconState.mk slot
    [Eth1DataVote.mk eth1_E 2; Eth1DataVote.mk eth1_D 7]
    (Slice 9 8)
    [zero32; zero32; zero32; zero32]
    [CrosslinkRecord.mk []; CrosslinkRecord.mk zero32]
    [] 0 0.

Definition empty_body : BeaconBlockBody.t := BeaconBlockBody.mk [] [] [] [].

Definition block_with (body : BeaconBlockBody.t) : BeaconBlock.t :=
  BeaconBlock.mk zero32 eth1_D body.

(** A state whose only tally, for [eth1_D], holds the largest [uint64]. *)
Definition saturated_state : BeaconState.t :=
  BeaconState.mk 64 [Eth1DataVote.mk eth1_D (two64 - 1)] (Slice 9 8)
    [zero32; zero32; zero32; zero32] [CrosslinkRecord.mk []] [] 0 0.

(** An attestation for shard 0 that matches [sample_state] in everything
    but, possibly, its slot and its shard block root. *)
Definition sample_attestation (slot : Z) (shardBlockRoot : list Z)
  : Attestation.t :=
  Attestation.mk (AttestationData.mk slot 0 0 [] [] shardBlockRoot) [1] [0].

(** An attestation for shard 1, whose crosslink in [sample_state] is the
    32-byte zero hash, with that zero hash as its shard block root. *)
Definition zero_root_attestation : Attestation.t :=
  Attestation.mk (AttestationData.mk 96 1 0 [] zero32 zero32) [1] [0].

(** Scenario 2 of the specification: two proposals at slot 10, shard 3,
    with distinct block roots, signed by validator 7. *)
Definition double_proposal : ProposerSlashing.t :=
  ProposerSlashing.mk 7
    (ProposalSignedData.mk 10 3 (replicate 32 1))
    (ProposalSignedData.mk 10 3 (replicate 32 2)).

(** The same proposal twice. *)
Definition same_proposal : ProposerSlashing.t :=
  ProposerSlashing.mk 7
    (ProposalSignedData.mk 10 3 (replicate 32 1))
    (ProposalSignedData.mk 10 3 (replicate 32 1)).

Definition proposer_slashing_block (slashing : ProposerSlashing.t)
  : BeaconBlock.t :=
  block_with (BeaconBlockBody.mk [slashing] [] [] []).

(** A block with two proposer slashings, for validators 2 and 7, each
    the same proposal twice. *)
Definition two_slashings_block : BeaconBlock.t :=
  block_with
    (BeaconBlockBody.mk
       [ProposerSlashing.mk 2 (ProposalSignedData.mk 10 3 [1])
          (ProposalSignedData.mk 10 3 [1]);
        ProposerSlashing.mk 7 (ProposalSignedData.mk 11 3 [2])
          (ProposalSignedData.mk 11 3 [2])]
       [] [] []).

(** A block with the exit of validator 1. *)
Definition one_exit_block : BeaconBlock.t :=
  block_with (BeaconBlockBody.mk [] [] [] [Exit.mk 0 1]).

(** A reveal of 32 bytes. *)
Definition sample_reveal : list Z := replicate 16 170 ++ replicate 16 85.

(** A heap in which validator 0, the proposer of the sample
    collaborators, has committed to [sample_reveal] hashed twice. *)
Definition randao_heap : Heap :=
  mkHeap
    (<[1%positive :=
         Validator.mk [0] [] FAR_FUTURE_EPOCH FAR_FUTURE_EPOCH
           (replicate 16 172 ++ replicate 16 87) 2]>
       (validators sample_heap))
    (registries sample_heap).

Definition randao_world : World := mkWorld randao_heap [].

(** A state at slot 66 whose mix at index [66 mod 4 = 2] is not zero. *)
Definition randao_state : BeaconState.t :=
  BeaconState.mk 66 [] (Slice 9 8)
    [zero32; zero32; replicate 32 7; zero32]
    [CrosslinkRecord.mk []] [] 0 0.

Definition randao_block : BeaconBlock.t :=
  BeaconBlock.mk sample_reveal eth1_D empty_body.

(** ** Tactics *)

(** Case analysis on an innermost scrutinee of the goal. *)
Ltac case_scrutinee :=
  match goal with
  | |- context [match ?x with _ => _ end] =>
      lazymatch x with
      | context [match _ with _ => _ end] => fail
      | _ => destruct x eqn:?; simpl
      end
  end.

(** ** The rest of the package: definitions *)

(** The error of [VerifyProposerSignature]. *)
Inductive gate_error : Type :=
  | ReceivedNilBlock.

(** [VerifyProposerSignature]: the block is a pointer and may be nil;
    [None] is the nil error. *)
Definition VerifyProposerSignature (block : option BeaconBlock.t)
  : option gate_error :=
  match block with
  | None => Some ReceivedNilBlock
  | Some _ => None
  end.

Section FurtherNotions.
Context {env : Env}.

(** Validator [x] is read, through the registry of the state, as not yet
    penalized: the test of [attesterSlashableIndices]. A failed read
    counts as [false]. *)
Definition unpenalized (h : Heap) (s : BeaconState.t) (x : Z) : bool :=
  match registry_at h (BeaconState.ValidatorRegistry s) x with
  | Ok v => Validator.PenalizedEpoch v >? CurrentEpoch s
  | _ => false
  end.

(** The indices [PenalizeValidator] has been called on, in call order. *)
Definition penalized_calls (w : World) : list Z :=
  omap (λ c, match c with
             | CallPenalizeValidator i => Some i
             | CallInitiateValidatorExit _ => None
             end) (calls w).

(** A further assumption on [PenalizeValidator]: the validator it
    penalizes counts as slashed in the state it returns. *)
Definition penalize_marks_slashed : Prop :=
  ∀ h s j s' h', PenalizeValidator h s j = (Ok s', h') →
    already_slashed h' (BeaconState.ValidatorRegistry s') (CurrentEpoch s') j.

(** Every validator penalized so far counts as slashed, and none was
    penalized twice. *)
Definition penalties_consistent (w : World) (s : BeaconState.t) : Prop :=
  NoDup (penalized_calls w) ∧
  ∀ j, j ∈ penalized_calls w →
       already_slashed (heap w) (BeaconState.ValidatorRegistry s)
         (CurrentEpoch s) j.

(** The outcome of a stage: no index twice among the penalized, and a
    consistent log with the state it returns. *)
Definition penalized_once (r : Res BeaconState.t) (w' : World) : Prop :=
  NoDup (penalized_calls w') ∧
  ∀ s', r = Ok s' → penalties_consistent w' s'.

(** The count of the first tally for the data [d], 0 when there is
    none. *)
Fixpoint tally_of (d : option Eth1Data.t) (votes : list Eth1DataVote.t) : Z :=
  match votes with
  | [] => 0
  | v :: rest =>
      if proto_Equal (Eth1DataVote.Eth1Data v) d
      then Eth1DataVote.VoteCount v
      else tally_of d rest
  end.

(** The data the tallies of a state are for. *)
Definition tallied (s : BeaconState.t) : list (option Eth1Data.t) :=
  map Eth1DataVote.Eth1Data (BeaconState.Eth1DataVotes s).

(** The block with the attestations [atts] and nothing else. *)
Definition attestations_block (atts : list Attestation.t) : BeaconBlock.t :=
  BeaconBlock.mk [] None (BeaconBlockBody.mk [] [] atts []).

End FurtherNotions.

(** A reveal of 33 bytes whose first 32 bytes are [sample_reveal]. *)
Definition long_reveal : list Z := sample_reveal ++ [1].

Definition long_reveal_block : BeaconBlock.t :=
  BeaconBlock.mk long_reveal eth1_D empty_body.

(** A reveal of two bytes; padded with zeros and hashed twice it is the
    commitment of the proposer in [short_reveal_heap]. *)
Definition short_reveal_block : BeaconBlock.t :=
  BeaconBlock.mk [170; 85] eth1_D empty_body.

Definition short_reveal_heap : Heap :=
  mkHeap
    (<[1%positive :=
         Validator.mk [0] [] FAR_FUTURE_EPOCH FAR_FUTURE_EPOCH
           ([172; 87] ++ replicate 30 2) 2]>
       (validators sample_heap))
    (registries sample_heap).

(** One step along the path of a run recorded in [H]: case analysis on
    the scrutinee that is evaluated first. *)
Ltac first_scrutinee t :=
  lazymatch t with
  | match ?x with _ => _ end =>
      lazymatch x with
      | match _ with _ => _ end => first_scrutinee x
      | _ => x
      end
  end.

Ltac step_in H :=
  lazymatch type of H with
  | ?lhs = _ =>
      let x := first_scrutinee lhs in
      destruct x eqn:?; simpl in H
  end.

(** Two slashable attestations of the sample validators 1, 2 and 5 and
    2, 5 and 6: a surround vote of the first around the second. *)
Definition surrounding_attestation : SlashableAttestation.t :=
  SlashableAttestation.mk [1; 2; 5] [1]
    (AttestationData.mk 640 0 2 [] [] []).

Definition surrounded_attestation : SlashableAttestation.t :=
  SlashableAttestation.mk [2; 5; 6] [1]
    (AttestationData.mk 512 0 4 [] [] []).

Definition surround_slashing : AttesterSlashing.t :=
  AttesterSlashing.mk surrounding_attestation surrounded_attestation.

(** A block whose proposer slashings name validators 2 and 7 and whose
    attester slashing has the validators 5 and 7 in common. *)
Definition mixed_slashings_block : BeaconBlock.t :=
  block_with
    (BeaconBlockBody.mk
       [ProposerSlashing.mk 2 (ProposalSignedData.mk 10 3 [1])
          (ProposalSignedData.mk 10 3 [1]);
        ProposerSlashing.mk 7 (ProposalSignedData.mk 11 3 [2])
          (ProposalSignedData.mk 11 3 [2])]
       [AttesterSlashing.mk
          (SlashableAttestation.mk [2; 5; 7] [1]
             (AttestationData.mk 640 0 2 [] [] []))
          (SlashableAttestation.mk [5; 7] [1]
             (AttestationData.mk 512 0 4 [] [] []))]
       [] []).

(** A block with the exits of validators 1, 2 and 4; the second is for
    an epoch that has not come. *)
Definition three_exits_block : BeaconBlock.t :=
  block_with
    (BeaconBlockBody.mk [] [] [] [Exit.mk 0 1; Exit.mk 9 2; Exit.mk 0 4]).

(** ** ProcessValidatorDeposits

    The deposit stage reads three things that the records above do not
    carry, because no other stage reads them: the list
    [block.Body.Deposits], the field [latest_eth1_data] of the state and
    the limits [MaxDeposits] and [DepositContractTreeDepth]. The list is
    an argument of its own, the field travels beside the state in
    [DepositState.t] and the limits are fields of [DepositEnv]. Its
    errors and results have types of their own as well. *)

Module DepositInput.
Record t := mk {
  Pubkey : list Z;
  ProofOfPossession : list Z;
  WithdrawalCredentialsHash32 : list Z
}.
End DepositInput.

Module Deposit.
(** [DepositData] is resliced by the code ([depositData[:8]]), and a
    reslice may reach past the length of a slice up to its capacity: the
    slice is the first [DepositDataLen] bytes of the backing array
    [DepositDataArray], whose length is the capacity. *)
Record t := mk {
  MerkleBranchHash32S : list (list Z);
  MerkleTreeIndex : Z;
  DepositDataArray : list Z;
  DepositDataLen : nat
}.

Definition DepositData (d : t) : list Z :=
  take (DepositDataLen d) (DepositDataArray d).
End Deposit.

Module DepositState.
(** [LatestEth1Data] is a pointer and may be nil. *)
Record t := mk {
  State : BeaconState.t;
  LatestEth1Data : option Eth1Data.t
}.
End DepositState.

Inductive deposit_error : Type :=
  | TooManyDeposits
  | DecodeDepositFailed (cause : error)
  | DepositInvalid (idx : nat) (cause : deposit_error)
  | MerkleBranchInvalid
  | ProcessDepositFailed (cause : error).

Inductive DRes (A : Type) : Type :=
  | DOk (a : A)
  | DErr (e : deposit_error)
  | DPanic.
Arguments DOk {A} a.
Arguments DErr {A} e.
Arguments DPanic {A}.

(** One call to [validators.ProcessDeposit]: the arguments after the
    state and the index map. *)
Record deposit_call := DepositCall {
  dc_pubkey : list Z;
  dc_amount : Z;
  dc_proof_of_possession : list Z;
  dc_withdrawal_credentials : list Z
}.

(** What the deposit stage works on beside the state: the heap, the map
    from public keys to validator indices, which is built once and
    shared by every call, and (ghost) the calls made so far. *)
Record deposit_world := mkDepositWorld {
  d_heap : Heap;
  d_index : gmap (list Z) Z;
  d_calls : list deposit_call
}.

(** The collaborators of the deposit stage:
    [stateutils.ValidatorIndexMap], [blocks.DecodeDepositInput] (its
    file is not among the sources), [trieutil.VerifyMerkleBranch] and
    [validators.ProcessDeposit], which returns a state and may write the
    heap and the shared map. *)
Class DepositEnv := mkDepositEnv {
  MaxDeposits : Z;
  DepositContractTreeDepth : Z;
  ValidatorIndexMap : Heap → DepositState.t → gmap (list Z) Z;
  DecodeDepositInput : list Z → Res DepositInput.t;
  VerifyMerkleBranch :
    list Z → list (list Z) → Z → Z → list Z → bool;
  ProcessDeposit :
    Heap → gmap (list Z) Z → DepositState.t → deposit_call →
    Res DepositState.t * Heap * gmap (list Z) Z
}.

(** [binary.BigEndian.Uint64]: eight bytes, the first the most
    significant; fewer than eight is a panic ([None]). *)
Definition BigEndian_Uint64 (b : list Z) : option Z :=
  match b with
  | b0 :: b1 :: b2 :: b3 :: b4 :: b5 :: b6 :: b7 :: _ =>
      Some (Z.lor b7
           (Z.lor (Z.shiftl b6 8)
           (Z.lor (Z.shiftl b5 16)
           (Z.lor (Z.shiftl b4 24)
           (Z.lor (Z.shiftl b3 32)
           (Z.lor (Z.shiftl b2 40)
           (Z.lor (Z.shiftl b1 48) (Z.shiftl b0 56))))))))
  | _ => None
  end.

(** [depositData[:8]]: the first eight bytes of the backing array; a
    capacity below eight is a panic ([None]). *)
Definition first_eight (deposit : Deposit.t) : option (list Z) :=
  if bool_decide (8 ≤ length (Deposit.DepositDataArray deposit))%nat
  then Some (take 8 (Deposit.DepositDataArray deposit))
  else None.

Section Deposits.
Context {env : Env} {denv : DepositEnv}.

Definition verifyDeposit (beaconState : DepositState.t) (deposit : Deposit.t)
  : DRes unit :=
  match DepositState.LatestEth1Data beaconState with
  | None => DPanic
  | Some latestEth1Data =>
      let receiptRoot := ToBytes32 (Eth1Data.DepositRootHash32 latestEth1Data) in
      if VerifyMerkleBranch
           (Hash (Deposit.DepositData deposit))
           (Deposit.MerkleBranchHash32S deposit)
           DepositContractTreeDepth
           (Deposit.MerkleTreeIndex deposit)
           receiptRoot
      then DOk tt
      else DErr MerkleBranchInvalid
  end.

(** The arguments of the call for a deposit that has been decoded. *)
Definition call_of (depositInput : DepositInput.t) (amount : Z)
  : deposit_call :=
  DepositCall (DepositInput.Pubkey depositInput) amount
    (DepositInput.ProofOfPossession depositInput)
    (DepositInput.WithdrawalCredentialsHash32 depositInput).

(** The loop [for idx, deposit := range deposits], from entry [idx] on. *)
Fixpoint deposits_loop (idx : nat) (deposits : list Deposit.t)
    (beaconState : DepositState.t) (w : deposit_world)
  : DRes DepositState.t * deposit_world :=
  match deposits with
  | [] => (DOk beaconState, w)
  | deposit :: rest =>
      match DecodeDepositInput (Deposit.DepositData deposit) with
      | Err e => (DErr (DecodeDepositFailed e), w)
      | Panic => (DPanic, w)
      | Ok depositInput =>
          match verifyDeposit beaconState deposit with
          | DErr e => (DErr (DepositInvalid idx e), w)
          | DPanic => (DPanic, w)
          | DOk _ =>
              match first_eight deposit ≫= BigEndian_Uint64 with
              | None => (DPanic, w)
              | Some amount =>
                  let c := call_of depositInput amount in
                  let '(r, h, index) :=
                    ProcessDeposit (d_heap w) (d_index w) beaconState c in
                  let w' := mkDepositWorld h index (d_calls w ++ [c]) in
                  match r with
                  | Ok beaconState' =>
                      deposits_loop (S idx) rest beaconState' w'
                  | Err e => (DErr (ProcessDepositFailed e), w')
                  | Panic => (DPanic, w')
                  end
              end
          end
      end
  end.

(** [ProcessValidatorDeposits], on the heap [h]; [deposits] is
    [block.Body.Deposits], whose entries are not nil. The index map is
    built after the check of the limit and before the loop; where the
    limit fails none has been built, and the world returned holds the
    empty one. *)
Definition ProcessValidatorDeposits (h : Heap) (beaconState : DepositState.t)
    (deposits : list Deposit.t) : DRes DepositState.t * deposit_world :=
  if Z.of_nat (length deposits) >? MaxDeposits
  then (DErr TooManyDeposits, mkDepositWorld h ∅ [])
  else deposits_loop 0 deposits beaconState
         (mkDepositWorld h (ValidatorIndexMap h beaconState) []).

End Deposits.

(** *** Notions and sample data of the deposit stage *)

Section DepositNotions.
Context {env : Env} {denv : DepositEnv}.

(** [c] is the call the stage makes for [deposit]: the decoded input
    and the number held by the first eight bytes of the data. *)
Definition deposit_call_of (deposit : Deposit.t) (c : deposit_call) : Prop :=
  ∃ depositInput amount,
    DecodeDepositInput (Deposit.DepositData deposit) = Ok depositInput ∧
    first_eight deposit ≫= BigEndian_Uint64 = Some amount ∧
    c = call_of depositInput amount.

End DepositNotions.



(** Test doubles: a decoder that wants sixteen bytes and takes the rest
    for the public key, a Merkle check that wants the branch to consist
    of the leaf and the root, and a [ProcessDeposit] that records the
    amount under the public key in the shared map. *)
Definition sample_denv : DepositEnv := {|
  MaxDeposits := 2;
  DepositContractTreeDepth := 32;
  ValidatorIndexMap := λ _ _, ∅;
  DecodeDepositInput := λ data,
    if bool_decide (length data < 16)%nat then Err (ExternalError 1)
    else Ok (DepositInput.mk (drop 16 data) [] []);
  VerifyMerkleBranch := λ leaf branch _ _ root,
    bool_decide (branch = [leaf; root]);
  ProcessDeposit := λ h index s c,
    (Ok s, h, <[dc_pubkey c := dc_amount c]> index)
|}.

Definition sample_deposit_data : list Z :=
  [0; 0; 0; 0; 0; 0; 1; 2; 0; 0; 0; 0; 0; 0; 0; 9; 7; 7].

Definition sample_deposit : Deposit.t :=
  Deposit.mk [[1; 1; 1; 1; 1; 1; 2; 3; 1; 1; 1; 1; 1; 1; 1; 10; 8; 8];
              pad32 [1; 2]]
    0 sample_deposit_data 18.

(** The same data under a branch that does not verify. *)
Definition unproved_deposit : Deposit.t :=
  Deposit.mk [] 1 sample_deposit_data 18.

Definition deposit_state : DepositState.t :=
  DepositState.mk (sample_state 64) eth1_D.

(** * Properties *)

(** ** Generic facts *)

Lemma wrap64_small (x : Z) : 0 <= x < two64 → wrap64 x = x.
Proof. intros Hx. unfold wrap64. apply Z.mod_small. exact Hx. Qed.

Lemma bytes_Equal_true (a b : list Z) : bytes_Equal a b = true ↔ a = b.
Proof. unfold bytes_Equal. apply bool_decide_eq_true. Qed.

(** ** ProcessEth1Data *)

Section Eth1.

Lemma sum_votes_app (l1 l2 : list Eth1DataVote.t) :
  sum_votes (l1 ++ l2) = sum_votes l1 + sum_votes l2.
Proof.
  induction l1 as [|v l1 IH]; simpl; [lia|].
  fold (sum_votes (l1 ++ l2)). fold (sum_votes l1). lia.
Qed.

(** What the scan of the tallies leaves: the first tally for the data
    incremented, or the list untouched and the flag down. *)
Lemma eth1_votes_loop_spec (votes : list Eth1DataVote.t) (d : option Eth1Data.t) :
  match eth1_votes_loop votes d with
  | (votes', true) =>
      ∃ pre v post,
        votes = pre ++ v :: post ∧
        Forall (λ u, ¬ votes_for d u) pre ∧
        votes_for d v ∧
        votes' = pre ++ Eth1DataVote.mk (Eth1DataVote.Eth1Data v)
                          (wrap64 (Eth1DataVote.VoteCount v + 1)) :: post
  | (votes', false) =>
      votes' = votes ∧ Forall (λ u, ¬ votes_for d u) votes
  end.
Proof.
  induction votes as [|v rest IH]; simpl.
  - split; [reflexivity | constructor].
  - destruct (proto_Equal (Eth1DataVote.Eth1Data v) d) eqn:Hv.
    + exists [], v, rest. repeat split; try constructor. exact Hv.
    + destruct (eth1_votes_loop rest d) as [rest' [|]].
      * destruct IH as (pre & u & post & -> & Hpre & Hu & ->).
        exists (v :: pre), u, post. repeat split; try assumption.
        constructor; [|exact Hpre]. unfold votes_for. rewrite Hv. discriminate.
      * destruct IH as [-> Hall]. split; [reflexivity|].
        constructor; [|exact Hall]. unfold votes_for. rewrite Hv. discriminate.
Qed.

(** C6, as amended. [ProcessEth1Data] is a total function that changes
    nothing but the tallies. Either it increments, as a 64-bit counter,
    the count of one tally, the first whose data equals the block's, and
    leaves every other tally and the order as they were; or no tally
    matches and it appends one tally with count 1. The sum of the counts
    grows by exactly one, provided the count that is incremented was
    below 2^64 - 1. *)
Theorem ProcessEth1Data_tally (s : BeaconState.t) (b : BeaconBlock.t) :
  let d := BeaconBlock.Eth1Data b in
  let votes := BeaconState.Eth1DataVotes s in
  let votes' := BeaconState.Eth1DataVotes (ProcessEth1Data s b) in
  ProcessEth1Data s b = BeaconState.set_Eth1DataVotes s votes' ∧
  ((∃ pre v post,
      votes = pre ++ v :: post ∧
      Forall (λ u, ¬ votes_for d u) pre ∧
      votes_for d v ∧
      votes' = pre ++ Eth1DataVote.mk (Eth1DataVote.Eth1Data v)
                        (wrap64 (Eth1DataVote.VoteCount v + 1)) :: post ∧
      (0 <= Eth1DataVote.VoteCount v < two64 - 1 →
       wrap64 (Eth1DataVote.VoteCount v + 1) = Eth1DataVote.VoteCount v + 1 ∧
       sum_votes votes' = sum_votes votes + 1))
   ∨ (Forall (λ u, ¬ votes_for d u) votes ∧
      votes' = votes ++ [Eth1DataVote.mk d 1] ∧
      sum_votes votes' = sum_votes votes + 1)).
Proof.
  intros d votes votes'. subst d votes votes'.
  unfold ProcessEth1Data.
  pose proof (eth1_votes_loop_spec (BeaconState.Eth1DataVotes s)
                (BeaconBlock.Eth1Data b)) as Hloop.
  destruct (eth1_votes_loop (BeaconState.Eth1DataVotes s)
              (BeaconBlock.Eth1Data b)) as [votes' [|]]; simpl.
  - destruct Hloop as (pre & v & post & Hsplit & Hpre & Hv & ->).
    split; [reflexivity|].
    left. exists pre, v, post. repeat split; try assumption.
    + apply wrap64_small. lia.
    + rewrite wrap64_small by lia.
      rewrite Hsplit, !sum_votes_app. simpl. fold (sum_votes post). lia.
  - destruct Hloop as [-> Hall].
    split; [reflexivity|].
    right. repeat split; try assumption.
    rewrite sum_votes_app. simpl. lia.
Qed.

(** The theorem at a state whose second tally is for the block's data. *)
Lemma ProcessEth1Data_tally_witness :
  BeaconState.Eth1DataVotes
    (ProcessEth1Data (sample_state 64) (block_with empty_body))
  = [Eth1DataVote.mk eth1_E 2; Eth1DataVote.mk eth1_D 8] ∧
  sum_votes (BeaconState.Eth1DataVotes
               (ProcessEth1Data (sample_state 64) (block_with empty_body)))
  = sum_votes (BeaconState.Eth1DataVotes (sample_state 64)) + 1.
Proof.
  split; [reflexivity|].
  destruct (ProcessEth1Data_tally (sample_state 64) (block_with empty_body))
    as [_ [(pre & v & post & Hsplit & _ & Hv & _ & Hsum) | (Hnone & _)]].
  - apply Hsum.
    assert (Hpost : Forall (λ u, 0 <= Eth1DataVote.VoteCount u < two64 - 1)
                      (BeaconState.Eth1DataVotes (sample_state 64))).
    { repeat constructor; vm_compute; congruence. }
    rewrite Hsplit in Hpost.
    apply Forall_app in Hpost as [_ Hpost].
    by apply Forall_cons in Hpost as [Hpost _].
  - exfalso. apply Forall_cons in Hnone as [_ Hnone].
    apply Forall_cons in Hnone as [Hnone _].
    apply Hnone. reflexivity.
Defined.

(** C6 as stated fails at a saturated counter: the increment wraps to 0
    and the sum of the counts drops instead of growing by one. *)
Lemma ProcessEth1Data_sum_wraps :
  BeaconState.Eth1DataVotes
    (ProcessEth1Data saturated_state (block_with empty_body))
  = [Eth1DataVote.mk eth1_D 0] ∧
  sum_votes (BeaconState.Eth1DataVotes
               (ProcessEth1Data saturated_state (block_with empty_body)))
  ≠ sum_votes (BeaconState.Eth1DataVotes saturated_state) + 1.
Proof. split; [reflexivity | vm_compute; discriminate]. Qed.

End Eth1.

(** ** ProcessBlockAttestations *)

Section Attestations.
Context {env : Env}.

Lemma wrap_check_OK (f : error → error) (r : Res unit) :
  wrap_check f r = OK ↔ r = OK.
Proof. destruct r as [[]| |]; simpl; split; congruence. Qed.

(** The checks of [verifyAttestation] that follow the inclusion window
    never end in a window error. *)
Lemma verifyAttestation_window_cases (s : BeaconState.t) (att : Attestation.t)
    (vs : bool) :
  let slot := AttestationData.Slot (Attestation.Data att) in
  (wrap64 (slot + MinAttestationInclusionDelay BeaconConfig)
     > BeaconState.Slot s ∧
   verifyAttestation s att vs = Err AttestationTooRecent) ∨
  (wrap64 (slot + MinAttestationInclusionDelay BeaconConfig)
     <= BeaconState.Slot s ∧
   wrap64 (slot + EpochLength BeaconConfig) < BeaconState.Slot s ∧
   verifyAttestation s att vs = Err AttestationTooStale) ∨
  (wrap64 (slot + MinAttestationInclusionDelay BeaconConfig)
     <= BeaconState.Slot s ∧
   wrap64 (slot + EpochLength BeaconConfig) >= BeaconState.Slot s ∧
   window_failure (verifyAttestation s att vs) = false).
Proof.
  intros slot. subst slot. unfold verifyAttestation.
  destruct (Z.gtb_spec
              (wrap64 (AttestationData.Slot (Attestation.Data att)
                       + MinAttestationInclusionDelay BeaconConfig))
              (BeaconState.Slot s)) as [Hrecent|Hrecent].
  { left. split; [lia | reflexivity]. }
  destruct (Z.ltb_spec
              (wrap64 (AttestationData.Slot (Attestation.Data att)
                       + EpochLength BeaconConfig))
              (BeaconState.Slot s)) as [Hstale|Hstale].
  { right. left. repeat split; [lia | lia]. }
  right. right. split; [lia|]. split; [lia|].
  unfold mbind, Res_bind.
  repeat case_scrutinee; reflexivity.
Qed.

(** C4, as amended. [verifyAttestation] ends in a window error exactly
    when the attestation is too recent or too stale, where the two sums
    are the 64-bit sums the code computes (reduced modulo 2^64). *)
Theorem verifyAttestation_window (s : BeaconState.t) (att : Attestation.t)
    (vs : bool) :
  window_failure (verifyAttestation s att vs) = true ↔
  wrap64 (AttestationData.Slot (Attestation.Data att)
          + MinAttestationInclusionDelay BeaconConfig) > BeaconState.Slot s ∨
  wrap64 (AttestationData.Slot (Attestation.Data att)
          + EpochLength BeaconConfig) < BeaconState.Slot s.
Proof.
  destruct (verifyAttestation_window_cases s att vs)
    as [[H1 ->] | [(H1 & H2 & ->) | (H1 & H2 & H3)]]; simpl.
  - split; [intros _; left; exact H1 | reflexivity].
  - split; [intros _; right; exact H2 | reflexivity].
  - rewrite H3. split; [discriminate | intros [?|?]; lia].
Qed.

(** Where neither sum leaves the 64-bit range the condition is the one
    over the unbounded sums. *)
Lemma verifyAttestation_window_no_overflow (s : BeaconState.t)
    (att : Attestation.t) (vs : bool) :
  let slot := AttestationData.Slot (Attestation.Data att) in
  0 <= slot + MinAttestationInclusionDelay BeaconConfig < two64 →
  0 <= slot + EpochLength BeaconConfig < two64 →
  window_failure (verifyAttestation s att vs) = true ↔
  slot + MinAttestationInclusionDelay BeaconConfig > BeaconState.Slot s ∨
  slot + EpochLength BeaconConfig < BeaconState.Slot s.
Proof.
  intros slot Hd He. subst slot.
  destruct (verifyAttestation_window_cases s att vs)
    as [[H1 ->] | [(H1 & H2 & ->) | (H1 & H2 & H3)]]; simpl;
    rewrite !wrap64_small in * by assumption.
  - split; [intros _; left; exact H1 | reflexivity].
  - split; [intros _; right; exact H2 | reflexivity].
  - rewrite H3. split; [discriminate | intros [?|?]; lia].
Qed.

(** The loop appends one record per attestation, in order. *)
Lemma attestations_loop_ok (s : BeaconState.t) (vs : bool)
    (atts : list Attestation.t) :
  Forall (λ a, verifyAttestation s a vs = OK) atts →
  ∀ idx pending,
    attestations_loop s vs idx atts pending
    = Ok (pending ++ map (pending_of s) atts).
Proof.
  induction 1 as [|a atts Ha _ IH]; intros idx pending; simpl.
  - by rewrite app_nil_r.
  - rewrite Ha. simpl. rewrite IH, <- app_assoc. reflexivity.
Qed.

(** A loop that succeeds has verified every attestation. *)
Lemma attestations_loop_inv (s : BeaconState.t) (vs : bool)
    (atts : list Attestation.t) :
  ∀ idx pending result,
    attestations_loop s vs idx atts pending = Ok result →
    Forall (λ a, verifyAttestation s a vs = OK) atts.
Proof.
  induction atts as [|a atts IH]; intros idx pending result Hrun.
  - constructor.
  - simpl in Hrun. unfold mbind, Res_bind in Hrun.
    destruct (wrap_check (AttestationInvalid idx) (verifyAttestation s a vs))
      as [[]| |] eqn:Hcheck; try discriminate.
    apply wrap_check_OK in Hcheck. constructor; [exact Hcheck|].
    exact (IH _ _ _ Hrun).
Qed.

(** Whenever the stage succeeds the new list is the image of the block's
    attestations. *)
Lemma ProcessBlockAttestations_success (s s' : BeaconState.t)
    (b : BeaconBlock.t) (vs : bool) :
  ProcessBlockAttestations s b vs = Ok s' →
  BeaconState.LatestAttestations s'
  = map (pending_of s) (BeaconBlockBody.Attestations (BeaconBlock.Body b)).
Proof.
  unfold ProcessBlockAttestations.
  destruct (Z.of_nat _ >? _); [discriminate|].
  unfold mbind, Res_bind.
  destruct (attestations_loop s vs 0 _ []) as [pending| |] eqn:Hloop;
    try discriminate.
  intros [= <-]. simpl.
  pose proof (attestations_loop_inv _ _ _ _ _ _ Hloop) as Hall.
  rewrite (attestations_loop_ok s vs _ Hall) in Hloop.
  by injection Hloop as <-.
Qed.

(** C5. When the attestations are within the limit and all verify,
    [ProcessBlockAttestations] succeeds and the state it returns differs
    from the input only in [latest_attestations], which holds exactly one
    record per block attestation, in the order of the block, each with
    the attestation's data and two bitfields and the slot of the state;
    the earlier content is gone and the two lists have the same length.
    [ProcessBlockAttestations_success] gives the same list for every run
    that succeeds. *)
Theorem ProcessBlockAttestations_replaces (s : BeaconState.t)
    (b : BeaconBlock.t) (vs : bool) :
  let atts := BeaconBlockBody.Attestations (BeaconBlock.Body b) in
  Z.of_nat (length atts) <= MaxAttestations BeaconConfig →
  Forall (λ a, verifyAttestation s a vs = OK) atts →
  ∃ s',
    ProcessBlockAttestations s b vs = Ok s' ∧
    s' = BeaconState.set_LatestAttestations s (BeaconState.LatestAttestations s') ∧
    length (BeaconState.LatestAttestations s') = length atts ∧
    ∀ (i : nat) (a : Attestation.t),
      atts !! i = Some a →
      BeaconState.LatestAttestations s' !! i
      = Some (PendingAttestationRecord.mk
                (Attestation.Data a) (Attestation.AggregationBitfield a)
                (Attestation.CustodyBitfield a) (BeaconState.Slot s)).
Proof.
  intros atts Hmax Hall. subst atts.
  exists (BeaconState.set_LatestAttestations s
            (map (pending_of s)
                 (BeaconBlockBody.Attestations (BeaconBlock.Body b)))).
  unfold ProcessBlockAttestations.
  destruct (Z.gtb_spec
              (Z.of_nat (length (BeaconBlockBody.Attestations (BeaconBlock.Body b))))
              (MaxAttestations BeaconConfig)); [lia|].
  rewrite (attestations_loop_ok s vs _ Hall). simpl.
  repeat split.
  - apply length_map.
  - intros i a Hi. rewrite list_lookup_fmap, Hi. reflexivity.
Qed.

(** An attestation whose shard block root is not the empty slice never
    passes [verifyAttestation]. *)
Lemma verifyAttestation_OK_root (s : BeaconState.t) (att : Attestation.t)
    (vs : bool) :
  verifyAttestation s att vs = OK →
  AttestationData.ShardBlockRootHash32 (Attestation.Data att) = [].
Proof.
  unfold verifyAttestation, mbind, Res_bind.
  destruct (bytes_Equal
              (AttestationData.ShardBlockRootHash32 (Attestation.Data att)) [])
    eqn:Hroot.
  { intros _. by apply bytes_Equal_true. }
  simpl.
  repeat case_scrutinee; discriminate.
Qed.

End Attestations.

(** The inclusion-window scenario of the specification: at state slot
    100, with a delay of 4 and epochs of 64 slots, slot 96 passes the
    window, slot 97 is too recent and slot 35 too stale. *)
Example inclusion_window_scenario :
  verifyAttestation (env := sample_env) (sample_state 100)
    (sample_attestation 96 []) false = OK ∧
  verifyAttestation (env := sample_env) (sample_state 100)
    (sample_attestation 97 []) false = Err AttestationTooRecent ∧
  verifyAttestation (env := sample_env) (sample_state 100)
    (sample_attestation 35 []) false = Err AttestationTooStale.
Proof. repeat split; vm_compute; reflexivity. Qed.

(** C4 as stated fails where a sum leaves the 64-bit range: at state slot
    30 an attestation for slot 2^64 - 4 has [slot + 4 > 30], yet the code
    computes [slot + 4 = 0] and [slot + 64 = 60] and reports no window
    error (the attestation is even accepted). *)
Lemma verifyAttestation_window_wraps :
  let s := sample_state 30 in
  let att := sample_attestation (two64 - 4) [] in
  let slot := AttestationData.Slot (Attestation.Data att) in
  verifyAttestation (env := sample_env) s att false = OK ∧
  ¬ (window_failure (verifyAttestation (env := sample_env) s att false) = true ↔
     slot + MinAttestationInclusionDelay (BeaconConfig (Env := sample_env))
       > BeaconState.Slot s ∨
     slot + EpochLength (BeaconConfig (Env := sample_env))
       < BeaconState.Slot s).
Proof.
  split; [vm_compute; reflexivity|].
  intros [_ Hback].
  assert (Hfail : window_failure
            (verifyAttestation (env := sample_env) (sample_state 30)
               (sample_attestation (two64 - 4) []) false) = true).
  { apply Hback. left. vm_compute. reflexivity. }
  vm_compute in Hfail. discriminate.
Qed.

(** C5 at a block of two attestations. *)
Lemma ProcessBlockAttestations_replaces_witness :
  ∃ s',
    ProcessBlockAttestations (env := sample_env) (sample_state 100)
      (block_with (BeaconBlockBody.mk [] []
                     [sample_attestation 96 []; sample_attestation 90 []] []))
      false = Ok s' ∧
    length (BeaconState.LatestAttestations s') = 2%nat.
Proof.
  destruct (ProcessBlockAttestations_replaces (env := sample_env)
              (sample_state 100)
              (block_with (BeaconBlockBody.mk [] []
                 [sample_attestation 96 []; sample_attestation 90 []] []))
              false) as (s' & Hrun & _ & Hlen & _).
  - vm_compute. discriminate.
  - repeat constructor.
  - exists s'. split; [exact Hrun | exact Hlen].
Defined.

(** C3 on the code. No attestation whose shard block root is the 32-byte
    zero hash passes [verifyAttestation], whatever the state; in the
    sample state such an attestation, right in every other respect, ends
    in the phase-0 error, and only the empty slice is let through. *)
Theorem verifyAttestation_rejects_zero_hash :
  (∀ (env : Env) s d agg cust vs,
     verifyAttestation (env := env) s
       (Attestation.mk (AttestationData.set_ShardBlockRootHash32 d zero32)
          agg cust) vs ≠ OK) ∧
  verifyAttestation (env := sample_env) (sample_state 100)
    zero_root_attestation false = Err ShardBlockRootNotZero ∧
  verifyAttestation (env := sample_env) (sample_state 100)
    (sample_attestation 96 zero32) false = Err ShardBlockRootNotZero ∧
  verifyAttestation (env := sample_env) (sample_state 100)
    (sample_attestation 96 []) false = OK.
Proof.
  split.
  - intros env s d agg cust vs Hok.
    apply verifyAttestation_OK_root in Hok. simpl in Hok. discriminate.
  - repeat split; vm_compute; reflexivity.
Qed.

(** ** Verification of slashings *)

Section SlashingChecks.
Context {env : Env}.

Lemma verifyProposerSlashing_OK (slashing : ProposerSlashing.t) (vs : bool) :
  verifyProposerSlashing slashing vs = OK ↔
  ProposalSignedData.Slot (ProposerSlashing.ProposalData_1 slashing)
  = ProposalSignedData.Slot (ProposerSlashing.ProposalData_2 slashing) ∧
  ProposalSignedData.Shard (ProposerSlashing.ProposalData_1 slashing)
  = ProposalSignedData.Shard (ProposerSlashing.ProposalData_2 slashing) ∧
  ProposalSignedData.BlockRootHash32 (ProposerSlashing.ProposalData_1 slashing)
  = ProposalSignedData.BlockRootHash32 (ProposerSlashing.ProposalData_2 slashing).
Proof.
  unfold verifyProposerSlashing, bytes_Equal.
  repeat case_bool_decide; simpl; destruct vs; split;
    try discriminate; try tauto; intros (? & ? & ?); congruence.
Qed.

(** A slashing with two different block roots, and matching slots and
    shards, is turned down. *)
Lemma verifyProposerSlashing_distinct_roots (slashing : ProposerSlashing.t)
    (vs : bool) :
  ProposalSignedData.Slot (ProposerSlashing.ProposalData_1 slashing)
  = ProposalSignedData.Slot (ProposerSlashing.ProposalData_2 slashing) →
  ProposalSignedData.Shard (ProposerSlashing.ProposalData_1 slashing)
  = ProposalSignedData.Shard (ProposerSlashing.ProposalData_2 slashing) →
  ProposalSignedData.BlockRootHash32 (ProposerSlashing.ProposalData_1 slashing)
  ≠ ProposalSignedData.BlockRootHash32 (ProposerSlashing.ProposalData_2 slashing) →
  verifyProposerSlashing slashing vs = Err BlockRootsMismatch.
Proof.
  intros Hslot Hshard Hroot. unfold verifyProposerSlashing, bytes_Equal.
  repeat case_bool_decide; simpl; congruence.
Qed.

Lemma strictly_ascending_cons (a b : Z) (rest : list Z) :
  strictly_ascending (a :: b :: rest) ↔ a < b ∧ strictly_ascending (b :: rest).
Proof.
  unfold strictly_ascending. split.
  - intros H. split.
    + apply (H 0%nat); reflexivity.
    + intros i x y Hx Hy. apply (H (S i)); assumption.
  - intros [Hab H] [|i] x y Hx Hy; simpl in *.
    + congruence.
    + apply (H i); assumption.
Qed.

(** The loop over the indices runs to its end exactly on the strictly
    ascending lists. *)
Lemma indices_loop_spec (indices : list Z) :
  indices_loop indices = true ↔ strictly_ascending indices.
Proof.
  induction indices as [|a [|b rest] IH].
  - split; [|reflexivity]. intros _ i a b Hi. destruct i; discriminate.
  - split; [|reflexivity]. intros _ [|i] x y Hx Hy; simpl in *;
      [discriminate | destruct i; discriminate].
  - rewrite strictly_ascending_cons. cbn [indices_loop].
    destruct (Z.geb_spec a b) as [Hge|Hlt].
    + split; [discriminate | lia].
    + rewrite IH. split; [intros H; split; [lia | exact H] | tauto].
Qed.

Lemma all_zero_replicate (l : list Z) :
  l = replicate (length l) 0 ↔ Forall (λ x, x = 0) l.
Proof.
  induction l as [|x l IH]; simpl.
  - split; [constructor | reflexivity].
  - split.
    + intros [= -> Hl]. constructor; [reflexivity | by apply IH].
    + intros Hall. apply Forall_cons in Hall as [-> Hall].
      f_equal. by apply IH.
Qed.

(** Where the loop over the indices returns the error, it has met a
    pair that is a tie or out of order. *)
Lemma indices_loop_false (indices : list Z) :
  indices_loop indices = false →
  ∃ (i : nat) (a b : Z),
    indices !! i = Some a ∧ indices !! S i = Some b ∧ a >= b.
Proof.
  induction indices as [|a [|b rest] IH]; try discriminate.
  cbn [indices_loop]. destruct (Z.geb_spec a b) as [Hge|Hlt].
  - intros _. exists 0%nat, a, b. repeat split. lia.
  - intros Hrest. destruct (IH Hrest) as (i & x & y & Hx & Hy & Hxy).
    by exists (S i), x, y.
Qed.

(** C8. [verifySlashableAttestation] returns an error when the validator
    indices are empty or some adjacent pair is a tie or out of order. It
    returns the error of the empty list exactly when the custody
    bitfield has a byte that is not zero and the list is empty, and the
    error of the ordering exactly when, past these two checks, some
    adjacent pair has [indices[i] >= indices[i+1]]: it gets past the
    ordering check exactly when every adjacent pair is strictly
    increasing. Where the custody bitfield and the number of indices
    pass the other checks, it accepts the attestation exactly when the
    list is not empty and every adjacent pair is strictly increasing;
    and whatever it accepts has such a list. *)
Theorem verifySlashableAttestation_ordering (att : SlashableAttestation.t)
    (vs : bool) :
  let indices := SlashableAttestation.ValidatorIndices att in
  let custody := SlashableAttestation.CustodyBitfield att in
  let increasing :=
    ∀ (i : nat) (a b : Z),
      indices !! i = Some a → indices !! S i = Some b → a < b in
  let broken :=
    ∃ (i : nat) (a b : Z),
      indices !! i = Some a ∧ indices !! S i = Some b ∧ a >= b in
  (indices = [] ∨ broken → ∃ e, verifySlashableAttestation att vs = Err e) ∧
  (verifySlashableAttestation att vs = Err EmptyValidatorIndices ↔
   Exists (λ x, x ≠ 0) custody ∧ indices = []) ∧
  (verifySlashableAttestation att vs = Err IndicesNotAscending ↔
   Exists (λ x, x ≠ 0) custody ∧ indices ≠ [] ∧ broken) ∧
  (Exists (λ x, x ≠ 0) custody → indices ≠ [] →
   (verifySlashableAttestation att vs ≠ Err IndicesNotAscending ↔
    increasing)) ∧
  (Exists (λ x, x ≠ 0) custody →
   Z.of_nat (length custody) = CeilDiv8 (Z.of_nat (length indices)) →
   Z.of_nat (length indices) <= MaxIndicesPerSlashableVote BeaconConfig →
   (verifySlashableAttestation att vs = OK ↔ indices ≠ [] ∧ increasing)) ∧
  (verifySlashableAttestation att vs = OK →
   indices ≠ [] ∧ strictly_ascending indices).
Proof.
  intros indices custody increasing broken.
  subst indices custody increasing broken.
  unfold verifySlashableAttestation, bytes_Equal.
  case_bool_decide as Hzero.
  { (* the custody bitfield is all zero *)
    assert (Hno : ¬ Exists (λ x, x ≠ 0)
                      (SlashableAttestation.CustodyBitfield att)).
    { intros Hex. apply all_zero_replicate in Hzero.
      apply Exists_exists in Hex as (x & Hx & Hne).
      rewrite Forall_forall in Hzero. by specialize (Hzero x Hx). }
    split; [eauto|]. split; [split; [discriminate | by intros [? _]]|].
    split; [split; [discriminate | by intros [? _]]|].
    split; [by intros ?|]. split; [by intros ?|]. discriminate. }
  assert (Hex : Exists (λ x, x ≠ 0) (SlashableAttestation.CustodyBitfield att)).
  { apply not_Forall_Exists; [intros x; apply _|].
    intros Hall. apply Hzero. by apply all_zero_replicate. }
  case_bool_decide as Hlen.
  { (* no index *)
    assert (Hnil : SlashableAttestation.ValidatorIndices att = [])
      by (by destruct (SlashableAttestation.ValidatorIndices att)).
    split; [eauto|]. split; [done|].
    split; [split; [discriminate | by intros (_ & ? & _)]|].
    split; [by intros _ ?|].
    split; [intros _ _ _; split; [discriminate | by intros [? _]]|].
    discriminate. }
  assert (Hsome : SlashableAttestation.ValidatorIndices att ≠ [])
    by (intros Hnil; by rewrite Hnil in Hlen).
  destruct (indices_loop (SlashableAttestation.ValidatorIndices att))
    eqn:Hloop; simpl.
  - (* the loop runs to its end *)
    pose proof (proj1 (indices_loop_spec _) Hloop) as Hasc.
    assert (Hsound : ¬ ∃ (i : nat) (a b : Z),
               SlashableAttestation.ValidatorIndices att !! i = Some a ∧
               SlashableAttestation.ValidatorIndices att !! S i = Some b ∧
               a >= b).
    { intros (i & a & b & Ha & Hb & Hge). specialize (Hasc i a b Ha Hb). lia. }
    split; [by intros [?|?]|].
    split.
    { split; [|by intros [_ ?]].
      repeat case_scrutinee; discriminate. }
    split.
    { split; [|by intros (_ & _ & ?)].
      repeat case_scrutinee; discriminate. }
    split.
    { intros _ _. split; [by intros _|]. intros _.
      repeat case_scrutinee; discriminate. }
    split.
    { intros _ Hcustody Hmax.
      rewrite bool_decide_eq_false_2 by (by intros ?).
      destruct (Z.gtb_spec
                  (Z.of_nat (length (SlashableAttestation.ValidatorIndices att)))
                  (MaxIndicesPerSlashableVote BeaconConfig)); [lia|].
      by destruct vs. }
    by intros _.
  - (* the loop returns the error *)
    pose proof (indices_loop_false _ Hloop) as Hbroken.
    assert (Hnot : ¬ strictly_ascending
                       (SlashableAttestation.ValidatorIndices att)).
    { intros Hasc. apply indices_loop_spec in Hasc. congruence. }
    split; [eauto|].
    split; [split; [discriminate | by intros [_ ?]]|].
    split; [done|].
    split; [intros _ _; split; [by intros ? | by intros ?]|].
    split; [intros _ _ _; split; [discriminate | by intros [_ ?]]|].
    discriminate.
Qed.

End SlashingChecks.

(** C8 at an attestation whose indices hold a tie. *)
Lemma verifySlashableAttestation_ordering_witness :
  verifySlashableAttestation (env := sample_env)
    (SlashableAttestation.mk [3; 5; 5; 9] [1]
       (AttestationData.mk 10 0 0 [] [] [])) false
  = Err IndicesNotAscending.
Proof.
  destruct (verifySlashableAttestation_ordering (env := sample_env)
              (SlashableAttestation.mk [3; 5; 5; 9] [1]
                 (AttestationData.mk 10 0 0 [] [] [])) false)
    as [Hfail _].
  destruct Hfail as [e He].
  - right. exists 1%nat, 5, 5. repeat split. lia.
  - rewrite He. vm_compute in He. injection He as <-. reflexivity.
Defined.

(** C1 on the code. The two proposals of scenario 2 (slot 10, shard 3,
    distinct block roots, validator 7 not penalized) are turned down with
    the block-root error and the block is aborted with no call to
    [PenalizeValidator]; the same proposal given twice is accepted and
    validator 7 is penalized for it. *)
Theorem ProcessProposerSlashings_distinct_roots_rejected :
  verifyProposerSlashing double_proposal false = Err BlockRootsMismatch ∧
  ProcessProposerSlashings (env := sample_env) (sample_state 64)
    (proposer_slashing_block double_proposal) false sample_world
  = (Err (ProposerSlashingInvalid 0 BlockRootsMismatch), sample_world) ∧
  verifyProposerSlashing same_proposal false = OK ∧
  ∃ s' w',
    ProcessProposerSlashings (env := sample_env) (sample_state 64)
      (proposer_slashing_block same_proposal) false sample_world
    = (Ok s', w') ∧
    calls w' = [CallPenalizeValidator 7].
Proof.
  split; [reflexivity|]. split; [vm_compute; reflexivity|].
  split; [reflexivity|].
  eexists _, _. split; [vm_compute; reflexivity | reflexivity].
Qed.

(** ** Indexing without bounds checks *)

Section Panics.
Context {env : Env}.

Lemma slice_index_out_of_range (h : Heap) (sl : slice) (i : Z) :
  Z.of_nat (sl_len sl) <= i → slice_index h sl i = Panic.
Proof.
  intros Hi. unfold slice_index. case_bool_decide; [lia | reflexivity].
Qed.

Lemma registry_at_out_of_range (h : Heap) (sl : slice) (i : Z) :
  Z.of_nat (sl_len sl) <= i → registry_at h sl i = Panic.
Proof.
  intros Hi. unfold registry_at. by rewrite slice_index_out_of_range.
Qed.

Lemma slashable_inner_panics (h : Heap) (s : BeaconState.t) (idx1 : Z)
    (indices2 : list Z) :
  idx1 ∈ indices2 →
  Z.of_nat (sl_len (BeaconState.ValidatorRegistry s)) <= idx1 →
  ∀ acc, slashable_inner h s idx1 indices2 acc = Panic.
Proof.
  intros Hin Hout. induction indices2 as [|idx2 rest IH]; intros acc.
  - by apply elem_of_nil in Hin.
  - simpl. case_bool_decide as Heq.
    + by rewrite registry_at_out_of_range.
    + apply IH. apply elem_of_cons in Hin as [?|?]; [contradiction | assumption].
Qed.

(** The inner loop has no error return. *)
Lemma slashable_inner_no_error (h : Heap) (s : BeaconState.t) (idx1 : Z)
    (indices2 : list Z) :
  ∀ acc e, slashable_inner h s idx1 indices2 acc ≠ Err e.
Proof.
  induction indices2 as [|idx2 rest IH]; intros acc e; simpl; [discriminate|].
  case_bool_decide; [|apply IH].
  unfold registry_at, slice_index, load, mbind, Res_bind.
  repeat case_scrutinee; try discriminate; apply IH.
Qed.

Lemma slashable_outer_panics (h : Heap) (s : BeaconState.t)
    (indices1 indices2 : list Z) (idx : Z) :
  idx ∈ indices1 → idx ∈ indices2 →
  Z.of_nat (sl_len (BeaconState.ValidatorRegistry s)) <= idx →
  ∀ acc, slashable_outer h s indices1 indices2 acc = Panic.
Proof.
  intros Hin1 Hin2 Hout.
  induction indices1 as [|idx1 rest IH]; intros acc.
  - by apply elem_of_nil in Hin1.
  - simpl. unfold mbind, Res_bind.
    destruct (slashable_inner h s idx1 indices2 acc) as [acc'|e|] eqn:Hinner.
    + apply IH. apply elem_of_cons in Hin1 as [->|?]; [|assumption].
      by rewrite slashable_inner_panics in Hinner.
    + by apply slashable_inner_no_error in Hinner.
    + reflexivity.
Qed.

(** C10. An index past the end of the array it is used on is met by no
    check and ends in a panic, not in an error:
    - [ProcessProposerSlashings], on a block within the limit whose first
      slashing passes [verifyProposerSlashing], for [proposer_index];
    - [attesterSlashableIndices], for a validator index that the two
      attestations share;
    - [verifyExit], for [validator_index];
    - [verifyAttestation], once the window, justified-epoch and
      justified-root checks have passed, for the shard into
      [latest_crosslinks]. *)
Theorem out_of_range_index_panics :
  (∀ s b vs w slashing rest,
     BeaconBlockBody.ProposerSlashings (BeaconBlock.Body b) = slashing :: rest →
     Z.of_nat (length (slashing :: rest)) <= MaxProposerSlashings BeaconConfig →
     verifyProposerSlashing slashing vs = OK →
     Z.of_nat (sl_len (BeaconState.ValidatorRegistry s))
       <= ProposerSlashing.ProposerIndex slashing →
     ProcessProposerSlashings s b vs w = (Panic, w)) ∧
  (∀ h s slashing idx,
     idx ∈ SlashableAttestation.ValidatorIndices
             (AttesterSlashing.SlashableAttestation_1 slashing) →
     idx ∈ SlashableAttestation.ValidatorIndices
             (AttesterSlashing.SlashableAttestation_2 slashing) →
     Z.of_nat (sl_len (BeaconState.ValidatorRegistry s)) <= idx →
     attesterSlashableIndices h s slashing = Panic) ∧
  (∀ h s exit vs,
     Z.of_nat (sl_len (BeaconState.ValidatorRegistry s))
       <= Exit.ValidatorIndex exit →
     verifyExit h s exit vs = Panic) ∧
  (∀ s att vs,
     let data := Attestation.Data att in
     wrap64 (AttestationData.Slot data
             + MinAttestationInclusionDelay BeaconConfig)
       <= BeaconState.Slot s →
     BeaconState.Slot s
       <= wrap64 (AttestationData.Slot data + EpochLength BeaconConfig) →
     AttestationData.JustifiedEpoch data
     = (if AttestationData.Slot data
             >=? StartSlot (SlotToEpoch (BeaconState.Slot s))
        then BeaconState.JustifiedEpoch s
        else BeaconState.PreviousJustifiedEpoch s) →
     BlockRoot s (StartSlot (AttestationData.JustifiedEpoch data))
     = Ok (AttestationData.JustifiedBlockRootHash32 data) →
     Z.of_nat (length (BeaconState.LatestCrosslinks s))
       <= AttestationData.Shard data →
     verifyAttestation s att vs = Panic).
Proof.
  repeat split.
  - intros s b vs w slashing rest Hbody Hmax Hverify Hout.
    unfold ProcessProposerSlashings. rewrite Hbody.
    destruct (Z.gtb_spec (Z.of_nat (length (slashing :: rest)))
                (MaxProposerSlashings BeaconConfig)); [lia|].
    cbn [proposer_slashings_loop]. unfold mbind, M_bind, lift, reading.
    rewrite Hverify. simpl.
    by rewrite registry_at_out_of_range.
  - intros h s slashing idx Hin1 Hin2 Hout.
    unfold attesterSlashableIndices.
    by rewrite (slashable_outer_panics h s _ _ idx Hin1 Hin2 Hout).
  - intros h s exit vs Hout. unfold verifyExit.
    by rewrite registry_at_out_of_range.
  - intros s att vs data Hrecent Hstale Hjust Hroot Hout. subst data.
    unfold verifyAttestation.
    destruct (Z.gtb_spec
                (wrap64 (AttestationData.Slot (Attestation.Data att)
                         + MinAttestationInclusionDelay BeaconConfig))
                (BeaconState.Slot s)); [lia|].
    destruct (Z.ltb_spec
                (wrap64 (AttestationData.Slot (Attestation.Data att)
                         + EpochLength BeaconConfig))
                (BeaconState.Slot s)); [lia|].
    rewrite Hroot. unfold mbind, Res_bind.
    rewrite Hjust.
    assert (Hself : bytes_Equal
              (AttestationData.JustifiedBlockRootHash32 (Attestation.Data att))
              (AttestationData.JustifiedBlockRootHash32 (Attestation.Data att))
            = true) by by apply bytes_Equal_true.
    assert (Hlook : BeaconState.LatestCrosslinks s
                      !! Z.to_nat (AttestationData.Shard (Attestation.Data att))
                    = None).
    { apply lookup_ge_None. lia. }
    destruct (AttestationData.Slot (Attestation.Data att)
                >=? StartSlot (SlotToEpoch (BeaconState.Slot s)));
      (case_bool_decide; [contradiction|]);
      rewrite Hself; simpl; rewrite Hlook;
      case_bool_decide; reflexivity.
Qed.

End Panics.

(** C10 on sample inputs: four indices past the end, four panics. *)
Lemma out_of_range_index_panics_witness :
  ProcessProposerSlashings (env := sample_env) (sample_state 64)
    (proposer_slashing_block
       (ProposerSlashing.mk 8 (ProposalSignedData.mk 10 3 [1])
          (ProposalSignedData.mk 10 3 [1])))
    false sample_world = (Panic, sample_world) ∧
  attesterSlashableIndices (env := sample_env) sample_heap (sample_state 64)
    (AttesterSlashing.mk
       (SlashableAttestation.mk [3; 8] [1] (AttestationData.mk 10 0 0 [] [] []))
       (SlashableAttestation.mk [8; 9] [1] (AttestationData.mk 11 0 0 [] [] [])))
  = Panic ∧
  verifyExit (env := sample_env) sample_heap (sample_state 64)
    (Exit.mk 0 8) false = Panic ∧
  verifyAttestation (env := sample_env) (sample_state 100)
    (Attestation.mk (AttestationData.mk 96 2 0 [] [] []) [1] [0]) false
  = Panic.
Proof.
  destruct (out_of_range_index_panics (env := sample_env))
    as (Hproposer & Hattester & Hexit & Hattestation).
  split; [|split; [|split]].
  - eapply Hproposer; [reflexivity | vm_compute; discriminate
                      | reflexivity | vm_compute; discriminate].
  - apply (Hattester _ _ _ 8); [set_solver | set_solver
                               | vm_compute; discriminate].
  - apply Hexit. vm_compute. discriminate.
  - apply Hattestation; try reflexivity; vm_compute; discriminate.
Defined.

(** ** Slashing and the validators already slashed *)

Section Slashing.
Context {env : Env}.

Lemma spares_here (i : Z) (w : World) (r : Res BeaconState.t) :
  (∀ s', r = Ok s' →
         already_slashed (heap w) (BeaconState.ValidatorRegistry s')
           (CurrentEpoch s') i) →
  spares i w r w.
Proof.
  intros H. split; [|exact H].
  exists []. rewrite app_nil_r. split; [reflexivity | apply not_elem_of_nil].
Qed.

(** A run that starts with a call on [j ≠ i] and goes on sparing [i]. *)
Lemma spares_after_call (i j : Z) (w w1 w' : World) (r : Res BeaconState.t) :
  j ≠ i →
  calls w1 = calls w ++ [CallPenalizeValidator j] →
  spares i w1 r w' →
  spares i w r w'.
Proof.
  intros Hne Hcall [(new & Hnew & Hnot) Hpost]. split; [|exact Hpost].
  exists (CallPenalizeValidator j :: new). split.
  - rewrite Hnew, Hcall, <- app_assoc. reflexivity.
  - intros Hin. apply elem_of_cons in Hin as [Heq|Hin]; [congruence | auto].
Qed.

Lemma call_PenalizeValidator_run (s : BeaconState.t) (j : Z) (w : World) :
  ∃ r h,
    PenalizeValidator (heap w) s j = (r, h) ∧
    call_PenalizeValidator s j w
    = (r, mkWorld h (calls w ++ [CallPenalizeValidator j])).
Proof.
  unfold call_PenalizeValidator.
  destruct (PenalizeValidator (heap w) s j) as [r h]. by exists r, h.
Qed.

(** A validator read as not yet penalized is not one already slashed. *)
Lemma not_yet_penalized_differs (h : Heap) (sl : slice) (epoch i j : Z)
    (v : Validator.t) :
  already_slashed h sl epoch i →
  registry_at h sl j = Ok v →
  (Validator.PenalizedEpoch v >? epoch) = true →
  j ≠ i.
Proof.
  intros (u & Hu & Hle) Hv Hgt ->.
  rewrite Hu in Hv. injection Hv as ->. lia.
Qed.

Section WithContract.
Hypothesis penalize_contract : penalize_keeps_slashed.

(** One guarded call to [PenalizeValidator] on [j ≠ i], followed by a
    continuation that spares [i], spares [i]. *)
Lemma penalize_then_spares (i j : Z) (f : error → error)
    (k : BeaconState.t → M BeaconState.t) (s : BeaconState.t) (w : World)
    (r : Res BeaconState.t) (w' : World) :
  j ≠ i →
  already_slashed (heap w) (BeaconState.ValidatorRegistry s) (CurrentEpoch s) i →
  (∀ s1 w1 r1 w1',
     BeaconState.ValidatorRegistry s1 = BeaconState.ValidatorRegistry s →
     CurrentEpoch s1 = CurrentEpoch s →
     already_slashed (heap w1) (BeaconState.ValidatorRegistry s1)
       (CurrentEpoch s1) i →
     k s1 w1 = (r1, w1') → spares i w1 r1 w1') →
  (wrapping f (call_PenalizeValidator s j) ≫= k) w = (r, w') →
  spares i w r w'.
Proof.
  intros Hne Hi Hk Hrun.
  destruct (call_PenalizeValidator_run s j w) as (r1 & h1 & Hpen & Hcall).
  destruct (penalize_contract _ _ _ _ _ Hpen) as [Hkeep Hstate].
  unfold mbind, M_bind, wrapping in Hrun. rewrite Hcall in Hrun.
  eapply (spares_after_call i j w
            (mkWorld h1 (calls w ++ [CallPenalizeValidator j])));
    [exact Hne | reflexivity |].
  destruct r1 as [s1|e|].
  - destruct (Hstate s1 eq_refl) as [Hepoch Hreg].
    eapply Hk; [exact Hreg | exact Hepoch | | exact Hrun].
    rewrite Hreg, Hepoch. apply Hkeep. exact Hi.
  - injection Hrun as <- <-. apply spares_here. discriminate.
  - injection Hrun as <- <-. apply spares_here. discriminate.
Qed.

Lemma proposer_slashings_loop_spares (i : Z) (registry : slice) (vs : bool)
    (slashings : list ProposerSlashing.t) :
  ∀ idx s w r w',
    BeaconState.ValidatorRegistry s = registry →
    already_slashed (heap w) registry (CurrentEpoch s) i →
    proposer_slashings_loop registry vs idx slashings s w = (r, w') →
    spares i w r w'.
Proof.
  induction slashings as [|slashing rest IH]; intros idx s w r w' Hreg Hi Hrun.
  - injection Hrun as <- <-. apply spares_here.
    intros s' [= <-]. by rewrite Hreg.
  - cbn [proposer_slashings_loop] in Hrun.
    unfold mbind at 1, M_bind at 1, lift in Hrun.
    destruct (wrap_check (ProposerSlashingInvalid idx)
                (verifyProposerSlashing slashing vs)) as [[]|e|].
    2,3: injection Hrun as <- <-; apply spares_here; discriminate.
    unfold mbind at 1, M_bind at 1, reading in Hrun.
    destruct (registry_at (heap w) registry
                (ProposerSlashing.ProposerIndex slashing))
      as [proposer|e|] eqn:Hproposer.
    2,3: injection Hrun as <- <-; apply spares_here; discriminate.
    destruct (Validator.PenalizedEpoch proposer >? CurrentEpoch s) eqn:Hgt.
    + eapply (penalize_then_spares i); [| |
        | exact Hrun].
      * eapply not_yet_penalized_differs; eassumption.
      * by rewrite Hreg.
      * intros s1 w1 r1 w1' Hreg1 Hepoch1 Hi1 Hk.
        eapply IH; [| |exact Hk]; [congruence|].
        by rewrite Hreg1, Hreg in Hi1.
    + eapply IH; eassumption.
Qed.

Lemma penalize_loop_spares (i : Z) (indices : list Z) :
  ∀ s w r w',
    i ∉ indices →
    already_slashed (heap w) (BeaconState.ValidatorRegistry s) (CurrentEpoch s) i →
    penalize_loop indices s w = (r, w') →
    (spares i w r w' ∧
     ∀ s', r = Ok s' →
           BeaconState.ValidatorRegistry s' = BeaconState.ValidatorRegistry s ∧
           CurrentEpoch s' = CurrentEpoch s).
Proof.
  induction indices as [|j rest IH]; intros s w r w' Hnot Hi Hrun.
  - injection Hrun as <- <-. split; [|by intros s' [= <-]].
    apply spares_here. by intros s' [= <-].
  - cbn [penalize_loop] in Hrun.
    apply not_elem_of_cons in Hnot as [Hne Hnot].
    split.
    + eapply (penalize_then_spares i j); [congruence | exact Hi | | exact Hrun].
      intros s1 w1 r1 w1' _ _ Hi1 Hk.
      by destruct (IH _ _ _ _ Hnot Hi1 Hk).
    + intros s' ->.
      destruct (call_PenalizeValidator_run s j w) as (r1 & h1 & Hpen & Hcall).
      destruct (penalize_contract _ _ _ _ _ Hpen) as [Hkeep Hstate].
      unfold mbind, M_bind, wrapping in Hrun. rewrite Hcall in Hrun.
      destruct r1 as [s1|e|]; try discriminate.
      destruct (Hstate s1 eq_refl) as [Hepoch Hreg].
      assert (Hi1 : already_slashed h1 (BeaconState.ValidatorRegistry s1)
                      (CurrentEpoch s1) i).
      { rewrite Hreg, Hepoch. by apply Hkeep. }
      destruct (IH s1 (mkWorld h1 (calls w ++ [CallPenalizeValidator j]))
                  _ _ Hnot Hi1 Hrun) as [_ Hpost].
      destruct (Hpost s' eq_refl) as [-> ->]. by split.
Qed.

End WithContract.

(** What the inner loop appends are indices read as not yet penalized. *)
Lemma slashable_inner_guarded (h : Heap) (s : BeaconState.t) (idx1 : Z)
    (indices2 : list Z) :
  ∀ acc result,
    slashable_inner h s idx1 indices2 acc = Ok result →
    ∀ x, x ∈ result →
         x ∈ acc ∨
         ∃ v, registry_at h (BeaconState.ValidatorRegistry s) x = Ok v ∧
              (Validator.PenalizedEpoch v >? CurrentEpoch s) = true.
Proof.
  induction indices2 as [|idx2 rest IH]; intros acc result Hrun x Hx.
  - injection Hrun as <-. by left.
  - simpl in Hrun. case_bool_decide; [|by eapply IH].
    unfold mbind, Res_bind in Hrun.
    destruct (registry_at h (BeaconState.ValidatorRegistry s) idx1)
      as [v|e|] eqn:Hv; try discriminate.
    destruct (Validator.PenalizedEpoch v >? CurrentEpoch s) eqn:Hgt;
      [|by eapply IH].
    destruct (IH _ _ Hrun x Hx) as [Hin|Hguard]; [|by right].
    apply elem_of_app in Hin as [Hin|Hin]; [by left|].
    apply list_elem_of_singleton in Hin as ->. right. by exists v.
Qed.

Lemma slashable_outer_guarded (h : Heap) (s : BeaconState.t)
    (indices1 indices2 : list Z) :
  ∀ acc result,
    slashable_outer h s indices1 indices2 acc = Ok result →
    ∀ x, x ∈ result →
         x ∈ acc ∨
         ∃ v, registry_at h (BeaconState.ValidatorRegistry s) x = Ok v ∧
              (Validator.PenalizedEpoch v >? CurrentEpoch s) = true.
Proof.
  induction indices1 as [|idx1 rest IH]; intros acc result Hrun x Hx.
  - injection Hrun as <-. by left.
  - simpl in Hrun. unfold mbind, Res_bind in Hrun.
    destruct (slashable_inner h s idx1 indices2 acc) as [acc'|e|] eqn:Hinner;
      try discriminate.
    destruct (IH _ _ Hrun x Hx) as [Hin|Hguard]; [|by right].
    by eapply slashable_inner_guarded.
Qed.

(** No validator already slashed is among the slashable indices. *)
Lemma attesterSlashableIndices_spares (h : Heap) (s : BeaconState.t)
    (slashing : AttesterSlashing.t) (indices : list Z) (i : Z) :
  already_slashed h (BeaconState.ValidatorRegistry s) (CurrentEpoch s) i →
  attesterSlashableIndices h s slashing = Ok indices →
  i ∉ indices.
Proof.
  intros Hi Hrun Hin. unfold attesterSlashableIndices in Hrun.
  unfold mbind, Res_bind in Hrun.
  destruct (slashable_outer h s _ _ []) as [result|e|] eqn:Houter;
    try discriminate.
  case_bool_decide; [discriminate|]. injection Hrun as ->.
  destruct (slashable_outer_guarded _ _ _ _ _ _ Houter i Hin)
    as [Hnil | (v & Hv & Hgt)].
  - by apply elem_of_nil in Hnil.
  - by eapply (not_yet_penalized_differs h _ _ i i v).
Qed.

End Slashing.

Section SlashingMonotonicity.
Context {env : Env}.
Hypothesis penalize_contract : penalize_keeps_slashed.

Lemma attester_slashings_loop_spares (i : Z) (vs : bool)
    (slashings : list AttesterSlashing.t) :
  ∀ idx s w r w',
    already_slashed (heap w) (BeaconState.ValidatorRegistry s) (CurrentEpoch s) i →
    attester_slashings_loop vs idx slashings s w = (r, w') →
    spares i w r w'.
Proof.
  induction slashings as [|slashing rest IH]; intros idx s w r w' Hi Hrun.
  - injection Hrun as <- <-. apply spares_here. by intros s' [= <-].
  - cbn [attester_slashings_loop] in Hrun.
    unfold mbind at 1, M_bind at 1, lift in Hrun.
    destruct (wrap_check (AttesterSlashingInvalid idx)
                (verifyAttesterSlashing slashing vs)) as [[]|e|].
    2,3: injection Hrun as <- <-; apply spares_here; discriminate.
    unfold mbind at 1, M_bind at 1, reading in Hrun.
    destruct (attesterSlashableIndices (heap w) s slashing)
      as [indices|e|] eqn:Hindices; simpl in Hrun.
    2,3: injection Hrun as <- <-; apply spares_here; discriminate.
    pose proof (attesterSlashableIndices_spares _ _ _ _ _ Hi Hindices) as Hnot.
    unfold mbind, M_bind in Hrun.
    destruct (penalize_loop indices s w) as [r1 w1] eqn:Hloop.
    destruct (penalize_loop_spares penalize_contract i indices
                s w r1 w1 Hnot Hi Hloop) as [[(new1 & Hnew1 & Hnot1) Hpost1] _].
    destruct r1 as [s1|e|].
    + destruct (IH _ _ _ _ _ (Hpost1 s1 eq_refl) Hrun)
        as [(new2 & Hnew2 & Hnot2) Hpost2].
      split; [|exact Hpost2].
      exists (new1 ++ new2). split.
      * rewrite Hnew2, Hnew1, <- app_assoc. reflexivity.
      * rewrite elem_of_app. tauto.
    + injection Hrun as <- <-. split; [eauto | discriminate].
    + injection Hrun as <- <-. split; [eauto | discriminate].
Qed.

(** The record of a proposer already slashed is passed over: the loop
    goes on to the next entry with the state and the heap as they are. *)
Lemma proposer_slashings_loop_skips (registry : slice) (vs : bool) (idx : nat)
    (slashing : ProposerSlashing.t) (rest : list ProposerSlashing.t)
    (s : BeaconState.t) (w : World) :
  verifyProposerSlashing slashing vs = OK →
  already_slashed (heap w) registry (CurrentEpoch s)
    (ProposerSlashing.ProposerIndex slashing) →
  proposer_slashings_loop registry vs idx (slashing :: rest) s w
  = proposer_slashings_loop registry vs (S idx) rest s w.
Proof.
  intros Hverify (v & Hv & Hle).
  cbn [proposer_slashings_loop]. unfold mbind, M_bind, lift, reading.
  rewrite Hverify. simpl. rewrite Hv.
  destruct (Z.gtb_spec (Validator.PenalizedEpoch v) (CurrentEpoch s));
    [lia | reflexivity].
Qed.

Lemma ProcessProposerSlashings_spares (i : Z) (s : BeaconState.t)
    (b : BeaconBlock.t) (vs : bool) (w : World) (r : Res BeaconState.t)
    (w' : World) :
  already_slashed (heap w) (BeaconState.ValidatorRegistry s) (CurrentEpoch s) i →
  ProcessProposerSlashings s b vs w = (r, w') →
  spares i w r w'.
Proof.
  intros Hi Hrun. unfold ProcessProposerSlashings in Hrun.
  destruct (Z.of_nat _ >? _).
  - injection Hrun as <- <-. apply spares_here. discriminate.
  - eapply proposer_slashings_loop_spares;
      [exact penalize_contract | reflexivity | exact Hi | exact Hrun].
Qed.

Lemma ProcessAttesterSlashings_spares (i : Z) (s : BeaconState.t)
    (b : BeaconBlock.t) (vs : bool) (w : World) (r : Res BeaconState.t)
    (w' : World) :
  already_slashed (heap w) (BeaconState.ValidatorRegistry s) (CurrentEpoch s) i →
  ProcessAttesterSlashings s b vs w = (r, w') →
  spares i w r w'.
Proof.
  intros Hi Hrun. unfold ProcessAttesterSlashings in Hrun.
  destruct (Z.of_nat _ >? _).
  - injection Hrun as <- <-. apply spares_here. discriminate.
  - eapply attester_slashings_loop_spares; eassumption.
Qed.

(** C9. Let validator [i] be already slashed in the state a block meets
    (its penalized epoch is not above the current epoch), and let
    [PenalizeValidator] keep its contract. Then neither
    [ProcessProposerSlashings] nor [ProcessAttesterSlashings] calls
    [PenalizeValidator] on [i], whether the stage succeeds or aborts,
    and [i] is still slashed in the state a stage returns; the same
    holds of the two stages run one after the other. A verified slashing
    record that names [i] as its proposer is accepted with the state and
    the heap unchanged. *)
Theorem already_slashed_not_penalized_again (i : Z) (s : BeaconState.t)
    (b : BeaconBlock.t) (vs : bool) (w : World) :
  already_slashed (heap w) (BeaconState.ValidatorRegistry s) (CurrentEpoch s) i →
  (∀ r w', ProcessProposerSlashings s b vs w = (r, w') → spares i w r w') ∧
  (∀ r w', ProcessAttesterSlashings s b vs w = (r, w') → spares i w r w') ∧
  (∀ s1 w1 r w2,
     ProcessProposerSlashings s b vs w = (Ok s1, w1) →
     ProcessAttesterSlashings s1 b vs w1 = (r, w2) →
     spares i w r w2) ∧
  (∀ slashing,
     BeaconBlockBody.ProposerSlashings (BeaconBlock.Body b) = [slashing] →
     1 <= MaxProposerSlashings BeaconConfig →
     ProposerSlashing.ProposerIndex slashing = i →
     verifyProposerSlashing slashing vs = OK →
     ProcessProposerSlashings s b vs w = (Ok s, w)).
Proof.
  intros Hi. split; [|split; [|split]].
  - intros r w'. by apply ProcessProposerSlashings_spares.
  - intros r w'. by apply ProcessAttesterSlashings_spares.
  - intros s1 w1 r w2 Hfirst Hsecond.
    destruct (ProcessProposerSlashings_spares _ _ _ _ _ _ _ Hi Hfirst)
      as [(new1 & Hnew1 & Hnot1) Hpost1].
    destruct (ProcessAttesterSlashings_spares _ _ _ _ _ _ _
                (Hpost1 s1 eq_refl) Hsecond)
      as [(new2 & Hnew2 & Hnot2) Hpost2].
    split; [|exact Hpost2].
    exists (new1 ++ new2). split.
    + rewrite Hnew2, Hnew1, <- app_assoc. reflexivity.
    + rewrite elem_of_app. tauto.
  - intros slashing Hbody Hmax <- Hverify.
    unfold ProcessProposerSlashings. rewrite Hbody.
    destruct (Z.gtb_spec (Z.of_nat (length [slashing]))
                (MaxProposerSlashings BeaconConfig)); [simpl in *; lia|].
    by rewrite proposer_slashings_loop_skips.
Qed.

End SlashingMonotonicity.

(** The in-place penalty of the sample collaborators keeps the contract. *)
Lemma sample_env_penalize_contract : penalize_keeps_slashed (env := sample_env).
Proof.
  intros h s j r h' Hpen. simpl in Hpen.
  unfold penalize_in_place, update_validator in Hpen.
  destruct (slice_index h (BeaconState.ValidatorRegistry s) j) as [p|e|] eqn:Hp.
  2,3: injection Hpen as <- <-; split; [auto | discriminate].
  destruct (validators h !! p) as [v|] eqn:Hv.
  2: injection Hpen as <- <-; split; [auto | discriminate].
  injection Hpen as <- <-. split; [|by intros s' [= <-]].
  intros sl i (u & Hu & Hle). unfold already_slashed, registry_at in *.
  unfold slice_index in *. simpl in *.
  case_bool_decide; [|discriminate].
  destruct (registries h !! sl_arr sl) as [arr|]; [|discriminate].
  destruct (arr !! Z.to_nat i) as [q|]; [|discriminate].
  simpl in *. unfold load in *. simpl.
  destruct (decide (p = q)) as [<-|Hne].
  - rewrite lookup_insert_eq. eexists. split; [reflexivity|]. simpl. lia.
  - rewrite lookup_insert_ne by exact Hne. exists u. by split.
Qed.

(** C9 at the sample state: validator 2 was penalized at epoch 0; of the
    two proposer slashings of the block, for validators 2 and 7, only
    the second leads to a call. *)
Lemma already_slashed_not_penalized_again_witness :
  already_slashed sample_heap (Slice 9 8) 1 2 ∧
  calls (ProcessProposerSlashings (env := sample_env) (sample_state 64)
           two_slashings_block false sample_world).2
  = [CallPenalizeValidator 7] ∧
  CallPenalizeValidator 2
  ∉ calls (ProcessProposerSlashings (env := sample_env) (sample_state 64)
             two_slashings_block false sample_world).2.
Proof.
  assert (Hslashed : already_slashed sample_heap (Slice 9 8) 1 2).
  { eexists. split; [vm_compute; reflexivity | vm_compute; discriminate]. }
  split; [exact Hslashed|]. split; [vm_compute; reflexivity|].
  destruct (already_slashed_not_penalized_again (env := sample_env)
              sample_env_penalize_contract 2 (sample_state 64)
              two_slashings_block false sample_world Hslashed)
    as [Hproposer _].
  destruct (ProcessProposerSlashings (env := sample_env) (sample_state 64)
              two_slashings_block false sample_world) as [r w'] eqn:Hrun.
  destruct (Hproposer r w' eq_refl) as [(new & Hnew & Hnot) _].
  simpl in *. by rewrite Hnew.
Defined.

(** ** ProcessValidatorExits *)

Section Exits.
Context {env : Env}.

Lemma exits_loop_run (vs : bool) (exits : list Exit.t) :
  ∀ idx s w,
    exits_pass vs (heap w) s exits →
    exits_loop vs idx exits s w
    = (Ok (apply_exits (heap w) s exits).1,
       mkWorld (apply_exits (heap w) s exits).2
               (calls w ++ exit_calls exits)).
Proof.
  induction exits as [|exit rest IH]; intros idx s w Hpass.
  - simpl. rewrite app_nil_r. by destruct w.
  - destruct Hpass as [Hverify Hrest].
    cbn [exits_loop apply_exits]. unfold mbind, M_bind, reading.
    rewrite Hverify. simpl. unfold call_InitiateValidatorExit.
    destruct (InitiateValidatorExit (heap w) s (Exit.ValidatorIndex exit))
      as [s1 h1].
    rewrite IH by exact Hrest. simpl.
    by rewrite <- app_assoc.
Qed.

Lemma apply_exits_registry (exits : list Exit.t) :
  (∀ h s i,
     BeaconState.ValidatorRegistry (InitiateValidatorExit h s i).1
     = BeaconState.ValidatorRegistry s) →
  ∀ h s,
    BeaconState.ValidatorRegistry (apply_exits h s exits).1
    = BeaconState.ValidatorRegistry s.
Proof.
  intros Hkeep. induction exits as [|exit rest IH]; intros h s; [reflexivity|].
  simpl. specialize (Hkeep h s (Exit.ValidatorIndex exit)).
  destruct (InitiateValidatorExit h s (Exit.ValidatorIndex exit)) as [s1 h1].
  rewrite IH. exact Hkeep.
Qed.

Lemma set_ValidatorRegistry_same (s : BeaconState.t) (sl : slice) :
  BeaconState.ValidatorRegistry s = sl →
  BeaconState.set_ValidatorRegistry s sl = s.
Proof. intros <-. by destruct s. Qed.

(** What [ProcessValidatorExits] does on a block whose exits are within
    the limit and pass their checks, whatever [InitiateValidatorExit]
    is: it returns the state and the heap the calls leave, with the
    registry slice of the state set to the one it held at the start. *)
Lemma ProcessValidatorExits_run (s : BeaconState.t) (b : BeaconBlock.t)
    (vs : bool) (w : World) :
  Z.of_nat (length (BeaconBlockBody.Exits (BeaconBlock.Body b)))
    <= MaxExits BeaconConfig →
  exits_pass vs (heap w) s (BeaconBlockBody.Exits (BeaconBlock.Body b)) →
  ProcessValidatorExits s b vs w
  = (Ok (BeaconState.set_ValidatorRegistry
           (apply_exits (heap w) s
              (BeaconBlockBody.Exits (BeaconBlock.Body b))).1
           (BeaconState.ValidatorRegistry s)),
     mkWorld (apply_exits (heap w) s
                (BeaconBlockBody.Exits (BeaconBlock.Body b))).2
             (calls w ++ exit_calls
                           (BeaconBlockBody.Exits (BeaconBlock.Body b)))).
Proof.
  intros Hmax Hpass. unfold ProcessValidatorExits.
  destruct (Z.gtb_spec
              (Z.of_nat (length (BeaconBlockBody.Exits (BeaconBlock.Body b))))
              (MaxExits BeaconConfig)); [lia|].
  unfold mbind, M_bind. rewrite exits_loop_run by exact Hpass.
  reflexivity.
Qed.

(** C2. [InitiateValidatorExit] takes the state by pointer and returns
    it; let the state it returns hold the registry slice of the state it
    was given, so that what it changes in the registry it writes through
    that slice. On a block whose exits are within the limit and pass
    their checks, [ProcessValidatorExits] succeeds after one call to
    [InitiateValidatorExit] per exit, in list order, and what it returns
    is the state and the heap those calls leave; the registry a reader
    of the returned state sees is the one the calls have left. *)
Theorem ProcessValidatorExits_applies_exits (s : BeaconState.t)
    (b : BeaconBlock.t) (vs : bool) (w : World) :
  let exits := BeaconBlockBody.Exits (BeaconBlock.Body b) in
  (∀ h s0 i,
     BeaconState.ValidatorRegistry (InitiateValidatorExit h s0 i).1
     = BeaconState.ValidatorRegistry s0) →
  Z.of_nat (length exits) <= MaxExits BeaconConfig →
  exits_pass vs (heap w) s exits →
  ProcessValidatorExits s b vs w
  = (Ok (apply_exits (heap w) s exits).1,
     mkWorld (apply_exits (heap w) s exits).2
             (calls w ++ exit_calls exits)) ∧
  ∀ s' w',
    ProcessValidatorExits s b vs w = (Ok s', w') →
    registry_view (heap w') (BeaconState.ValidatorRegistry s')
    = registry_view (apply_exits (heap w) s exits).2
        (BeaconState.ValidatorRegistry (apply_exits (heap w) s exits).1).
Proof.
  intros exits Hkeep Hmax Hpass. subst exits.
  assert (Hrun : ProcessValidatorExits s b vs w
    = (Ok (apply_exits (heap w) s
             (BeaconBlockBody.Exits (BeaconBlock.Body b))).1,
       mkWorld (apply_exits (heap w) s
                  (BeaconBlockBody.Exits (BeaconBlock.Body b))).2
               (calls w ++ exit_calls
                             (BeaconBlockBody.Exits (BeaconBlock.Body b))))).
  { rewrite ProcessValidatorExits_run by assumption.
    rewrite set_ValidatorRegistry_same; [reflexivity|].
    by apply apply_exits_registry. }
  split; [exact Hrun|].
  intros s' w' Hok. rewrite Hrun in Hok. by injection Hok as <- <-.
Qed.

End Exits.

(** The theorem at the exit of validator 1, written in place. *)
Lemma ProcessValidatorExits_applies_exits_witness :
  ProcessValidatorExits (env := sample_env) (sample_state 64)
    one_exit_block false sample_world
  = (Ok (apply_exits (env := sample_env) sample_heap (sample_state 64)
           [Exit.mk 0 1]).1,
     mkWorld (apply_exits (env := sample_env) sample_heap (sample_state 64)
                [Exit.mk 0 1]).2
             [CallInitiateValidatorExit 1]).
Proof.
  apply (ProcessValidatorExits_applies_exits (env := sample_env)
           (sample_state 64) one_exit_block false sample_world).
  - intros h s i. simpl. unfold exit_in_place.
    by destruct (update_validator _ h (BeaconState.ValidatorRegistry s) i).
  - vm_compute. discriminate.
  - split; [vm_compute; reflexivity | exact I].
Defined.

(** ** ProcessBlockRandao *)

Section Randao.
Context {env : Env}.

Lemma lxor_twice (m x : Z) : Z.lxor (Z.lxor m x) x = m.
Proof. by rewrite Z.lxor_assoc, Z.lxor_nilpotent, Z.lxor_0_r. Qed.

Lemma xor_into_length (reveal : list Z) :
  ∀ mix r, xor_into mix reveal = Some r → length r = length mix.
Proof.
  induction reveal as [|x reveal IH]; intros mix r Hxor; simpl in Hxor.
  - by injection Hxor as <-.
  - destruct mix as [|m mix]; [discriminate|].
    destruct (xor_into mix reveal) as [r'|] eqn:Hrest; [|discriminate].
    injection Hxor as <-. simpl. f_equal. by apply IH.
Qed.

(** Mixing the same reveal in twice gives the mix back. *)
Lemma xor_into_involutive (reveal : list Z) :
  ∀ mix r, xor_into mix reveal = Some r → xor_into r reveal = Some mix.
Proof.
  induction reveal as [|x reveal IH]; intros mix r Hxor; simpl in Hxor.
  - by injection Hxor as <-.
  - destruct mix as [|m mix]; [discriminate|].
    destruct (xor_into mix reveal) as [r'|] eqn:Hrest; [|discriminate].
    injection Hxor as <-. simpl.
    rewrite (IH _ _ Hrest), lxor_twice. reflexivity.
Qed.

Lemma ProcessBlockRandao_run (s : BeaconState.t) (b : BeaconBlock.t) (w : World)
    proposerIndex proposer v arr mix latestMix :
  randao_run s b (heap w) proposerIndex proposer v arr mix latestMix →
  ProcessBlockRandao s b w
  = (Ok (randao_state_after s latestMix),
     mkWorld (randao_heap_after b (heap w) proposer v) (calls w)).
Proof.
  intros [Hidx Hrange Harr Hptr Hval Hver Hlen Hmix Hxor].
  unfold ProcessBlockRandao.
  unfold mbind at 1, M_bind at 1, wrapping, reading. rewrite Hidx.
  unfold mbind at 1, M_bind at 1. unfold slice_index.
  rewrite bool_decide_eq_true_2 by exact Hrange. rewrite Harr, Hptr.
  unfold mbind at 1, M_bind at 1. unfold load. rewrite Hval.
  unfold mbind at 1, M_bind at 1, lift. rewrite Hver. simpl.
  rewrite bool_decide_eq_false_2 by exact Hlen.
  unfold mix_index in Hmix. rewrite Hmix, Hxor.
  unfold mbind, M_bind, store, slice_store, mret, M_ret. rewrite Hval. simpl.
  rewrite bool_decide_eq_true_2 by exact Hrange. rewrite Harr.
  rewrite bool_decide_eq_true_2 by (by eapply lookup_lt_Some).
  unfold randao_state_after, randao_heap_after, mix_index.
  rewrite (list_insert_id arr (Z.to_nat proposerIndex) proposer Hptr).
  rewrite (insert_id (registries (heap w)) _ _ Harr). reflexivity.
Qed.

Lemma ProcessBlockRandao_Ok (s s1 : BeaconState.t) (b : BeaconBlock.t)
    (w w1 : World) :
  ProcessBlockRandao s b w = (Ok s1, w1) →
  ∃ proposerIndex proposer v arr mix latestMix,
    randao_run s b (heap w) proposerIndex proposer v arr mix latestMix.
Proof.
  intros Hrun. unfold ProcessBlockRandao in Hrun.
  unfold mbind at 1, M_bind at 1, wrapping, reading in Hrun.
  destruct (BeaconProposerIdx (heap w) s (BeaconState.Slot s))
    as [proposerIndex|e|] eqn:Hidx; try discriminate.
  unfold mbind at 1, M_bind at 1 in Hrun. unfold slice_index in Hrun.
  case_bool_decide as Hrange; [|discriminate].
  destruct (registries (heap w) !! sl_arr (BeaconState.ValidatorRegistry s))
    as [arr|] eqn:Harr; [|discriminate].
  destruct (arr !! Z.to_nat proposerIndex) as [proposer|] eqn:Hptr;
    [|discriminate].
  unfold mbind at 1, M_bind at 1 in Hrun. unfold load in Hrun.
  destruct (validators (heap w) !! proposer) as [v|] eqn:Hval; [|discriminate].
  unfold mbind at 1, M_bind at 1, lift in Hrun.
  destruct (verifyBlockRandao v b) as [[]|e|] eqn:Hver; try discriminate.
  simpl in Hrun.
  case_bool_decide as Hlen; [discriminate|].
  destruct (BeaconState.LatestRandaoMixesHash32S s
              !! Z.to_nat (BeaconState.Slot s
                           `mod` LatestRandaoMixesLength BeaconConfig))
    as [mix|] eqn:Hmix; [|discriminate].
  destruct (xor_into (ToBytes32 mix) (BeaconBlock.RandaoRevealHash32 b))
    as [latestMix|] eqn:Hxor; [|discriminate].
  exists proposerIndex, proposer, v, arr, mix, latestMix.
  by constructor.
Qed.

(** C7. Let [ProcessBlockRandao] succeed on a state whose mix at the
    index of its slot is a 32-byte value, with [ToBytes32] a conversion
    to 32 bytes, and let the proposer of the slot be the same in the
    state it returns. That run leaves the slot as it is, the proposer's
    commitment at the reveal and its layers at 0; a second run on the
    same block succeeds too, and the mix at the index of the slot is
    again the one before the first run. *)
Theorem ProcessBlockRandao_twice (s s1 : BeaconState.t) (b : BeaconBlock.t)
    (w w1 : World) :
  ToBytes32_contract →
  (∀ mix, BeaconState.LatestRandaoMixesHash32S s !! mix_index s = Some mix →
          length mix = 32%nat) →
  ProcessBlockRandao s b w = (Ok s1, w1) →
  BeaconProposerIdx (heap w1) s1 (BeaconState.Slot s1)
  = BeaconProposerIdx (heap w) s (BeaconState.Slot s) →
  BeaconState.Slot s1 = BeaconState.Slot s ∧
  (∃ proposerIndex proposer,
     BeaconProposerIdx (heap w) s (BeaconState.Slot s) = Ok proposerIndex ∧
     registry_at (heap w1) (BeaconState.ValidatorRegistry s1) proposerIndex
     = Ok proposer ∧
     Validator.RandaoCommitmentHash32 proposer
     = BeaconBlock.RandaoRevealHash32 b ∧
     Validator.RandaoLayers proposer = 0) ∧
  ∃ s2 w2,
    ProcessBlockRandao s1 b w1 = (Ok s2, w2) ∧
    BeaconState.LatestRandaoMixesHash32S s2 !! mix_index s
    = BeaconState.LatestRandaoMixesHash32S s !! mix_index s.
Proof.
  intros [Hlen32 Hsame32] Hmixlen Hrun Hproposer.
  destruct (ProcessBlockRandao_Ok _ _ _ _ _ Hrun)
    as (proposerIndex & proposer & v & arr & mix & latestMix & Hfacts).
  rewrite (ProcessBlockRandao_run _ _ _ _ _ _ _ _ _ Hfacts) in Hrun.
  injection Hrun as <- <-.
  destruct Hfacts as [Hidx Hrange Harr Hptr Hval Hver Hlen Hmix Hxor].
  assert (Hinside : (mix_index s
                     < length (BeaconState.LatestRandaoMixesHash32S s))%nat)
    by by eapply lookup_lt_Some.
  assert (Hmix32 : ToBytes32 mix = mix) by (apply Hsame32; by apply Hmixlen).
  assert (Hlatest32 : ToBytes32 latestMix = latestMix).
  { apply Hsame32. rewrite (xor_into_length _ _ _ Hxor). apply Hlen32. }
  split; [reflexivity|]. split.
  - exists proposerIndex, (Validator.set_randao v
                             (BeaconBlock.RandaoRevealHash32 b) 0).
    split; [exact Hidx|]. split; [|by split].
    unfold registry_at, slice_index, randao_heap_after. simpl.
    rewrite bool_decide_eq_true_2 by exact Hrange. rewrite Harr, Hptr.
    simpl. unfold load. simpl. by rewrite lookup_insert_eq.
  - eexists _, _. split.
    + eapply (ProcessBlockRandao_run _ _ _ proposerIndex proposer
                (Validator.set_randao v (BeaconBlock.RandaoRevealHash32 b) 0)
                arr latestMix (ToBytes32 mix)).
      constructor; simpl; try assumption.
      * simpl in Hproposer. by rewrite Hproposer.
      * by rewrite lookup_insert_eq.
      * unfold verifyBlockRandao, RepeatHash. simpl.
        by rewrite bool_decide_eq_false_2 by (intros Hne; by apply Hne).
      * unfold mix_index. simpl. fold (mix_index s).
        by apply list_lookup_insert_eq.
      * rewrite Hlatest32. apply xor_into_involutive. exact Hxor.
    + unfold randao_state_after, mix_index. simpl. fold (mix_index s).
      rewrite list_lookup_insert_eq by (by rewrite length_insert).
      by rewrite Hmix32, Hmix.
Qed.

End Randao.

Lemma pad32_contract : ToBytes32_contract (env := sample_env).
Proof.
  split; intros x; simpl; unfold pad32.
  - rewrite length_take, length_app, length_replicate. lia.
  - intros Hx. rewrite take_app_length'; [reflexivity | by symmetry].
Qed.

(** C7 at slot 66 of the sample data: the proposer has committed to the
    reveal hashed twice; two runs bring the mix at index 2 back. *)
Lemma ProcessBlockRandao_twice_witness :
  ∃ s1 w1 s2 w2,
    ProcessBlockRandao (env := sample_env) randao_state randao_block
      randao_world = (Ok s1, w1) ∧
    BeaconState.LatestRandaoMixesHash32S s1 !! 2%nat
    = Some (replicate 16 173 ++ replicate 16 82) ∧
    ProcessBlockRandao (env := sample_env) s1 randao_block w1 = (Ok s2, w2) ∧
    BeaconState.LatestRandaoMixesHash32S s2 !! 2%nat
    = Some (replicate 32 7).
Proof.
  destruct (ProcessBlockRandao (env := sample_env) randao_state randao_block
              randao_world) as [r1 w1] eqn:Hrun.
  assert (Hfirst : ∃ s1, r1 = Ok s1 ∧
            BeaconState.LatestRandaoMixesHash32S s1 !! 2%nat
            = Some (replicate 16 173 ++ replicate 16 82)).
  { vm_compute in Hrun. injection Hrun as <- <-.
    eexists. split; reflexivity. }
  destruct Hfirst as (s1 & -> & Hmix1).
  destruct (ProcessBlockRandao_twice (env := sample_env) randao_state s1
              randao_block randao_world w1 pad32_contract)
    as (_ & _ & s2 & w2 & Hsecond & Hmix2).
  - intros mix Hmix. vm_compute in Hmix. by injection Hmix as <-.
  - exact Hrun.
  - reflexivity.
  - exists s1, w1, s2, w2. split; [reflexivity|]. split; [exact Hmix1|].
    split; [exact Hsecond|]. exact Hmix2.
Defined.

(** * The rest of the package: properties *)

(** ** The signature flag *)

Section SignatureFlag.
Context {env : Env}.

Lemma verifyProposerSlashing_flag (slashing : ProposerSlashing.t) :
  verifyProposerSlashing slashing true = verifyProposerSlashing slashing false.
Proof. unfold verifyProposerSlashing. by repeat case_scrutinee. Qed.

Lemma verifySlashableAttestation_flag (att : SlashableAttestation.t) :
  verifySlashableAttestation att true = verifySlashableAttestation att false.
Proof. unfold verifySlashableAttestation. by repeat case_scrutinee. Qed.

Lemma verifyAttesterSlashing_flag (slashing : AttesterSlashing.t) :
  verifyAttesterSlashing slashing true = verifyAttesterSlashing slashing false.
Proof.
  unfold verifyAttesterSlashing.
  by rewrite !verifySlashableAttestation_flag.
Qed.

Lemma verifyAttestation_flag (s : BeaconState.t) (att : Attestation.t) :
  verifyAttestation s att true = verifyAttestation s att false.
Proof.
  unfold verifyAttestation, mbind, Res_bind.
  by repeat case_scrutinee.
Qed.

Lemma verifyExit_flag (h : Heap) (s : BeaconState.t) (exit : Exit.t) :
  verifyExit h s exit true = verifyExit h s exit false.
Proof.
  unfold verifyExit, mbind, Res_bind. by repeat case_scrutinee.
Qed.

Lemma proposer_slashings_loop_flag (registry : slice)
    (slashings : list ProposerSlashing.t) :
  ∀ idx s w,
    proposer_slashings_loop registry true idx slashings s w
    = proposer_slashings_loop registry false idx slashings s w.
Proof.
  induction slashings as [|slashing rest IH]; intros idx s w; [reflexivity|].
  cbn [proposer_slashings_loop]. unfold mbind, M_bind, lift, reading, wrapping.
  rewrite verifyProposerSlashing_flag.
  destruct (wrap_check _ _) as [[]|e|]; try reflexivity.
  destruct (registry_at _ _ _) as [proposer|e|]; try reflexivity.
  destruct (_ >? _); [|apply IH].
  destruct (call_PenalizeValidator _ _ _) as [[s1|e|] w1]; try reflexivity.
  apply IH.
Qed.

Lemma attester_slashings_loop_flag (slashings : list AttesterSlashing.t) :
  ∀ idx s w,
    attester_slashings_loop true idx slashings s w
    = attester_slashings_loop false idx slashings s w.
Proof.
  induction slashings as [|slashing rest IH]; intros idx s w; [reflexivity|].
  cbn [attester_slashings_loop]. unfold mbind, M_bind, lift, reading.
  rewrite verifyAttesterSlashing_flag.
  destruct (wrap_check _ _) as [[]|e|]; try reflexivity.
  destruct (wrap_list_error _) as [indices|e|]; try reflexivity.
  destruct (penalize_loop indices s w) as [[s1|e|] w1]; try reflexivity.
  apply IH.
Qed.

Lemma attestations_loop_flag (s : BeaconState.t) (atts : list Attestation.t) :
  ∀ idx pending,
    attestations_loop s true idx atts pending
    = attestations_loop s false idx atts pending.
Proof.
  induction atts as [|a rest IH]; intros idx pending; [reflexivity|].
  cbn [attestations_loop]. unfold mbind, Res_bind.
  rewrite verifyAttestation_flag.
  destruct (wrap_check _ _) as [[]|e|]; try reflexivity.
  apply IH.
Qed.

Lemma exits_loop_flag (exits : list Exit.t) :
  ∀ idx s w,
    exits_loop true idx exits s w = exits_loop false idx exits s w.
Proof.
  induction exits as [|exit rest IH]; intros idx s w; [reflexivity|].
  cbn [exits_loop]. unfold mbind, M_bind, reading.
  rewrite verifyExit_flag.
  destruct (wrap_check _ _) as [[]|e|]; try reflexivity.
  destruct (call_InitiateValidatorExit _ _ _) as [[s1|e|] w1]; try reflexivity.
  apply IH.
Qed.

(** X1. No signature is ever verified. [VerifyProposerSignature] lets
    every block through that is not nil, and each of the four stages
    that take the flag [verifySignatures] ends in the same result and
    the same heap with the flag up as with the flag down. *)
Theorem signatures_never_checked :
  (∀ b, VerifyProposerSignature (Some b) = None) ∧
  (∀ s b w, ProcessProposerSlashings s b true w
            = ProcessProposerSlashings s b false w) ∧
  (∀ s b w, ProcessAttesterSlashings s b true w
            = ProcessAttesterSlashings s b false w) ∧
  (∀ s b, ProcessBlockAttestations s b true
          = ProcessBlockAttestations s b false) ∧
  (∀ s b w, ProcessValidatorExits s b true w
            = ProcessValidatorExits s b false w).
Proof.
  split; [reflexivity|]. split; [|split; [|split]].
  - intros s b w. unfold ProcessProposerSlashings.
    destruct (_ >? _); [reflexivity|]. apply proposer_slashings_loop_flag.
  - intros s b w. unfold ProcessAttesterSlashings.
    destruct (_ >? _); [reflexivity|]. apply attester_slashings_loop_flag.
  - intros s b. unfold ProcessBlockAttestations.
    destruct (_ >? _); [reflexivity|]. by rewrite attestations_loop_flag.
  - intros s b w. unfold ProcessValidatorExits.
    destruct (_ >? _); [reflexivity|]. unfold mbind, M_bind.
    by rewrite exits_loop_flag.
Qed.

End SignatureFlag.

(** ** The limits on the operation lists *)

Section Limits.
Context {env : Env}.

(** Reading the registry ends in a validator or in a panic. *)
Lemma registry_at_not_error (h : Heap) (sl : slice) (i : Z) (e : error) :
  registry_at h sl i ≠ Err e.
Proof.
  unfold registry_at, slice_index, load, mbind, Res_bind.
  repeat case_scrutinee; discriminate.
Qed.

(** The errors of the loops are wrapped: none is a limit error. *)
Lemma proposer_slashings_loop_error (registry : slice) (vs : bool)
    (slashings : list ProposerSlashing.t) :
  ∀ idx s w e w',
    proposer_slashings_loop registry vs idx slashings s w = (Err e, w') →
    (∃ k cause, e = ProposerSlashingInvalid k cause) ∨
    (∃ j cause, e = PenalizeProposerFailed j cause).
Proof.
  induction slashings as [|slashing rest IH]; intros idx s w e w' Hrun.
  - discriminate.
  - cbn [proposer_slashings_loop] in Hrun.
    unfold mbind, M_bind, lift, reading, wrapping in Hrun.
    destruct (verifyProposerSlashing slashing vs) as [[]|e0|]; simpl in Hrun;
      [|injection Hrun as <- <-; left; eauto | discriminate].
    destruct (registry_at _ _ _) as [proposer|e0|] eqn:Hread;
      [|by apply registry_at_not_error in Hread | discriminate].
    destruct (_ >? _); [|by eapply IH].
    destruct (call_PenalizeValidator _ _ _) as [[s1|e1|] w1];
      [by eapply IH | injection Hrun as <- <-; right; eauto | discriminate].
Qed.

Lemma penalize_loop_error (indices : list Z) :
  ∀ s w e w',
    penalize_loop indices s w = (Err e, w') →
    ∃ j cause, e = PenalizeValidatorFailed j cause.
Proof.
  induction indices as [|j rest IH]; intros s w e w' Hrun; [discriminate|].
  cbn [penalize_loop] in Hrun. unfold mbind, M_bind, wrapping in Hrun.
  destruct (call_PenalizeValidator _ _ _) as [[s1|e1|] w1];
    [by eapply IH | injection Hrun as <- <-; eauto | discriminate].
Qed.

Lemma attester_slashings_loop_error (vs : bool)
    (slashings : list AttesterSlashing.t) :
  ∀ idx s w e w',
    attester_slashings_loop vs idx slashings s w = (Err e, w') →
    e ≠ TooManyAttesterSlashings.
Proof.
  induction slashings as [|slashing rest IH]; intros idx s w e w' Hrun.
  - discriminate.
  - cbn [attester_slashings_loop] in Hrun.
    unfold mbind, M_bind, lift, reading in Hrun.
    destruct (verifyAttesterSlashing slashing vs) as [[]|e0|]; simpl in Hrun;
      [|by injection Hrun as <- <- | discriminate].
    destruct (attesterSlashableIndices _ _ _) as [indices|e0|];
      simpl in Hrun; [|by injection Hrun as <- <- | discriminate].
    destruct (penalize_loop indices s w) as [[s1|e1|] w1] eqn:Hloop;
      [by eapply IH | | discriminate].
    injection Hrun as <- <-.
    by destruct (penalize_loop_error _ _ _ _ _ Hloop) as (j & cause & ->).
Qed.

Lemma attestations_loop_error (s : BeaconState.t) (vs : bool)
    (atts : list Attestation.t) :
  ∀ idx pending e,
    attestations_loop s vs idx atts pending = Err e →
    ∃ k cause, e = AttestationInvalid k cause.
Proof.
  induction atts as [|a rest IH]; intros idx pending e Hrun; [discriminate|].
  cbn [attestations_loop] in Hrun. unfold mbind, Res_bind in Hrun.
  destruct (verifyAttestation s a vs) as [[]|e0|]; simpl in Hrun;
    [by eapply IH | injection Hrun as <-; eauto | discriminate].
Qed.

Lemma exits_loop_error (vs : bool) (exits : list Exit.t) :
  ∀ idx s w e w',
    exits_loop vs idx exits s w = (Err e, w') →
    ∃ k cause, e = ExitInvalid k cause.
Proof.
  induction exits as [|exit rest IH]; intros idx s w e w' Hrun; [discriminate|].
  cbn [exits_loop] in Hrun. unfold mbind, M_bind, reading in Hrun.
  destruct (verifyExit (heap w) s exit vs) as [[]|e0|]; simpl in Hrun;
    [|injection Hrun as <- <-; eauto | discriminate].
  unfold call_InitiateValidatorExit in Hrun.
  destruct (InitiateValidatorExit _ _ _) as [s1 h1]. by eapply IH.
Qed.

(** X2. Each stage ends in its limit error exactly when its list is
    longer than the limit, whatever the entries are; the heap is then
    untouched and no registry mutator has been called. No other failure
    of a stage is reported as a limit error. *)
Theorem limit_errors :
  (∀ s b vs w w',
     ProcessProposerSlashings s b vs w = (Err TooManyProposerSlashings, w') ↔
     Z.of_nat (length (BeaconBlockBody.ProposerSlashings (BeaconBlock.Body b)))
       > MaxProposerSlashings BeaconConfig ∧ w' = w) ∧
  (∀ s b vs w w',
     ProcessAttesterSlashings s b vs w = (Err TooManyAttesterSlashings, w') ↔
     Z.of_nat (length (BeaconBlockBody.AttesterSlashings (BeaconBlock.Body b)))
       > MaxAttesterSlashings BeaconConfig ∧ w' = w) ∧
  (∀ s b vs,
     ProcessBlockAttestations s b vs = Err TooManyAttestations ↔
     Z.of_nat (length (BeaconBlockBody.Attestations (BeaconBlock.Body b)))
       > MaxAttestations BeaconConfig) ∧
  (∀ s b vs w w',
     ProcessValidatorExits s b vs w = (Err TooManyExits, w') ↔
     Z.of_nat (length (BeaconBlockBody.Exits (BeaconBlock.Body b)))
       > MaxExits BeaconConfig ∧ w' = w).
Proof.
  split; [|split; [|split]].
  - intros s b vs w w'. unfold ProcessProposerSlashings.
    destruct (Z.gtb_spec
                (Z.of_nat (length (BeaconBlockBody.ProposerSlashings
                                     (BeaconBlock.Body b))))
                (MaxProposerSlashings BeaconConfig)) as [Hgt|Hle].
    + unfold fail. split; [intros [= <-]; split; [lia | reflexivity]
                          | by intros [_ ->]].
    + split; [|lia]. intros Hrun.
      destruct (proposer_slashings_loop_error _ _ _ _ _ _ _ _ Hrun)
        as [(k & cause & Heq) | (j & cause & Heq)]; discriminate.
  - intros s b vs w w'. unfold ProcessAttesterSlashings.
    destruct (Z.gtb_spec
                (Z.of_nat (length (BeaconBlockBody.AttesterSlashings
                                     (BeaconBlock.Body b))))
                (MaxAttesterSlashings BeaconConfig)) as [Hgt|Hle].
    + unfold fail. split; [intros [= <-]; split; [lia | reflexivity]
                          | by intros [_ ->]].
    + split; [|lia]. intros Hrun.
      by destruct (attester_slashings_loop_error _ _ _ _ _ _ _ Hrun).
  - intros s b vs. unfold ProcessBlockAttestations.
    destruct (Z.gtb_spec
                (Z.of_nat (length (BeaconBlockBody.Attestations
                                     (BeaconBlock.Body b))))
                (MaxAttestations BeaconConfig)) as [Hgt|Hle].
    + split; [lia | reflexivity].
    + split; [|lia]. unfold mbind, Res_bind.
      destruct (attestations_loop s vs 0 _ []) as [pending|e|] eqn:Hloop;
        try discriminate.
      intros [= ->].
      destruct (attestations_loop_error _ _ _ _ _ _ Hloop)
        as (k & cause & Heq). discriminate.
  - intros s b vs w w'. unfold ProcessValidatorExits.
    destruct (Z.gtb_spec
                (Z.of_nat (length (BeaconBlockBody.Exits (BeaconBlock.Body b))))
                (MaxExits BeaconConfig)) as [Hgt|Hle].
    + unfold fail. split; [intros [= <-]; split; [lia | reflexivity]
                          | by intros [_ ->]].
    + split; [|lia]. unfold mbind, M_bind.
      destruct (exits_loop vs 0 _ s w) as [[s1|e|] w1] eqn:Hloop;
        try discriminate.
      intros [= -> ->].
      destruct (exits_loop_error _ _ _ _ _ _ _ Hloop) as (k & cause & Heq).
      discriminate.
Qed.

End Limits.

(** ** ProcessBlockRandao: failures and frame *)

Section RandaoFrame.
Context {env : Env}.

(** What the loop over the reveal computes: the bytes of the mix under
    the reveal are XORed, the others stay; a reveal longer than the mix
    runs off its end. *)
Lemma xor_into_spec (reveal : list Z) :
  ∀ mix,
    xor_into mix reveal
    = if bool_decide (length reveal ≤ length mix)%nat
      then Some (zip_with Z.lxor mix reveal ++ drop (length reveal) mix)
      else None.
Proof.
  induction reveal as [|x reveal IH]; intros mix.
  - cbn [xor_into length]. rewrite bool_decide_eq_true_2 by lia.
    rewrite drop_0. by destruct mix.
  - destruct mix as [|m mix]; cbn [xor_into length].
    + rewrite bool_decide_eq_false_2 by lia. reflexivity.
    + rewrite IH.
      destruct (decide (length reveal ≤ length mix)%nat).
      * rewrite !bool_decide_eq_true_2 by lia. reflexivity.
      * rewrite !bool_decide_eq_false_2 by lia. reflexivity.
Qed.

(** A run either meets every condition of success or stops before its
    first write. *)
Lemma ProcessBlockRandao_cases (s : BeaconState.t) (b : BeaconBlock.t)
    (w : World) :
  (∃ proposerIndex proposer v arr mix latestMix,
     randao_run s b (heap w) proposerIndex proposer v arr mix latestMix) ∨
  (∃ r, ProcessBlockRandao s b w = (r, w) ∧ ∀ s', r ≠ Ok s').
Proof.
  unfold ProcessBlockRandao.
  unfold mbind at 1, M_bind at 1, wrapping, reading.
  destruct (BeaconProposerIdx (heap w) s (BeaconState.Slot s))
    as [proposerIndex|e|] eqn:Hidx; [|right; eauto..].
  unfold mbind at 1, M_bind at 1. unfold slice_index.
  case_bool_decide as Hrange; [|right; eauto].
  destruct (registries (heap w) !! sl_arr (BeaconState.ValidatorRegistry s))
    as [arr|] eqn:Harr; [|right; eauto].
  destruct (arr !! Z.to_nat proposerIndex) as [proposer|] eqn:Hptr;
    [|right; eauto].
  unfold mbind at 1, M_bind at 1. unfold load.
  destruct (validators (heap w) !! proposer) as [v|] eqn:Hval; [|right; eauto].
  unfold mbind at 1, M_bind at 1, lift.
  destruct (verifyBlockRandao v b) as [[]|e|] eqn:Hver; simpl;
    [|right; eauto..].
  case_bool_decide as Hlen; [right; eauto|].
  destruct (BeaconState.LatestRandaoMixesHash32S s
              !! Z.to_nat (BeaconState.Slot s
                           `mod` LatestRandaoMixesLength BeaconConfig))
    as [mix|] eqn:Hmix; [|right; eauto].
  destruct (xor_into (ToBytes32 mix) (BeaconBlock.RandaoRevealHash32 b))
    as [latestMix|] eqn:Hxor; [|right; eauto].
  left. exists proposerIndex, proposer, v, arr, mix, latestMix.
  by constructor.
Qed.

(** X3. [ProcessBlockRandao] writes nothing before its last check: a run
    that does not succeed, be it an error or a panic, leaves the heap
    (and so every validator) as it found it. *)
Theorem ProcessBlockRandao_fails_clean (s : BeaconState.t) (b : BeaconBlock.t)
    (w w' : World) (r : Res BeaconState.t) :
  ProcessBlockRandao s b w = (r, w') →
  (∀ s', r ≠ Ok s') →
  w' = w.
Proof.
  intros Hrun Hfail.
  destruct (ProcessBlockRandao_cases s b w)
    as [(pi & p & v & arr & mix & latestMix & Hfacts) | (r0 & Hrun0 & _)].
  - rewrite (ProcessBlockRandao_run _ _ _ _ _ _ _ _ _ Hfacts) in Hrun.
    injection Hrun as <- <-. by destruct (Hfail _ eq_refl).
  - rewrite Hrun0 in Hrun. by injection Hrun as <- <-.
Qed.

(** X4. What a successful [ProcessBlockRandao] leaves alone: every field
    of the state but the randao mixes; the length of the ring of mixes
    and every mix but the one at the index of the slot; the backing
    arrays of the registry; the call log; every validator object but the
    proposer's, of which only the randao commitment and layers change. *)
Theorem ProcessBlockRandao_frame (s s1 : BeaconState.t) (b : BeaconBlock.t)
    (w w1 : World) :
  ProcessBlockRandao s b w = (Ok s1, w1) →
  s1 = BeaconState.set_LatestRandaoMixesHash32S s
         (BeaconState.LatestRandaoMixesHash32S s1) ∧
  length (BeaconState.LatestRandaoMixesHash32S s1)
  = length (BeaconState.LatestRandaoMixesHash32S s) ∧
  (∀ j, j ≠ mix_index s →
        BeaconState.LatestRandaoMixesHash32S s1 !! j
        = BeaconState.LatestRandaoMixesHash32S s !! j) ∧
  registries (heap w1) = registries (heap w) ∧
  calls w1 = calls w ∧
  ∃ proposerIndex proposer v,
    BeaconProposerIdx (heap w) s (BeaconState.Slot s) = Ok proposerIndex ∧
    slice_index (heap w) (BeaconState.ValidatorRegistry s) proposerIndex
    = Ok proposer ∧
    validators (heap w) !! proposer = Some v ∧
    validators (heap w1) !! proposer
    = Some (Validator.set_randao v (BeaconBlock.RandaoRevealHash32 b) 0) ∧
    ∀ q, q ≠ proposer → validators (heap w1) !! q = validators (heap w) !! q.
Proof.
  intros Hrun.
  destruct (ProcessBlockRandao_Ok _ _ _ _ _ Hrun)
    as (proposerIndex & proposer & v & arr & mix & latestMix & Hfacts).
  rewrite (ProcessBlockRandao_run _ _ _ _ _ _ _ _ _ Hfacts) in Hrun.
  injection Hrun as <- <-.
  destruct Hfacts as [Hidx Hrange Harr Hptr Hval Hver Hlen Hmix Hxor].
  unfold randao_state_after, randao_heap_after. simpl.
  split; [by destruct s|]. split; [apply length_insert|].
  split; [intros j Hj; by apply list_lookup_insert_ne|].
  split; [reflexivity|]. split; [reflexivity|].
  exists proposerIndex, proposer, v.
  split; [exact Hidx|]. split.
  { unfold slice_index. rewrite bool_decide_eq_true_2 by exact Hrange.
    by rewrite Harr, Hptr. }
  split; [exact Hval|]. split; [apply lookup_insert_eq|].
  intros q Hq. by apply lookup_insert_ne.
Qed.

(** X5. The new mix: the bytes of the old mix, made 32 bytes long by
    [ToBytes32], with the reveal XORed over its first bytes; the bytes
    past the end of a short reveal are those of the old mix. *)
Theorem ProcessBlockRandao_mix (s s1 : BeaconState.t) (b : BeaconBlock.t)
    (w w1 : World) :
  ProcessBlockRandao s b w = (Ok s1, w1) →
  ∃ mix,
    BeaconState.LatestRandaoMixesHash32S s !! mix_index s = Some mix ∧
    (length (BeaconBlock.RandaoRevealHash32 b) ≤ length (ToBytes32 mix))%nat ∧
    BeaconState.LatestRandaoMixesHash32S s1 !! mix_index s
    = Some (zip_with Z.lxor (ToBytes32 mix) (BeaconBlock.RandaoRevealHash32 b)
            ++ drop (length (BeaconBlock.RandaoRevealHash32 b))
                    (ToBytes32 mix)).
Proof.
  intros Hrun.
  destruct (ProcessBlockRandao_Ok _ _ _ _ _ Hrun)
    as (proposerIndex & proposer & v & arr & mix & latestMix & Hfacts).
  rewrite (ProcessBlockRandao_run _ _ _ _ _ _ _ _ _ Hfacts) in Hrun.
  injection Hrun as <- <-.
  destruct Hfacts as [Hidx Hrange Harr Hptr Hval Hver Hlen Hmix Hxor].
  exists mix. split; [exact Hmix|].
  rewrite xor_into_spec in Hxor. case_bool_decide as Hshort; [|discriminate].
  injection Hxor as <-. split; [exact Hshort|].
  unfold randao_state_after. simpl.
  apply list_lookup_insert_eq. by eapply lookup_lt_Some.
Qed.

(** X6. A reveal longer than the 32 bytes that [ToBytes32] yields is
    never accepted: the verification of the commitment looks at its
    first 32 bytes only, and the loop that mixes it in runs off the end
    of the array. *)
Theorem ProcessBlockRandao_long_reveal (s : BeaconState.t) (b : BeaconBlock.t)
    (w : World) :
  (∀ x, length (ToBytes32 x) = 32%nat) →
  (32 < length (BeaconBlock.RandaoRevealHash32 b))%nat →
  ∃ r, ProcessBlockRandao s b w = (r, w) ∧ ∀ s', r ≠ Ok s'.
Proof.
  intros Hlen32 Hlong.
  destruct (ProcessBlockRandao_cases s b w)
    as [(pi & p & v & arr & mix & latestMix & Hfacts) | Hstop];
    [|exact Hstop].
  destruct Hfacts as [_ _ _ _ _ _ _ _ Hxor].
  rewrite xor_into_spec, bool_decide_eq_false_2 in Hxor; [discriminate|].
  rewrite Hlen32. lia.
Qed.

End RandaoFrame.

(** X3 where the reveal does not match the commitment of the proposer. *)
Lemma ProcessBlockRandao_fails_clean_witness :
  ProcessBlockRandao (env := sample_env) randao_state
    (BeaconBlock.mk zero32 eth1_D empty_body) randao_world
  = (Err (RandaoVerifyFailed RandaoMismatch), randao_world).
Proof.
  destruct (ProcessBlockRandao (env := sample_env) randao_state
              (BeaconBlock.mk zero32 eth1_D empty_body) randao_world)
    as [r w'] eqn:Hrun.
  assert (Hr : r = Err (RandaoVerifyFailed RandaoMismatch)).
  { vm_compute in Hrun. by injection Hrun as <- _. }
  subst r. f_equal.
  eapply (ProcessBlockRandao_fails_clean (env := sample_env));
    [exact Hrun | discriminate].
Defined.

(** X4 and X5 on the sample data. *)
Lemma ProcessBlockRandao_frame_witness :
  ∃ s1 w1,
    ProcessBlockRandao (env := sample_env) randao_state randao_block
      randao_world = (Ok s1, w1) ∧
    BeaconState.LatestRandaoMixesHash32S s1 !! 1%nat = Some zero32 ∧
    validators (heap w1) !! 2%positive = Some (fresh_validator 1).
Proof.
  destruct (ProcessBlockRandao (env := sample_env) randao_state randao_block
              randao_world) as [r w1] eqn:Hrun.
  assert (Hok : ∃ s1, r = Ok s1).
  { vm_compute in Hrun. injection Hrun as <- _. eauto. }
  destruct Hok as [s1 ->]. exists s1, w1. split; [reflexivity|].
  destruct (ProcessBlockRandao_frame (env := sample_env) _ _ _ _ _ Hrun)
    as (_ & _ & Hmixes & _ & _ & pi & p & v & Hpi & Hp & _ & _ & Hothers).
  split.
  - rewrite Hmixes; [reflexivity | vm_compute; discriminate].
  - vm_compute in Hpi. injection Hpi as <-.
    vm_compute in Hp. injection Hp as <-.
    rewrite Hothers; [reflexivity | discriminate].
Defined.

Lemma ProcessBlockRandao_mix_witness :
  ∃ s1 w1,
    ProcessBlockRandao (env := sample_env) randao_state short_reveal_block
      (mkWorld short_reveal_heap []) = (Ok s1, w1) ∧
    BeaconState.LatestRandaoMixesHash32S s1 !! 2%nat
    = Some ([173; 82] ++ replicate 30 7).
Proof.
  destruct (ProcessBlockRandao (env := sample_env) randao_state
              short_reveal_block (mkWorld short_reveal_heap []))
    as [r w1] eqn:Hrun.
  assert (Hok : ∃ s1, r = Ok s1).
  { vm_compute in Hrun. injection Hrun as <- _. eauto. }
  destruct Hok as [s1 ->]. exists s1, w1. split; [reflexivity|].
  destruct (ProcessBlockRandao_mix (env := sample_env) _ _ _ _ _ Hrun)
    as (mix & Hmix & _ & Hnew).
  vm_compute in Hmix. injection Hmix as <-.
  exact Hnew.
Defined.

(** X6 on a reveal of 33 bytes that matches the commitment: a panic. *)
Lemma ProcessBlockRandao_long_reveal_witness :
  ProcessBlockRandao (env := sample_env) randao_state long_reveal_block
    randao_world = (Panic, randao_world).
Proof.
  destruct (ProcessBlockRandao_long_reveal (env := sample_env) randao_state
              long_reveal_block randao_world) as (r & Hrun & _).
  - intros x. simpl. unfold pad32.
    rewrite length_take, length_app, length_replicate. lia.
  - vm_compute. lia.
  - rewrite Hrun. f_equal. vm_compute in Hrun. by injection Hrun as <-.
Defined.

(** ** Attestations: acceptance, first failure, order *)

Section AttestationsMore.
Context {env : Env}.

(** X7. The attestations [verifyAttestation] accepts: inside the
    inclusion window (64-bit sums); with the justified epoch of the
    state, or its previous one when the attestation is older than the
    current epoch; with the block root of that epoch's start slot, which
    [BlockRoot] must find; with an empty shard block root; and for a
    shard inside [latest_crosslinks] whose root there is the
    attestation's crosslink root or is itself empty. Because of the
    empty shard block root, the second alternative of the crosslink
    check holds only where the state's own root is empty. *)
Theorem verifyAttestation_accepts (s : BeaconState.t) (att : Attestation.t)
    (vs : bool) :
  let d := Attestation.Data att in
  verifyAttestation s att vs = OK ↔
  wrap64 (AttestationData.Slot d + MinAttestationInclusionDelay BeaconConfig)
    <= BeaconState.Slot s ∧
  BeaconState.Slot s
    <= wrap64 (AttestationData.Slot d + EpochLength BeaconConfig) ∧
  AttestationData.JustifiedEpoch d
  = (if AttestationData.Slot d >=? StartSlot (SlotToEpoch (BeaconState.Slot s))
     then BeaconState.JustifiedEpoch s
     else BeaconState.PreviousJustifiedEpoch s) ∧
  BlockRoot s (StartSlot (AttestationData.JustifiedEpoch d))
  = Ok (AttestationData.JustifiedBlockRootHash32 d) ∧
  AttestationData.ShardBlockRootHash32 d = [] ∧
  0 <= AttestationData.Shard d ∧
  ∃ crosslink,
    BeaconState.LatestCrosslinks s !! Z.to_nat (AttestationData.Shard d)
    = Some crosslink ∧
    (AttestationData.LatestCrosslinkRootHash32 d
     = CrosslinkRecord.ShardBlockRootHash32 crosslink ∨
     CrosslinkRecord.ShardBlockRootHash32 crosslink = []).
Proof.
  intros d. subst d. unfold verifyAttestation, mbind, Res_bind. split.
  - intros Hrun.
    repeat (step_in Hrun; try discriminate).
    all: repeat match goal with
           | H : negb _ = false |- _ => apply negb_false_iff in H
           | H : (_ || _) = true |- _ =>
               apply orb_true_iff in H; destruct H as [H|H]
           | H : bytes_Equal _ _ = true |- _ => apply bytes_Equal_true in H
           | H : bool_decide _ = true |- _ => apply bool_decide_eq_true in H
           | H : bool_decide (?x ≠ ?y) = false |- _ =>
               apply bool_decide_eq_false in H;
               assert (x = y) by (by destruct (decide (x = y)));
               clear H
           | H : (_ >? _) = false |- _ =>
               rewrite Z.gtb_ltb in H; apply Z.ltb_ge in H
           | H : (_ <? _) = false |- _ => apply Z.ltb_ge in H
           end.
    all: subst.
    all: repeat split; try assumption; try lia.
    all: eexists; (split; [reflexivity|]).
    all: first [by left | right; congruence].
  - intros (Hrecent & Hstale & Hjust & Hroot & Hempty & Hshard & crosslink
            & Hlook & Hcross).
    match goal with
    | |- context [?x >? ?y] => destruct (Z.gtb_spec x y)
    end; [lia|].
    match goal with
    | |- context [?x <? ?y] => destruct (Z.ltb_spec x y)
    end; [lia|].
    rewrite Hroot, Hempty, Hlook.
    assert (Hself : ∀ x, bytes_Equal x x = true)
      by (intros x; by apply bytes_Equal_true).
    rewrite Hself. simpl.
    assert (Hor : bytes_Equal
                    (AttestationData.LatestCrosslinkRootHash32
                       (Attestation.Data att))
                    (CrosslinkRecord.ShardBlockRootHash32 crosslink)
                  || bytes_Equal []
                       (CrosslinkRecord.ShardBlockRootHash32 crosslink)
                  = true).
    { apply orb_true_iff. destruct Hcross as [->| ->]; [left|right];
        apply Hself. }
    rewrite Hor. simpl.
    match goal with
    | |- context [?x >=? ?y] => destruct (x >=? y)
    end; repeat case_bool_decide; simpl; try congruence; try lia;
      by destruct vs.
Qed.

Lemma attestations_loop_app (s : BeaconState.t) (vs : bool)
    (pre rest : list Attestation.t) :
  Forall (λ a, verifyAttestation s a vs = OK) pre →
  ∀ idx pending,
    attestations_loop s vs idx (pre ++ rest) pending
    = attestations_loop s vs (idx + length pre) rest
        (pending ++ map (pending_of s) pre).
Proof.
  induction 1 as [|a pre Ha _ IH]; intros idx pending; simpl.
  - by rewrite Nat.add_0_r, app_nil_r.
  - rewrite Ha. simpl. rewrite IH, <- app_assoc.
    by replace (S idx + length pre)%nat with (idx + S (length pre))%nat by lia.
Qed.

(** X8. The failure of [ProcessBlockAttestations] names the first
    attestation that does not verify: when the attestations before
    position [k] verify and the one at [k] ends in an error, the stage
    returns that error under the index [k], whatever follows it; when it
    ends in a panic, so does the stage. *)
Theorem ProcessBlockAttestations_first_failure (s : BeaconState.t)
    (b : BeaconBlock.t) (vs : bool) (pre post : list Attestation.t)
    (a : Attestation.t) :
  BeaconBlockBody.Attestations (BeaconBlock.Body b) = pre ++ a :: post →
  Z.of_nat (length (pre ++ a :: post)) <= MaxAttestations BeaconConfig →
  Forall (λ a, verifyAttestation s a vs = OK) pre →
  (∀ e, verifyAttestation s a vs = Err e →
        ProcessBlockAttestations s b vs
        = Err (AttestationInvalid (length pre) e)) ∧
  (verifyAttestation s a vs = Panic →
   ProcessBlockAttestations s b vs = Panic).
Proof.
  intros Hbody Hmax Hpre. unfold ProcessBlockAttestations. rewrite Hbody.
  destruct (Z.gtb_spec (Z.of_nat (length (pre ++ a :: post)))
              (MaxAttestations BeaconConfig)); [lia|].
  rewrite (attestations_loop_app s vs pre (a :: post) Hpre).
  cbn [attestations_loop]. unfold mbind, Res_bind.
  split; [intros e Hfail | intros Hfail]; by rewrite Hfail.
Qed.

(** The stage succeeds exactly on the blocks within the limit whose
    attestations all verify. *)
Lemma ProcessBlockAttestations_Ok (s s' : BeaconState.t) (b : BeaconBlock.t)
    (vs : bool) :
  ProcessBlockAttestations s b vs = Ok s' ↔
  Z.of_nat (length (BeaconBlockBody.Attestations (BeaconBlock.Body b)))
    <= MaxAttestations BeaconConfig ∧
  Forall (λ a, verifyAttestation s a vs = OK)
         (BeaconBlockBody.Attestations (BeaconBlock.Body b)) ∧
  s' = BeaconState.set_LatestAttestations s
         (map (pending_of s)
              (BeaconBlockBody.Attestations (BeaconBlock.Body b))).
Proof.
  unfold ProcessBlockAttestations.
  destruct (Z.gtb_spec
              (Z.of_nat (length (BeaconBlockBody.Attestations
                                   (BeaconBlock.Body b))))
              (MaxAttestations BeaconConfig)) as [Hgt|Hle].
  { split; [discriminate | lia]. }
  unfold mbind, Res_bind. split.
  - destruct (attestations_loop s vs 0 _ []) as [pending|e|] eqn:Hloop;
      try discriminate.
    intros [= <-].
    pose proof (attestations_loop_inv _ _ _ _ _ _ Hloop) as Hall.
    rewrite (attestations_loop_ok s vs _ Hall) in Hloop.
    injection Hloop as <-. by repeat split.
  - intros (_ & Hall & ->). by rewrite (attestations_loop_ok s vs _ Hall).
Qed.

(** X9. Whether a block's attestations are accepted does not depend on
    their order, and the records follow the order of the block: if the
    stage succeeds on a block, it succeeds on every block with the same
    attestations in another order, and it leaves the same records,
    permuted the same way. *)
Theorem ProcessBlockAttestations_order (s s' : BeaconState.t)
    (b b' : BeaconBlock.t) (vs : bool) :
  BeaconBlockBody.Attestations (BeaconBlock.Body b)
    ≡ₚ BeaconBlockBody.Attestations (BeaconBlock.Body b') →
  ProcessBlockAttestations s b vs = Ok s' →
  ∃ s'',
    ProcessBlockAttestations s b' vs = Ok s'' ∧
    BeaconState.LatestAttestations s''
    = map (pending_of s) (BeaconBlockBody.Attestations (BeaconBlock.Body b')) ∧
    BeaconState.LatestAttestations s' ≡ₚ BeaconState.LatestAttestations s''.
Proof.
  intros Hperm Hrun.
  apply ProcessBlockAttestations_Ok in Hrun as (Hmax & Hall & ->).
  exists (BeaconState.set_LatestAttestations s
            (map (pending_of s)
                 (BeaconBlockBody.Attestations (BeaconBlock.Body b')))).
  split; [|split; [reflexivity|]].
  - apply ProcessBlockAttestations_Ok. split; [|split; [|reflexivity]].
    + by rewrite <- Hperm.
    + by rewrite <- Hperm.
  - simpl. by apply fmap_Permutation.
Qed.

End AttestationsMore.

(** X8 and X9 on blocks of the sample data. *)
Lemma ProcessBlockAttestations_first_failure_witness :
  ProcessBlockAttestations (env := sample_env) (sample_state 100)
    (attestations_block
       [sample_attestation 96 []; sample_attestation 97 [];
        sample_attestation 35 []]) false
  = Err (AttestationInvalid 1 AttestationTooRecent).
Proof.
  eapply (ProcessBlockAttestations_first_failure (env := sample_env)
            (sample_state 100) _ false [sample_attestation 96 []]
            [sample_attestation 35 []] (sample_attestation 97 [])).
  - reflexivity.
  - vm_compute. discriminate.
  - repeat constructor.
  - reflexivity.
Defined.

Lemma ProcessBlockAttestations_order_witness :
  ∃ s'',
    ProcessBlockAttestations (env := sample_env) (sample_state 100)
      (attestations_block [sample_attestation 90 []; sample_attestation 96 []])
      false = Ok s'' ∧
    BeaconState.LatestAttestations s''
    = [pending_of (sample_state 100) (sample_attestation 90 []);
       pending_of (sample_state 100) (sample_attestation 96 [])].
Proof.
  destruct (ProcessBlockAttestations_order (env := sample_env)
              (sample_state 100)
              (BeaconState.set_LatestAttestations (sample_state 100)
                 (map (pending_of (sample_state 100))
                      [sample_attestation 96 []; sample_attestation 90 []]))
              (attestations_block
                 [sample_attestation 96 []; sample_attestation 90 []])
              (attestations_block
                 [sample_attestation 90 []; sample_attestation 96 []])
              false) as (s'' & Hrun & Hlist & _).
  - simpl. apply Permutation_swap.
  - vm_compute. reflexivity.
  - exists s''. split; [exact Hrun | exact Hlist].
Defined.

Lemma verifyAttestation_accepts_witness :
  verifyAttestation (env := sample_env) (sample_state 100)
    (sample_attestation 96 []) false = OK.
Proof.
  apply (verifyAttestation_accepts (env := sample_env)).
  repeat split; try (vm_compute; congruence).
  eexists. split; [reflexivity|]. by left.
Defined.

(** ** Slashable attestations *)

Section SlashableMore.
Context {env : Env}.

(** X10. The slashable attestations [verifySlashableAttestation]
    accepts: some byte of the custody bitfield is not zero (an empty
    bitfield counts as all zero); the validator indices are not empty
    and strictly ascending; the bitfield has [CeilDiv8] of their number
    bytes; and their number is within the limit. *)
Theorem verifySlashableAttestation_accepts (att : SlashableAttestation.t)
    (vs : bool) :
  let indices := SlashableAttestation.ValidatorIndices att in
  let custody := SlashableAttestation.CustodyBitfield att in
  verifySlashableAttestation att vs = OK ↔
  Exists (λ x, x ≠ 0) custody ∧
  indices ≠ [] ∧
  strictly_ascending indices ∧
  Z.of_nat (length custody) = CeilDiv8 (Z.of_nat (length indices)) ∧
  Z.of_nat (length indices) <= MaxIndicesPerSlashableVote BeaconConfig.
Proof.
  intros indices custody. subst indices custody.
  unfold verifySlashableAttestation, bytes_Equal.
  rewrite <- indices_loop_spec.
  destruct (indices_loop (SlashableAttestation.ValidatorIndices att)).
  2: { simpl. repeat case_bool_decide; split; try discriminate;
       by intros (_ & _ & ? & _). }
  simpl. case_bool_decide as Hzero.
  { split; [discriminate|]. intros (Hex & _).
    apply all_zero_replicate in Hzero. apply Exists_exists in Hex.
    destruct Hex as (x & Hx & Hne). rewrite Forall_forall in Hzero.
    by specialize (Hzero x Hx). }
  assert (Hex : Exists (λ x, x ≠ 0) (SlashableAttestation.CustodyBitfield att)).
  { apply not_Forall_Exists; [intros x; apply _|].
    intros Hall. apply Hzero. by apply all_zero_replicate. }
  case_bool_decide as Hnil.
  { split; [discriminate|]. intros (_ & Hne & _).
    by destruct (SlashableAttestation.ValidatorIndices att). }
  case_bool_decide as Hlen.
  { split; [discriminate|]. by intros (_ & _ & _ & ? & _). }
  destruct (Z.gtb_spec
              (Z.of_nat (length (SlashableAttestation.ValidatorIndices att)))
              (MaxIndicesPerSlashableVote BeaconConfig)) as [Hgt|Hle].
  { split; [discriminate|]. intros (_ & _ & _ & _ & ?). lia. }
  split; [intros _ | by destruct vs].
  repeat (split; try done).
  intros Heq. by rewrite Heq in Hnil.
Qed.

(** Strictly ascending lists grow along any two positions. *)
Lemma strictly_ascending_lookup (indices : list Z) :
  strictly_ascending indices →
  ∀ (i j : nat) (a b : Z),
    (i < j)%nat → indices !! i = Some a → indices !! j = Some b → a < b.
Proof.
  intros Hasc i j. revert i.
  induction j as [|j IH]; intros i a b Hij Ha Hb; [lia|].
  destruct (decide (i = j)) as [->|Hne].
  - by apply (Hasc j).
  - destruct (lookup_lt_is_Some_2 indices j) as [c Hc].
    { apply lookup_lt_Some in Hb. lia. }
    assert (a < c) by (apply (IH i a c); [lia | done | done]).
    assert (c < b) by by apply (Hasc j).
    lia.
Qed.

Lemma strictly_ascending_NoDup (indices : list Z) :
  strictly_ascending indices → NoDup indices.
Proof.
  intros Hasc. apply NoDup_alt. intros i j x Hi Hj.
  destruct (Nat.lt_trichotomy i j) as [Hlt | [-> | Hgt]]; [|reflexivity|].
  - pose proof (strictly_ascending_lookup _ Hasc i j x x Hlt Hi Hj). lia.
  - pose proof (strictly_ascending_lookup _ Hasc j i x x Hgt Hj Hi). lia.
Qed.

Lemma verifySlashableAttestation_OK_ascending (att : SlashableAttestation.t)
    (vs : bool) :
  verifySlashableAttestation att vs = OK →
  strictly_ascending (SlashableAttestation.ValidatorIndices att).
Proof.
  unfold verifySlashableAttestation.
  destruct (indices_loop (SlashableAttestation.ValidatorIndices att))
    eqn:Hloop; [intros _; by apply indices_loop_spec|].
  simpl. repeat case_scrutinee; discriminate.
Qed.

Lemma verified_indices_NoDup (att : SlashableAttestation.t) (vs : bool) :
  verifySlashableAttestation att vs = OK →
  NoDup (SlashableAttestation.ValidatorIndices att).
Proof.
  intros Hok. apply strictly_ascending_NoDup.
  by eapply verifySlashableAttestation_OK_ascending.
Qed.

(** X11. In a slashable attestation that [verifySlashableAttestation]
    accepts no validator index occurs twice, and the indices grow along
    any two positions, adjacent or not. *)
Theorem verifySlashableAttestation_distinct (att : SlashableAttestation.t)
    (vs : bool) :
  verifySlashableAttestation att vs = OK →
  NoDup (SlashableAttestation.ValidatorIndices att) ∧
  ∀ (i j : nat) (a b : Z),
    (i < j)%nat →
    SlashableAttestation.ValidatorIndices att !! i = Some a →
    SlashableAttestation.ValidatorIndices att !! j = Some b →
    a < b.
Proof.
  intros Hok. apply verifySlashableAttestation_OK_ascending in Hok.
  split; [by apply strictly_ascending_NoDup
         | by apply strictly_ascending_lookup].
Qed.

Lemma verifyAttesterSlashing_OK (slashing : AttesterSlashing.t) (vs : bool) :
  let a1 := AttesterSlashing.SlashableAttestation_1 slashing in
  let a2 := AttesterSlashing.SlashableAttestation_2 slashing in
  verifyAttesterSlashing slashing vs = OK ↔
  DeepEqual (SlashableAttestation.Data a1) (SlashableAttestation.Data a2)
  = false ∧
  (isDoubleVote (SlashableAttestation.Data a1) (SlashableAttestation.Data a2)
   || isSurroundVote (SlashableAttestation.Data a1)
        (SlashableAttestation.Data a2)) = true ∧
  verifySlashableAttestation a1 vs = OK ∧
  verifySlashableAttestation a2 vs = OK.
Proof.
  intros a1 a2. subst a1 a2. unfold verifyAttesterSlashing, mbind, Res_bind.
  destruct (DeepEqual _ _); [split; [discriminate | by intros [? _]]|].
  destruct (isDoubleVote _ _ || isSurroundVote _ _); simpl;
    [|split; [discriminate | by intros (_ & ? & _)]].
  destruct (verifySlashableAttestation
              (AttesterSlashing.SlashableAttestation_1 slashing) vs)
    as [[]|e|]; simpl;
    [|split; [discriminate | by intros (_ & _ & ? & _)]..].
  destruct (verifySlashableAttestation
              (AttesterSlashing.SlashableAttestation_2 slashing) vs)
    as [[]|e|]; simpl;
    [|split; [discriminate | by intros (_ & _ & _ & ?)]..].
  by repeat split.
Qed.

(** X12. A surround vote is recognised one way round only. When the
    first attestation of a slashing surrounds the second and the two are
    not a double vote, the slashing with the two attestations exchanged
    is turned down as neither a double nor a surround vote (provided
    [DeepEqual] still tells the two data apart). *)
Theorem verifyAttesterSlashing_one_way (a1 a2 : SlashableAttestation.t)
    (vs : bool) :
  isSurroundVote (SlashableAttestation.Data a1) (SlashableAttestation.Data a2)
  = true →
  isDoubleVote (SlashableAttestation.Data a1) (SlashableAttestation.Data a2)
  = false →
  DeepEqual (SlashableAttestation.Data a2) (SlashableAttestation.Data a1)
  = false →
  verifyAttesterSlashing (AttesterSlashing.mk a2 a1) vs
  = Err NotDoubleNorSurroundVote.
Proof.
  intros Hsurround Hdouble Hdeep.
  unfold verifyAttesterSlashing. simpl. rewrite Hdeep.
  assert (Hd : isDoubleVote (SlashableAttestation.Data a2)
                 (SlashableAttestation.Data a1) = false).
  { unfold isDoubleVote in *. apply bool_decide_eq_false in Hdouble.
    apply bool_decide_eq_false. congruence. }
  assert (Hs : isSurroundVote (SlashableAttestation.Data a2)
                 (SlashableAttestation.Data a1) = false).
  { unfold isSurroundVote in *. apply andb_true_iff in Hsurround as [H1 H2].
    apply Z.ltb_lt in H1. apply andb_false_iff. left. apply Z.ltb_ge. lia. }
  by rewrite Hd, Hs.
Qed.

End SlashableMore.

Lemma verifySlashableAttestation_accepts_witness :
  verifySlashableAttestation (env := sample_env) surrounding_attestation false
  = OK.
Proof.
  apply (verifySlashableAttestation_accepts (env := sample_env)).
  split; [|split; [|split; [|split]]].
  - apply Exists_cons. left. discriminate.
  - discriminate.
  - apply indices_loop_spec. reflexivity.
  - reflexivity.
  - vm_compute. discriminate.
Defined.

Lemma verifySlashableAttestation_distinct_witness :
  NoDup (SlashableAttestation.ValidatorIndices surrounding_attestation).
Proof.
  apply (verifySlashableAttestation_distinct (env := sample_env)
           surrounding_attestation false).
  reflexivity.
Defined.

Lemma verifyAttesterSlashing_one_way_witness :
  verifyAttesterSlashing (env := sample_env) surround_slashing false = OK ∧
  verifyAttesterSlashing (env := sample_env)
    (AttesterSlashing.mk surrounded_attestation surrounding_attestation) false
  = Err NotDoubleNorSurroundVote.
Proof.
  split; [reflexivity|].
  apply (verifyAttesterSlashing_one_way (env := sample_env));
    vm_compute; reflexivity.
Defined.

(** ** The slashable indices of an attester slashing *)

Section SlashableIndices.
Context {env : Env}.

Lemma slashable_inner_spec (h : Heap) (s : BeaconState.t) (idx1 : Z)
    (indices2 : list Z) :
  NoDup indices2 →
  ∀ acc result,
    slashable_inner h s idx1 indices2 acc = Ok result →
    result = acc ++ (if decide (idx1 ∈ indices2 ∧ unpenalized h s idx1 = true)
                     then [idx1] else []).
Proof.
  induction 1 as [|idx2 rest Hnotin Hnodup IH]; intros acc result Hrun.
  - injection Hrun as <-. rewrite decide_False; [by rewrite app_nil_r|].
    intros [Hin _]. by apply elem_of_nil in Hin.
  - simpl in Hrun. case_bool_decide as Heq.
    + subst idx2. unfold mbind, Res_bind in Hrun. unfold unpenalized.
      destruct (registry_at h (BeaconState.ValidatorRegistry s) idx1)
        as [v|e|]; try discriminate.
      destruct (Validator.PenalizedEpoch v >? CurrentEpoch s).
      * rewrite (IH _ _ Hrun).
        rewrite decide_False by (by intros [? _]).
        rewrite decide_True; [by rewrite app_nil_r|].
        split; [apply elem_of_cons; by left | reflexivity].
      * rewrite (IH _ _ Hrun).
        rewrite !decide_False; [reflexivity | by intros [_ ?] | by intros [? _]].
    + rewrite (IH _ _ Hrun). unfold unpenalized.
      destruct (decide (idx1 ∈ rest ∧ _)) as [[Hin Hun]|Hno].
      * rewrite decide_True; [reflexivity|].
        split; [apply elem_of_cons; by right | exact Hun].
      * rewrite decide_False; [reflexivity|].
        intros [Hin Hun]. apply Hno. split; [|exact Hun].
        apply elem_of_cons in Hin as [?|?]; [contradiction | assumption].
Qed.

Lemma slashable_outer_spec (h : Heap) (s : BeaconState.t)
    (indices1 indices2 : list Z) :
  NoDup indices2 →
  ∀ acc result,
    slashable_outer h s indices1 indices2 acc = Ok result →
    result = acc ++ filter (λ x, x ∈ indices2 ∧ unpenalized h s x = true)
                      indices1.
Proof.
  intros Hnodup.
  induction indices1 as [|idx1 rest IH]; intros acc result Hrun.
  - injection Hrun as <-. by rewrite app_nil_r.
  - simpl in Hrun. unfold mbind, Res_bind in Hrun.
    destruct (slashable_inner h s idx1 indices2 acc) as [acc'|e|] eqn:Hinner;
      try discriminate.
    rewrite (IH _ _ Hrun), (slashable_inner_spec _ _ _ _ Hnodup _ _ Hinner).
    rewrite filter_cons.
    destruct (decide (idx1 ∈ indices2 ∧ unpenalized h s idx1 = true));
      by rewrite <- app_assoc.
Qed.

Lemma attesterSlashableIndices_spec (h : Heap) (s : BeaconState.t)
    (slashing : AttesterSlashing.t) (indices : list Z) :
  NoDup (SlashableAttestation.ValidatorIndices
           (AttesterSlashing.SlashableAttestation_2 slashing)) →
  attesterSlashableIndices h s slashing = Ok indices →
  indices
  = filter (λ x, x ∈ SlashableAttestation.ValidatorIndices
                       (AttesterSlashing.SlashableAttestation_2 slashing)
                 ∧ unpenalized h s x = true)
      (SlashableAttestation.ValidatorIndices
         (AttesterSlashing.SlashableAttestation_1 slashing)) ∧
  indices ≠ [].
Proof.
  intros Hnodup Hrun.
  unfold attesterSlashableIndices, mbind, Res_bind in Hrun.
  destruct (slashable_outer h s _ _ []) as [result|e|] eqn:Houter;
    try discriminate.
  case_bool_decide as Hshort; [discriminate|]. injection Hrun as ->.
  pose proof (slashable_outer_spec _ _ _ _ Hnodup _ _ Houter) as Hspec.
  simpl in Hspec. split; [exact Hspec|].
  intros ->. simpl in Hshort. lia.
Qed.

(** X13. When the indices of the second attestation are pairwise
    distinct, the slashable indices that [attesterSlashableIndices]
    returns are the indices of the first attestation, in their order,
    that also occur in the second and whose validator is read as not yet
    penalized; the list is never empty, and it has no repetition when
    the first attestation has none. *)
Theorem attesterSlashableIndices_filter (h : Heap) (s : BeaconState.t)
    (slashing : AttesterSlashing.t) (indices : list Z) :
  let indices1 := SlashableAttestation.ValidatorIndices
                    (AttesterSlashing.SlashableAttestation_1 slashing) in
  let indices2 := SlashableAttestation.ValidatorIndices
                    (AttesterSlashing.SlashableAttestation_2 slashing) in
  NoDup indices2 →
  attesterSlashableIndices h s slashing = Ok indices →
  indices = filter (λ x, x ∈ indices2 ∧ unpenalized h s x = true) indices1 ∧
  indices ≠ [] ∧
  (NoDup indices1 → NoDup indices).
Proof.
  intros indices1 indices2 Hnodup Hrun. subst indices1 indices2.
  destruct (attesterSlashableIndices_spec _ _ _ _ Hnodup Hrun)
    as [Hspec Hne].
  split; [exact Hspec|]. split; [exact Hne|].
  intros Hnodup1. rewrite Hspec. by apply NoDup_filter.
Qed.

End SlashableIndices.

Lemma attesterSlashableIndices_filter_witness :
  attesterSlashableIndices (env := sample_env) sample_heap (sample_state 64)
    surround_slashing = Ok [5].
Proof.
  destruct (attesterSlashableIndices (env := sample_env) sample_heap
              (sample_state 64) surround_slashing) as [indices|e|] eqn:Hrun;
    [|vm_compute in Hrun; discriminate..].
  assert (Hnodup : NoDup (SlashableAttestation.ValidatorIndices
                            surrounded_attestation))
    by (apply (bool_decide_unpack _); vm_compute; exact I).
  destruct (attesterSlashableIndices_filter (env := sample_env) sample_heap
              (sample_state 64) surround_slashing indices Hnodup Hrun)
    as (-> & _).
  reflexivity.
Defined.

(** ** No validator is penalized twice *)

Section NoDoublePenalty.
Context {env : Env}.
Hypothesis keeps : penalize_keeps_slashed.
Hypothesis marks : penalize_marks_slashed.

Lemma penalized_calls_snoc (h : Heap) (log : list call) (j : Z) :
  penalized_calls (mkWorld h (log ++ [CallPenalizeValidator j]))
  = penalized_calls (mkWorld h log) ++ [j].
Proof. unfold penalized_calls. simpl. by rewrite omap_app. Qed.

(** A validator read as not yet penalized has not been penalized by a
    call of a consistent log. *)
Lemma unpenalized_not_called (w : World) (s : BeaconState.t) (j : Z)
    (v : Validator.t) :
  penalties_consistent w s →
  registry_at (heap w) (BeaconState.ValidatorRegistry s) j = Ok v →
  (Validator.PenalizedEpoch v >? CurrentEpoch s) = true →
  j ∉ penalized_calls w.
Proof.
  intros [_ Hslashed] Hread Hgt Hin.
  destruct (Hslashed j Hin) as (u & Hu & Hle).
  rewrite Hu in Hread. injection Hread as ->. lia.
Qed.

(** One call on an index not penalized so far, then a continuation that
    keeps the log consistent. *)
Lemma penalize_once_then (j : Z) (f : error → error)
    (k : BeaconState.t → M BeaconState.t) (s : BeaconState.t) (w : World)
    (r : Res BeaconState.t) (w' : World) :
  penalties_consistent w s →
  j ∉ penalized_calls w →
  (∀ s1 w1 r1 w1',
     BeaconState.ValidatorRegistry s1 = BeaconState.ValidatorRegistry s →
     penalties_consistent w1 s1 →
     penalized_calls w1 = penalized_calls w ++ [j] →
     k s1 w1 = (r1, w1') → penalized_once r1 w1') →
  (wrapping f (call_PenalizeValidator s j) ≫= k) w = (r, w') →
  penalized_once r w'.
Proof.
  intros [Hnodup Hslashed] Hnew Hk Hrun.
  destruct (call_PenalizeValidator_run s j w) as (r1 & h1 & Hpen & Hcall).
  destruct (keeps _ _ _ _ _ Hpen) as [Hkeep Hstate].
  unfold mbind, M_bind, wrapping in Hrun. rewrite Hcall in Hrun.
  assert (Hlog : penalized_calls
                   (mkWorld h1 (calls w ++ [CallPenalizeValidator j]))
                 = penalized_calls w ++ [j]).
  { rewrite penalized_calls_snoc. by destruct w. }
  assert (Hnodup1 : NoDup (penalized_calls w ++ [j])).
  { apply NoDup_app. split; [exact Hnodup|]. split.
    - intros x Hx Hj. apply list_elem_of_singleton in Hj. by subst x.
    - apply NoDup_singleton. }
  destruct r1 as [s1|e|].
  - destruct (Hstate s1 eq_refl) as [Hepoch Hreg].
    eapply Hk; [exact Hreg | | exact Hlog | exact Hrun].
    split; [by rewrite Hlog|].
    intros x Hx. rewrite Hlog in Hx. simpl.
    apply elem_of_app in Hx as [Hx|Hx].
    + rewrite Hreg, Hepoch. apply Hkeep. by apply Hslashed.
    + apply list_elem_of_singleton in Hx as ->. by eapply marks.
  - injection Hrun as <- <-. split; [by rewrite Hlog | discriminate].
  - injection Hrun as <- <-. split; [by rewrite Hlog | discriminate].
Qed.

Lemma proposer_slashings_loop_once (registry : slice) (vs : bool)
    (slashings : list ProposerSlashing.t) :
  ∀ idx s w r w',
    BeaconState.ValidatorRegistry s = registry →
    penalties_consistent w s →
    proposer_slashings_loop registry vs idx slashings s w = (r, w') →
    penalized_once r w'.
Proof.
  induction slashings as [|slashing rest IH]; intros idx s w r w' Hreg Hcons Hrun.
  - injection Hrun as <- <-. split; [apply Hcons | by intros s' [= <-]].
  - cbn [proposer_slashings_loop] in Hrun.
    unfold mbind at 1, M_bind at 1, lift in Hrun.
    destruct (wrap_check (ProposerSlashingInvalid idx)
                (verifyProposerSlashing slashing vs)) as [[]|e|].
    2,3: injection Hrun as <- <-; split; [apply Hcons | discriminate].
    unfold mbind at 1, M_bind at 1, reading in Hrun.
    destruct (registry_at (heap w) registry
                (ProposerSlashing.ProposerIndex slashing))
      as [proposer|e|] eqn:Hproposer.
    2,3: injection Hrun as <- <-; split; [apply Hcons | discriminate].
    destruct (Validator.PenalizedEpoch proposer >? CurrentEpoch s) eqn:Hgt.
    + eapply penalize_once_then; [exact Hcons | | | exact Hrun].
      * eapply unpenalized_not_called; [exact Hcons | | exact Hgt].
        by rewrite Hreg.
      * intros s1 w1 r1 w1' Hreg1 Hcons1 _ Hk.
        eapply IH; [| exact Hcons1 | exact Hk]. congruence.
    + eapply IH; eassumption.
Qed.

Lemma penalize_loop_once (indices : list Z) :
  ∀ s w r w',
    NoDup indices →
    (∀ x, x ∈ indices → x ∉ penalized_calls w) →
    penalties_consistent w s →
    penalize_loop indices s w = (r, w') →
    penalized_once r w'.
Proof.
  induction indices as [|j rest IH]; intros s w r w' Hnodup Hfresh Hcons Hrun.
  - injection Hrun as <- <-. split; [apply Hcons | by intros s' [= <-]].
  - cbn [penalize_loop] in Hrun.
    apply NoDup_cons in Hnodup as [Hj Hnodup].
    eapply penalize_once_then; [exact Hcons | | | exact Hrun].
    + apply Hfresh. apply elem_of_cons. by left.
    + intros s1 w1 r1 w1' _ Hcons1 Hlog Hk.
      eapply IH; [exact Hnodup | | exact Hcons1 | exact Hk].
      intros x Hx. rewrite Hlog. intros Hin.
      apply elem_of_app in Hin as [Hin|Hin].
      * eapply Hfresh; [|exact Hin]. apply elem_of_cons. by right.
      * apply list_elem_of_singleton in Hin. by subst x.
Qed.

Lemma attester_slashings_loop_once (vs : bool)
    (slashings : list AttesterSlashing.t) :
  ∀ idx s w r w',
    penalties_consistent w s →
    attester_slashings_loop vs idx slashings s w = (r, w') →
    penalized_once r w'.
Proof.
  induction slashings as [|slashing rest IH]; intros idx s w r w' Hcons Hrun.
  - injection Hrun as <- <-. split; [apply Hcons | by intros s' [= <-]].
  - cbn [attester_slashings_loop] in Hrun.
    unfold mbind at 1, M_bind at 1, lift in Hrun.
    destruct (verifyAttesterSlashing slashing vs) as [[]|e|] eqn:Hverify;
      simpl in Hrun.
    2,3: injection Hrun as <- <-; split; [apply Hcons | discriminate].
    apply verifyAttesterSlashing_OK in Hverify as (_ & _ & Hv1 & Hv2).
    apply verified_indices_NoDup in Hv1 as Hnodup1.
    apply verified_indices_NoDup in Hv2 as Hnodup2.
    unfold mbind at 1, M_bind at 1, reading in Hrun.
    destruct (attesterSlashableIndices (heap w) s slashing)
      as [indices|e|] eqn:Hindices; simpl in Hrun.
    2,3: injection Hrun as <- <-; split; [apply Hcons | discriminate].
    destruct (attesterSlashableIndices_spec _ _ _ _ Hnodup2 Hindices)
      as (Hfilter & _).
    unfold mbind, M_bind in Hrun.
    destruct (penalize_loop indices s w) as [r1 w1] eqn:Hloop.
    assert (Honce : penalized_once r1 w1).
    { eapply penalize_loop_once; [| | exact Hcons | exact Hloop].
      { rewrite Hfilter. by apply NoDup_filter. }
      intros x Hx. rewrite Hfilter in Hx.
      apply list_elem_of_filter in Hx as [[_ Hun] _].
      unfold unpenalized in Hun.
      destruct (registry_at (heap w) (BeaconState.ValidatorRegistry s) x)
        as [v|e|] eqn:Hread; try discriminate.
      by eapply unpenalized_not_called. }
    destruct r1 as [s1|e|].
    + eapply IH; [|exact Hrun]. by apply Honce.
    + injection Hrun as <- <-. split; [apply Honce | discriminate].
    + injection Hrun as <- <-. split; [apply Honce | discriminate].
Qed.

(** X14. Let [PenalizeValidator] keep its contract and leave the
    validator it penalizes slashed. On a log in which every penalized
    validator counts as slashed and none occurs twice (the empty log of
    a new block, say), each slashing stage, whether it succeeds or
    aborts, calls [PenalizeValidator] at most once per validator index
    and on none already in the log; so do the two stages in sequence. *)
Theorem no_validator_penalized_twice (s : BeaconState.t) (b : BeaconBlock.t)
    (vs : bool) (w : World) :
  penalties_consistent w s →
  (∀ r w', ProcessProposerSlashings s b vs w = (r, w') →
           penalized_once r w') ∧
  (∀ r w', ProcessAttesterSlashings s b vs w = (r, w') →
           penalized_once r w') ∧
  (∀ s1 w1 r w2,
     ProcessProposerSlashings s b vs w = (Ok s1, w1) →
     ProcessAttesterSlashings s1 b vs w1 = (r, w2) →
     NoDup (penalized_calls w2)).
Proof.
  intros Hcons.
  assert (Hproposer : ∀ r w', ProcessProposerSlashings s b vs w = (r, w') →
                              penalized_once r w').
  { intros r w' Hrun. unfold ProcessProposerSlashings in Hrun.
    destruct (_ >? _).
    - injection Hrun as <- <-. split; [apply Hcons | discriminate].
    - eapply proposer_slashings_loop_once; [reflexivity | exact Hcons
                                           | exact Hrun]. }
  assert (Hattester : ∀ s0 w0, penalties_consistent w0 s0 →
            ∀ r w', ProcessAttesterSlashings s0 b vs w0 = (r, w') →
                    penalized_once r w').
  { intros s0 w0 Hcons0 r w' Hrun. unfold ProcessAttesterSlashings in Hrun.
    destruct (_ >? _).
    - injection Hrun as <- <-. split; [apply Hcons0 | discriminate].
    - eapply attester_slashings_loop_once; eassumption. }
  split; [exact Hproposer|]. split; [by apply Hattester|].
  intros s1 w1 r w2 Hfirst Hsecond.
  destruct (Hproposer _ _ Hfirst) as [_ Hcons1].
  by destruct (Hattester s1 w1 (Hcons1 s1 eq_refl) r w2 Hsecond).
Qed.

End NoDoublePenalty.

Lemma sample_env_penalize_marks : penalize_marks_slashed (env := sample_env).
Proof.
  intros h s j s' h' Hpen. simpl in Hpen.
  unfold penalize_in_place, update_validator in Hpen.
  destruct (slice_index h (BeaconState.ValidatorRegistry s) j) as [p|e|] eqn:Hp;
    try discriminate.
  destruct (validators h !! p) as [v|] eqn:Hv; [|discriminate].
  injection Hpen as <- <-.
  exists (set_PenalizedEpoch (BeaconState.Slot s `div` 64) v). split.
  - unfold registry_at, slice_index in *. simpl.
    case_bool_decide; [|discriminate].
    destruct (registries h !! sl_arr (BeaconState.ValidatorRegistry s))
      as [arr|]; [|discriminate].
    destruct (arr !! Z.to_nat j) as [q|]; [|discriminate].
    injection Hp as ->. simpl. unfold load. simpl.
    by rewrite lookup_insert_eq.
  - simpl. lia.
Qed.

(** X14 on a block that names validator 7 in a proposer slashing and
    again in an attester slashing, and validator 2, slashed before the
    block, in both: 7 and 5 are penalized, once each. *)
Lemma no_validator_penalized_twice_witness :
  ∃ s1 w1 r w2,
    ProcessProposerSlashings (env := sample_env) (sample_state 64)
      mixed_slashings_block false sample_world = (Ok s1, w1) ∧
    ProcessAttesterSlashings (env := sample_env) s1 mixed_slashings_block
      false w1 = (r, w2) ∧
    penalized_calls w2 = [7; 5] ∧
    NoDup (penalized_calls w2).
Proof.
  destruct (ProcessProposerSlashings (env := sample_env) (sample_state 64)
              mixed_slashings_block false sample_world)
    as [r1 w1] eqn:Hfirst.
  assert (Hok : ∃ s1, r1 = Ok s1).
  { vm_compute in Hfirst. injection Hfirst as <- _. eauto. }
  destruct Hok as [s1 ->].
  destruct (ProcessAttesterSlashings (env := sample_env) s1
              mixed_slashings_block false w1) as [r w2] eqn:Hsecond.
  exists s1, w1, r, w2. split; [reflexivity|]. split; [exact Hsecond|].
  split.
  - vm_compute in Hfirst. injection Hfirst as <- <-.
    vm_compute in Hsecond. by injection Hsecond as _ <-.
  - destruct (no_validator_penalized_twice (env := sample_env)
                sample_env_penalize_contract sample_env_penalize_marks
                (sample_state 64) mixed_slashings_block false sample_world)
      as (_ & _ & Hboth).
    + split; [apply NoDup_nil_2 | intros j Hj; by apply elem_of_nil in Hj].
    + by eapply Hboth.
Defined.

(** ** Exits that fail part of the way *)

Section ExitsMore.
Context {env : Env}.

Lemma exits_loop_app (vs : bool) (pre rest : list Exit.t) :
  ∀ idx s w,
    exits_pass vs (heap w) s pre →
    exits_loop vs idx (pre ++ rest) s w
    = exits_loop vs (idx + length pre) rest
        (apply_exits (heap w) s pre).1
        (mkWorld (apply_exits (heap w) s pre).2 (calls w ++ exit_calls pre)).
Proof.
  induction pre as [|exit pre IH]; intros idx s w Hpass.
  - simpl. rewrite Nat.add_0_r, app_nil_r. by destruct w.
  - destruct Hpass as [Hverify Hrest].
    cbn [exits_loop apply_exits app]. unfold mbind at 1, M_bind at 1, reading.
    rewrite Hverify. simpl.
    unfold mbind at 1, M_bind at 1, call_InitiateValidatorExit.
    destruct (InitiateValidatorExit (heap w) s (Exit.ValidatorIndex exit))
      as [s1 h1].
    rewrite IH by exact Hrest. simpl.
    rewrite <- app_assoc.
    by replace (S (idx + length pre)) with (idx + S (length pre))%nat by lia.
Qed.

(** X15. An exit that fails does not undo the exits before it. When the
    exits before position [k] pass and the one at [k] is turned down by
    [verifyExit] in the state it meets, [ProcessValidatorExits] returns
    that error under the index [k], after one call to
    [InitiateValidatorExit] for each of the [k] exits before it: the
    heap is the one those calls leave, and the exits after [k] are not
    looked at. *)
Theorem ProcessValidatorExits_first_failure (s : BeaconState.t)
    (b : BeaconBlock.t) (vs : bool) (w : World) (pre post : list Exit.t)
    (exit : Exit.t) (e : error) :
  BeaconBlockBody.Exits (BeaconBlock.Body b) = pre ++ exit :: post →
  Z.of_nat (length (pre ++ exit :: post)) <= MaxExits BeaconConfig →
  exits_pass vs (heap w) s pre →
  verifyExit (apply_exits (heap w) s pre).2 (apply_exits (heap w) s pre).1
    exit vs = Err e →
  ProcessValidatorExits s b vs w
  = (Err (ExitInvalid (length pre) e),
     mkWorld (apply_exits (heap w) s pre).2 (calls w ++ exit_calls pre)).
Proof.
  intros Hbody Hmax Hpass Hfail. unfold ProcessValidatorExits. rewrite Hbody.
  destruct (Z.gtb_spec (Z.of_nat (length (pre ++ exit :: post)))
              (MaxExits BeaconConfig)); [lia|].
  unfold mbind at 1, M_bind at 1.
  rewrite (exits_loop_app vs pre (exit :: post) 0 s w Hpass).
  cbn [exits_loop]. unfold mbind, M_bind, reading. simpl.
  by rewrite Hfail.
Qed.

End ExitsMore.

(** X15 on three exits of which the second is for a future epoch: the
    block is turned down, and the first exit has been written. *)
Lemma ProcessValidatorExits_first_failure_witness :
  ∃ w',
    ProcessValidatorExits (env := sample_env) (sample_state 64)
      three_exits_block false sample_world
    = (Err (ExitInvalid 1 ExitInFuture), w') ∧
    calls w' = [CallInitiateValidatorExit 1] ∧
    Validator.ExitEpoch <$> validators (heap w') !! 2%positive = Some 6.
Proof.
  eexists. split; [|split].
  - eapply (ProcessValidatorExits_first_failure (env := sample_env)
              (sample_state 64) three_exits_block false sample_world
              [Exit.mk 0 1] [Exit.mk 0 4] (Exit.mk 9 2)).
    + reflexivity.
    + vm_compute. discriminate.
    + split; [vm_compute; reflexivity | exact I].
    + vm_compute. reflexivity.
  - reflexivity.
  - vm_compute. reflexivity.
Defined.

(** ** Proposer slashings that are accepted *)

(** X16. [verifyProposerSlashing] accepts a slashing exactly when its two
    proposals are the same: same slot, same shard and same block root. *)
Theorem verifyProposerSlashing_same_proposal (slashing : ProposerSlashing.t)
    (vs : bool) :
  verifyProposerSlashing slashing vs = OK ↔
  ProposerSlashing.ProposalData_1 slashing
  = ProposerSlashing.ProposalData_2 slashing.
Proof.
  rewrite verifyProposerSlashing_OK.
  destruct (ProposerSlashing.ProposalData_1 slashing) as [slot1 shard1 root1].
  destruct (ProposerSlashing.ProposalData_2 slashing) as [slot2 shard2 root2].
  simpl. split.
  - by intros (-> & -> & ->).
  - by intros [= -> -> ->].
Qed.

(** ** More on the tallies *)

Section Eth1More.

Lemma votes_for_iff (d : option Eth1Data.t) (v : Eth1DataVote.t) :
  votes_for d v ↔ Eth1DataVote.Eth1Data v = d.
Proof. unfold votes_for, proto_Equal. apply bool_decide_eq_true. Qed.

(** X17. If no two tallies of the state are for the same data, the same
    holds after [ProcessEth1Data], and the data tallied are those of
    before with, if it was not among them, the data of the block at the
    end. *)
Theorem ProcessEth1Data_keeps_distinct (s : BeaconState.t)
    (b : BeaconBlock.t) :
  tallied (ProcessEth1Data s b)
  = (if decide (BeaconBlock.Eth1Data b ∈ tallied s)
     then tallied s
     else tallied s ++ [BeaconBlock.Eth1Data b]) ∧
  (NoDup (tallied s) → NoDup (tallied (ProcessEth1Data s b))).
Proof.
  assert (Heq : tallied (ProcessEth1Data s b)
    = (if decide (BeaconBlock.Eth1Data b ∈ tallied s)
       then tallied s
       else tallied s ++ [BeaconBlock.Eth1Data b])).
  { unfold tallied, ProcessEth1Data.
    pose proof (eth1_votes_loop_spec (BeaconState.Eth1DataVotes s)
                  (BeaconBlock.Eth1Data b)) as Hloop.
    destruct (eth1_votes_loop (BeaconState.Eth1DataVotes s)
                (BeaconBlock.Eth1Data b)) as [votes' [|]]; simpl.
    - destruct Hloop as (pre & v & post & Hsplit & _ & Hv & ->).
      apply votes_for_iff in Hv.
      rewrite decide_True.
      + rewrite Hsplit, !fmap_app. reflexivity.
      + rewrite Hsplit, fmap_app. apply elem_of_app. right.
        apply elem_of_cons. left. by rewrite <- Hv.
    - destruct Hloop as [-> Hnone].
      rewrite decide_False; [by rewrite fmap_app|].
      intros Hin. apply list_elem_of_fmap in Hin as (v & Hd & Hv).
      rewrite Forall_forall in Hnone. apply (Hnone v Hv).
      by apply votes_for_iff. }
  split; [exact Heq|].
  intros Hnodup. rewrite Heq.
  destruct (decide (BeaconBlock.Eth1Data b ∈ tallied s)) as [|Hnew];
    [exact Hnodup|].
  apply NoDup_app. split; [exact Hnodup|]. split.
  - intros x Hx Hb. apply list_elem_of_singleton in Hb. by subst x.
  - apply NoDup_singleton.
Qed.

Lemma tally_of_skip (d : option Eth1Data.t) (pre l : list Eth1DataVote.t) :
  Forall (λ u, ¬ votes_for d u) pre →
  tally_of d (pre ++ l) = tally_of d l.
Proof.
  induction 1 as [|u pre Hu _ IH]; simpl; [reflexivity|].
  unfold votes_for in Hu. by destruct (proto_Equal _ d).
Qed.

(** A tally for another data, changed or put at the end, does not show
    in the tally of [d]. *)
Lemma tally_of_other (d : option Eth1Data.t) (v v' : Eth1DataVote.t)
    (pre post : list Eth1DataVote.t) :
  Eth1DataVote.Eth1Data v ≠ d →
  Eth1DataVote.Eth1Data v' ≠ d →
  tally_of d (pre ++ v' :: post) = tally_of d (pre ++ v :: post).
Proof.
  intros Hv Hv'. induction pre as [|u pre IH]; simpl.
  - unfold proto_Equal. by rewrite !bool_decide_eq_false_2.
  - by rewrite IH.
Qed.

Lemma tally_of_snoc_other (d : option Eth1Data.t) (v : Eth1DataVote.t)
    (votes : list Eth1DataVote.t) :
  Eth1DataVote.Eth1Data v ≠ d →
  tally_of d (votes ++ [v]) = tally_of d votes.
Proof.
  intros Hv. induction votes as [|u votes IH]; simpl.
  - unfold proto_Equal. by rewrite bool_decide_eq_false_2.
  - by rewrite IH.
Qed.

Lemma tally_of_after_block (s : BeaconState.t) (b : BeaconBlock.t)
    (d : option Eth1Data.t) :
  tally_of d (BeaconState.Eth1DataVotes (ProcessEth1Data s b))
  = if decide (d = BeaconBlock.Eth1Data b)
    then wrap64 (tally_of d (BeaconState.Eth1DataVotes s) + 1)
    else tally_of d (BeaconState.Eth1DataVotes s).
Proof.
  unfold ProcessEth1Data.
  pose proof (eth1_votes_loop_spec (BeaconState.Eth1DataVotes s)
                (BeaconBlock.Eth1Data b)) as Hloop.
  destruct (eth1_votes_loop (BeaconState.Eth1DataVotes s)
              (BeaconBlock.Eth1Data b)) as [votes' [|]]; simpl.
  - destruct Hloop as (pre & v & post & -> & Hpre & Hv & ->).
    apply votes_for_iff in Hv.
    destruct (decide (d = BeaconBlock.Eth1Data b)) as [->|Hne].
    + rewrite !tally_of_skip by exact Hpre. simpl.
      unfold proto_Equal. by rewrite !bool_decide_eq_true_2.
    + apply tally_of_other; simpl; congruence.
  - destruct Hloop as [-> Hnone].
    destruct (decide (d = BeaconBlock.Eth1Data b)) as [->|Hne].
    + rewrite tally_of_skip by exact Hnone.
      rewrite <- (app_nil_r (BeaconState.Eth1DataVotes s)) at 1.
      rewrite tally_of_skip by exact Hnone. simpl.
      unfold proto_Equal. by rewrite bool_decide_eq_true_2.
    + apply tally_of_snoc_other. simpl. congruence.
Qed.

(** X18. One block raises the tally of its own data by one, as a 64-bit
    counter (a data not yet tallied has tally 0), and leaves the tally
    of every other data as it is. *)
Theorem ProcessEth1Data_tally_of (s : BeaconState.t) (b : BeaconBlock.t) :
  tally_of (BeaconBlock.Eth1Data b)
    (BeaconState.Eth1DataVotes (ProcessEth1Data s b))
  = wrap64 (tally_of (BeaconBlock.Eth1Data b) (BeaconState.Eth1DataVotes s) + 1)
  ∧ ∀ d, d ≠ BeaconBlock.Eth1Data b →
         tally_of d (BeaconState.Eth1DataVotes (ProcessEth1Data s b))
         = tally_of d (BeaconState.Eth1DataVotes s).
Proof.
  split.
  - by rewrite tally_of_after_block, decide_True.
  - intros d Hd. by rewrite tally_of_after_block, decide_False.
Qed.

(** X19. [k] blocks in a row with the same data raise its tally by [k],
    as long as the tally stays below 2^64, and leave the other tallies
    alone. *)
Theorem ProcessEth1Data_repeated (s : BeaconState.t) (b : BeaconBlock.t)
    (k : nat) :
  let after := Nat.iter k (λ st, ProcessEth1Data st b) s in
  let before := tally_of (BeaconBlock.Eth1Data b) (BeaconState.Eth1DataVotes s) in
  0 <= before →
  before + Z.of_nat k < two64 →
  tally_of (BeaconBlock.Eth1Data b) (BeaconState.Eth1DataVotes after)
  = before + Z.of_nat k ∧
  ∀ d, d ≠ BeaconBlock.Eth1Data b →
       tally_of d (BeaconState.Eth1DataVotes after)
       = tally_of d (BeaconState.Eth1DataVotes s).
Proof.
  intros after before. subst after before.
  induction k as [|k IH]; intros Hlow Hhigh.
  - simpl. split; [lia | reflexivity].
  - destruct IH as [IHown IHother]; [exact Hlow | lia|].
    rewrite Nat.iter_succ. split.
    + rewrite tally_of_after_block, decide_True by reflexivity.
      rewrite IHown, wrap64_small by lia. lia.
    + intros d Hd.
      rewrite tally_of_after_block, decide_False by exact Hd.
      by apply IHother.
Qed.

End Eth1More.

Lemma ProcessEth1Data_keeps_distinct_witness :
  NoDup (tallied (ProcessEth1Data (sample_state 64)
                    (BeaconBlock.mk [] None empty_body))) ∧
  tallied (ProcessEth1Data (sample_state 64)
             (BeaconBlock.mk [] None empty_body))
  = [eth1_E; eth1_D; None].
Proof.
  split; [|reflexivity].
  apply (ProcessEth1Data_keeps_distinct (sample_state 64)
           (BeaconBlock.mk [] None empty_body)).
  apply (bool_decide_unpack _). vm_compute. exact I.
Defined.

Lemma ProcessEth1Data_repeated_witness :
  tally_of eth1_D
    (BeaconState.Eth1DataVotes
       (Nat.iter 5 (λ st, ProcessEth1Data st (block_with empty_body))
          (sample_state 64)))
  = 12.
Proof.
  apply (ProcessEth1Data_repeated (sample_state 64) (block_with empty_body) 5);
    vm_compute; congruence.
Defined.

(** ** Deposits *)

Section DepositsMore.
Context {env : Env} {denv : DepositEnv}.

(** What one round of the loop can do. *)
Lemma deposits_loop_cons (idx : nat) (deposit : Deposit.t)
    (rest : list Deposit.t) (s : DepositState.t) (w : deposit_world) :
  (∃ c s' h index,
      deposit_call_of deposit c ∧
      verifyDeposit s deposit = DOk tt ∧
      ProcessDeposit (d_heap w) (d_index w) s c = (Ok s', h, index) ∧
      deposits_loop idx (deposit :: rest) s w
      = deposits_loop (S idx) rest s'
          (mkDepositWorld h index (d_calls w ++ [c]))) ∨
  (∃ c r h index,
      deposit_call_of deposit c ∧
      ProcessDeposit (d_heap w) (d_index w) s c = (r, h, index) ∧
      (r = Panic ∧
       deposits_loop idx (deposit :: rest) s w
       = (DPanic, mkDepositWorld h index (d_calls w ++ [c])) ∨
       ∃ e, r = Err e ∧
            deposits_loop idx (deposit :: rest) s w
            = (DErr (ProcessDepositFailed e),
               mkDepositWorld h index (d_calls w ++ [c])))) ∨
  (deposits_loop idx (deposit :: rest) s w = (DPanic, w)) ∨
  (∃ e, deposits_loop idx (deposit :: rest) s w
        = (DErr (DecodeDepositFailed e), w)) ∨
  (verifyDeposit s deposit = DErr MerkleBranchInvalid ∧
   deposits_loop idx (deposit :: rest) s w
   = (DErr (DepositInvalid idx MerkleBranchInvalid), w)).
Proof.
  simpl.
  destruct (DecodeDepositInput (Deposit.DepositData deposit))
    as [depositInput|e|] eqn:Hdecode.
  2: { right; right; right; left. by exists e. }
  2: { right; right; by left. }
  destruct (verifyDeposit s deposit) as [[]|e|] eqn:Hverify.
  2: { right; right; right; right.
       unfold verifyDeposit in Hverify.
       destruct (DepositState.LatestEth1Data s); [|discriminate].
       destruct (VerifyMerkleBranch _ _ _ _ _); [discriminate|].
       by injection Hverify as <-. }
  2: { right; right; by left. }
  destruct (first_eight deposit ≫= BigEndian_Uint64) as [amount|] eqn:Hamount.
  2: { right; right; by left. }
  destruct (ProcessDeposit (d_heap w) (d_index w) s
              (call_of depositInput amount)) as [[r h] index] eqn:Hcall.
  assert (Hof : deposit_call_of deposit (call_of depositInput amount))
    by (by exists depositInput, amount).
  destruct r as [s'|e|].
  - left. by exists (call_of depositInput amount), s', h, index.
  - right; left. exists (call_of depositInput amount), (Err e), h, index.
    repeat (split; [done|]). right. by exists e.
  - right; left. exists (call_of depositInput amount), Panic, h, index.
    repeat (split; [done|]). by left.
Qed.

(** The calls of the loop are those of a prefix of the deposits, and
    those of all of them when the loop succeeds. *)
Lemma deposits_loop_calls (deposits : list Deposit.t) :
  ∀ (idx : nat) (s : DepositState.t) (w : deposit_world) r w',
    deposits_loop idx deposits s w = (r, w') →
    ∃ n cs, (n ≤ length deposits)%nat ∧
            d_calls w' = d_calls w ++ cs ∧
            Forall2 deposit_call_of (take n deposits) cs ∧
            ((∃ s', r = DOk s') → n = length deposits).
Proof.
  induction deposits as [|deposit rest IH]; intros idx s w r w' Hrun.
  - simpl in Hrun. injection Hrun as <- <-. exists 0%nat, [].
    rewrite app_nil_r. repeat split; [done|constructor].
  - destruct (deposits_loop_cons idx deposit rest s w)
      as [(c & s' & h & index & Hof & _ & _ & Hstep)
         |[(c & r0 & h & index & Hof & _ & Hstep)
          |[Hstep|[[e Hstep]|[_ Hstep]]]]].
    + rewrite Hstep in Hrun.
      destruct (IH _ _ _ _ _ Hrun) as (n & cs & Hn & Hcalls & Hall & Hok).
      exists (S n), (c :: cs). simpl in Hcalls |- *.
      rewrite Hcalls, <- app_assoc. repeat split; [lia|by constructor|].
      intros Hsome. by rewrite (Hok Hsome).
    + exists 1%nat, [c]. simpl.
      destruct Hstep as [[_ Hstep]|(e & _ & Hstep)];
        rewrite Hstep in Hrun; injection Hrun as <- <-; simpl;
        (repeat split; [lia|by repeat constructor|]);
        intros [s' Hs']; discriminate.
    + rewrite Hstep in Hrun. injection Hrun as <- <-. exists 0%nat, [].
      rewrite app_nil_r. simpl. repeat split; [lia|constructor|].
      intros [s' Hs']; discriminate.
    + rewrite Hstep in Hrun. injection Hrun as <- <-. exists 0%nat, [].
      rewrite app_nil_r. simpl. repeat split; [lia|constructor|].
      intros [s' Hs']; discriminate.
    + rewrite Hstep in Hrun. injection Hrun as <- <-. exists 0%nat, [].
      rewrite app_nil_r. simpl. repeat split; [lia|constructor|].
      intros [s' Hs']; discriminate.
Qed.

(** The loop never reports the error of the limit. *)
Lemma deposits_loop_not_limit (deposits : list Deposit.t) :
  ∀ (idx : nat) (s : DepositState.t) (w : deposit_world) w',
    deposits_loop idx deposits s w ≠ (DErr TooManyDeposits, w').
Proof.
  induction deposits as [|deposit rest IH]; intros idx s w w' Hrun.
  - discriminate.
  - destruct (deposits_loop_cons idx deposit rest s w)
      as [(c & s' & h & index & _ & _ & _ & Hstep)
         |[(c & r0 & h & index & _ & _ & [[_ Hstep]|(e & _ & Hstep)])
          |[Hstep|[[e Hstep]|[_ Hstep]]]]];
      rewrite Hstep in Hrun; try discriminate.
    by eapply IH.
Qed.

(** The index in an error of the Merkle check counts the calls made. *)
Lemma deposits_loop_error_index (deposits : list Deposit.t) :
  ∀ (idx : nat) (s : DepositState.t) (w : deposit_world) k e w',
    deposits_loop idx deposits s w = (DErr (DepositInvalid k e), w') →
    e = MerkleBranchInvalid ∧
    (idx ≤ k < idx + length deposits)%nat ∧
    (length (d_calls w') = length (d_calls w) + (k - idx))%nat ∧
    ∃ deposit, deposits !! (k - idx)%nat = Some deposit ∧
               ∃ depositInput,
                 DecodeDepositInput (Deposit.DepositData deposit)
                 = Ok depositInput.
Proof.
  induction deposits as [|deposit rest IH]; intros idx s w k e w' Hrun.
  - discriminate.
  - pose proof Hrun as Hrun0.
    destruct (deposits_loop_cons idx deposit rest s w)
      as [(c & s' & h & index & _ & _ & _ & Hstep)
         |[(c & r0 & h & index & _ & _ & [[_ Hstep]|(e0 & _ & Hstep)])
          |[Hstep|[[e0 Hstep]|[_ Hstep]]]]];
      rewrite Hstep in Hrun; try discriminate.
    + destruct (IH _ _ _ _ _ _ Hrun) as (-> & Hk & Hlen & d & Hd & Hdec).
      split; [done|]. simpl in Hlen |- *. rewrite length_app in Hlen.
      simpl in Hlen. split; [lia|]. split; [lia|].
      exists d. split; [|done].
      replace (k - idx)%nat with (S (k - S idx)) by lia. done.
    + injection Hrun as <- <- <-. split; [done|]. simpl.
      split; [lia|]. split; [lia|].
      exists deposit. rewrite Nat.sub_diag. split; [done|].
      simpl in Hrun0.
      destruct (DecodeDepositInput (Deposit.DepositData deposit))
        as [depositInput|e|]; [by exists depositInput|discriminate..].
Qed.


(** X20. [ProcessValidatorDeposits] reports the error of the limit
    exactly when the block has more than [MaxDeposits] deposits, and
    then it has called [ProcessDeposit] for none of them and left the
    heap alone. *)
Theorem ProcessValidatorDeposits_limit (h : Heap) (s : DepositState.t)
    (deposits : list Deposit.t) :
  let run := ProcessValidatorDeposits h s deposits in
  (run.1 = DErr TooManyDeposits ↔ Z.of_nat (length deposits) > MaxDeposits) ∧
  (run.1 = DErr TooManyDeposits →
   d_calls run.2 = [] ∧ d_heap run.2 = h).
Proof.
  unfold ProcessValidatorDeposits.
  destruct (Z.gtb_spec (Z.of_nat (length deposits)) MaxDeposits) as [Hgt|Hle];
    simpl.
  - split; [split; [lia|done]|done].
  - assert (Hno : (deposits_loop 0 deposits s
                     (mkDepositWorld h (ValidatorIndexMap h s) [])).1
                  ≠ DErr TooManyDeposits).
    { destruct (deposits_loop 0 deposits s _) as [r w'] eqn:Hrun.
      simpl. intros ->. by eapply deposits_loop_not_limit. }
    split; [split; [done|lia]|done].
Qed.

(** X21. Whatever the outcome, the calls [ProcessValidatorDeposits] has
    made to [ProcessDeposit] are, in the order of the list, those of the
    first [n] deposits for some [n]: one call each, with the public key,
    proof of possession and withdrawal credentials of the decoded input
    and the amount read from the first eight bytes of the data. A run
    that succeeds has made the calls of all deposits. *)
Theorem ProcessValidatorDeposits_calls (h : Heap) (s : DepositState.t)
    (deposits : list Deposit.t) (r : DRes DepositState.t)
    (w' : deposit_world) :
  ProcessValidatorDeposits h s deposits = (r, w') →
  ∃ n, (n ≤ length deposits)%nat ∧
       Forall2 deposit_call_of (take n deposits) (d_calls w') ∧
       ((∃ s', r = DOk s') → n = length deposits).
Proof.
  unfold ProcessValidatorDeposits.
  destruct (Z.of_nat (length deposits) >? MaxDeposits).
  - intros Hrun. injection Hrun as <- <-. exists 0%nat. simpl.
    repeat split; [lia|constructor|]. intros [s' Hs']; discriminate.
  - intros Hrun.
    destruct (deposits_loop_calls _ _ _ _ _ _ Hrun)
      as (n & cs & Hn & Hcalls & Hall & Hok).
    exists n. simpl in Hcalls. by rewrite Hcalls.
Qed.

(** X22. When [ProcessValidatorDeposits] reports that deposit number
    [idx] is invalid, the cause is the Merkle check, the block has a
    deposit of that number, whose data the decoder accepts, and exactly
    the [idx] deposits before it have been handed to [ProcessDeposit]. *)
Theorem ProcessValidatorDeposits_error_index (h : Heap) (s : DepositState.t)
    (deposits : list Deposit.t) (idx : nat) (e : deposit_error)
    (w' : deposit_world) :
  ProcessValidatorDeposits h s deposits = (DErr (DepositInvalid idx e), w') →
  e = MerkleBranchInvalid ∧
  length (d_calls w') = idx ∧
  ∃ deposit, deposits !! idx = Some deposit ∧
             (∃ depositInput,
                DecodeDepositInput (Deposit.DepositData deposit)
                = Ok depositInput) ∧
             Forall2 deposit_call_of (take idx deposits) (d_calls w').
Proof.
  unfold ProcessValidatorDeposits.
  destruct (Z.of_nat (length deposits) >? MaxDeposits); [discriminate|].
  intros Hrun.
  destruct (deposits_loop_error_index _ _ _ _ _ _ _ Hrun)
    as (-> & Hk & Hlen & d & Hd & Hdec).
  destruct (deposits_loop_calls _ _ _ _ _ _ Hrun)
    as (n & cs & Hn & Hcalls & Hall & _).
  simpl in Hlen, Hcalls. rewrite Nat.sub_0_r in Hlen, Hd.
  split; [done|]. split; [done|].
  exists d. split; [done|]. split; [done|].
  rewrite Hcalls in Hlen |- *.
  apply Forall2_length in Hall as Hsame.
  rewrite length_take in Hsame.
  by replace idx with n by lia.
Qed.


End DepositsMore.

(** *** The amount of a deposit *)




Lemma ProcessValidatorDeposits_calls_witness :
  let run := ProcessValidatorDeposits (env := sample_env) (denv := sample_denv)
               sample_heap deposit_state [sample_deposit; sample_deposit] in
  ∃ n, (n ≤ 2)%nat ∧
       Forall2 (deposit_call_of (denv := sample_denv))
         (take n [sample_deposit; sample_deposit]) (d_calls run.2) ∧
       ((∃ s', run.1 = DOk s') → n = 2%nat).
Proof.
  intros run.
  apply (ProcessValidatorDeposits_calls (env := sample_env)
           (denv := sample_denv) sample_heap deposit_state
           [sample_deposit; sample_deposit] run.1 run.2).
  vm_compute. reflexivity.
Defined.

Lemma ProcessValidatorDeposits_error_index_witness :
  ∃ w', ProcessValidatorDeposits (env := sample_env) (denv := sample_denv)
          sample_heap deposit_state [sample_deposit; unproved_deposit]
        = (DErr (DepositInvalid 1 MerkleBranchInvalid), w') ∧
        length (d_calls w') = 1%nat.
Proof.
  eexists. split; [vm_compute; reflexivity|].
  eapply (ProcessValidatorDeposits_error_index (env := sample_env)
            (denv := sample_denv) sample_heap deposit_state
            [sample_deposit; unproved_deposit] 1 MerkleBranchInvalid).
  vm_compute. reflexivity.
Defined.



(** ** The outcomes of [attesterSlashableIndices] *)

Section SlashableOutcome.
Context {env : Env}.

Lemma slashable_inner_absent (h : Heap) (s : BeaconState.t) (idx1 : Z)
    (indices2 : list Z) :
  idx1 ∉ indices2 →
  ∀ acc, slashable_inner h s idx1 indices2 acc = Ok acc.
Proof.
  induction indices2 as [|idx2 rest IH]; intros Hnotin acc; [done|].
  simpl. apply not_elem_of_cons in Hnotin as [Hne Hrest].
  rewrite bool_decide_eq_false_2 by done. by apply IH.
Qed.

Lemma slashable_inner_panic (h : Heap) (s : BeaconState.t) (idx1 : Z)
    (indices2 : list Z) :
  registry_at h (BeaconState.ValidatorRegistry s) idx1 = Panic →
  idx1 ∈ indices2 →
  ∀ acc, slashable_inner h s idx1 indices2 acc = Panic.
Proof.
  intros Hread.
  induction indices2 as [|idx2 rest IH]; intros Hin acc.
  - by apply elem_of_nil in Hin.
  - simpl. case_bool_decide as Heq.
    + by rewrite Hread.
    + apply IH. apply elem_of_cons in Hin as [?|?]; [contradiction|done].
Qed.

Lemma slashable_inner_read (h : Heap) (s : BeaconState.t) (idx1 : Z)
    (v : Validator.t) (indices2 : list Z) :
  registry_at h (BeaconState.ValidatorRegistry s) idx1 = Ok v →
  ∀ acc,
    slashable_inner h s idx1 indices2 acc
    = Ok (acc ++ if Validator.PenalizedEpoch v >? CurrentEpoch s
                 then filter (λ y, y = idx1) indices2 else []).
Proof.
  intros Hread.
  induction indices2 as [|idx2 rest IH]; intros acc.
  - simpl. destruct (_ >? _); by rewrite app_nil_r.
  - simpl. case_bool_decide as Heq.
    + subst idx2. rewrite Hread. simpl. rewrite IH.
      destruct (_ >? _); [|done].
      by rewrite filter_cons_True, <- app_assoc by done.
    + rewrite IH. destruct (_ >? _); [|done].
      by rewrite filter_cons_False by (by intros ->).
Qed.

(** The three outcomes of the two loops. *)
Lemma slashable_outer_outcome (h : Heap) (s : BeaconState.t)
    (indices1 indices2 : list Z) :
  ∀ acc,
    match slashable_outer h s indices1 indices2 acc with
    | Ok result =>
        ∃ found, result = acc ++ found ∧
          (∀ x, x ∈ indices1 → x ∈ indices2 →
                ∃ v, registry_at h (BeaconState.ValidatorRegistry s) x = Ok v) ∧
          (found = [] ↔
           ∀ x, x ∈ indices1 → x ∈ indices2 → unpenalized h s x = false)
    | Err _ => False
    | Panic =>
        ∃ x, x ∈ indices1 ∧ x ∈ indices2 ∧
             registry_at h (BeaconState.ValidatorRegistry s) x = Panic
    end.
Proof.
  induction indices1 as [|idx1 rest IH]; intros acc.
  - simpl. exists []. rewrite app_nil_r. split; [done|].
    split; [|split; [intros _|done]]; intros x Hx; by apply elem_of_nil in Hx.
  - simpl. unfold mbind, Res_bind.
    destruct (decide (idx1 ∈ indices2)) as [Hin|Hnotin].
    + destruct (registry_at h (BeaconState.ValidatorRegistry s) idx1)
        as [v|e|] eqn:Hread.
      * rewrite (slashable_inner_read _ _ _ _ _ Hread).
        specialize (IH (acc ++ if Validator.PenalizedEpoch v >? CurrentEpoch s
                               then filter (λ y, y = idx1) indices2 else [])).
        destruct (slashable_outer h s rest indices2 _) as [result|e|];
          [|done|].
        -- destruct IH as (found & -> & Hreadable & Hnone).
           eexists. rewrite <- app_assoc. split; [reflexivity|]. split.
           ++ intros x Hx Hx2.
              apply elem_of_cons in Hx as [->|Hx]; [by exists v|by apply Hreadable].
           ++ split.
              ** intros Hnil. apply app_eq_nil in Hnil as [Hfirst Hfound].
                 intros x Hx Hx2. apply elem_of_cons in Hx as [->|Hx].
                 --- unfold unpenalized. rewrite Hread.
                     destruct (_ >? _); [|done]. exfalso.
                     assert (Hmem : idx1 ∈ filter (λ y, y = idx1) indices2)
                       by (by apply list_elem_of_filter).
                     rewrite Hfirst in Hmem. by apply elem_of_nil in Hmem.
                 --- by apply Hnone.
              ** intros Hall.
                 rewrite (proj2 Hnone), app_nil_r.
                 --- pose proof (Hall idx1 (list_elem_of_here _ _) Hin)
                       as Hun.
                     unfold unpenalized in Hun. rewrite Hread in Hun.
                     by rewrite Hun.
                 --- intros x Hx. apply Hall. by apply elem_of_cons; right.
        -- destruct IH as (x & Hx & Hx2 & Hpanic).
           exists x. split; [by apply elem_of_cons; right|done].
      * by apply registry_at_not_error in Hread.
      * rewrite (slashable_inner_panic _ _ _ _ Hread Hin).
        exists idx1. split; [by apply elem_of_cons; left|done].
    + rewrite (slashable_inner_absent _ _ _ _ Hnotin).
      specialize (IH acc).
      destruct (slashable_outer h s rest indices2 acc) as [result|e|];
        [|done|].
      * destruct IH as (found & -> & Hreadable & Hnone).
        exists found. split; [done|]. split.
        -- intros x Hx Hx2.
           apply elem_of_cons in Hx as [->|Hx]; [contradiction|by apply Hreadable].
        -- split.
           ++ intros Hnil x Hx Hx2.
              apply elem_of_cons in Hx as [->|Hx];
                [contradiction|by apply Hnone].
           ++ intros Hall. apply Hnone. intros x Hx. apply Hall.
              by apply elem_of_cons; right.
      * destruct IH as (x & Hx & Hx2 & Hpanic).
        exists x. split; [by apply elem_of_cons; right|done].
Qed.

(** X25. [attesterSlashableIndices] panics exactly when an index that
    occurs in both attestations cannot be read from the registry. It
    reports an error exactly when every such index can be read and
    belongs to a validator already penalized (penalized epoch at most
    the current epoch), and the error is then the one of the empty
    list; so it never returns an empty list. *)
Theorem attesterSlashableIndices_outcome (h : Heap) (s : BeaconState.t)
    (slashing : AttesterSlashing.t) :
  let indices1 := SlashableAttestation.ValidatorIndices
                    (AttesterSlashing.SlashableAttestation_1 slashing) in
  let indices2 := SlashableAttestation.ValidatorIndices
                    (AttesterSlashing.SlashableAttestation_2 slashing) in
  let read := registry_at h (BeaconState.ValidatorRegistry s) in
  (attesterSlashableIndices h s slashing = Panic ↔
   ∃ x, x ∈ indices1 ∧ x ∈ indices2 ∧ read x = Panic) ∧
  (∀ e, attesterSlashableIndices h s slashing = Err e ↔
        e = NoSlashableIndices ∧
        ∀ x, x ∈ indices1 → x ∈ indices2 →
             ∃ v, read x = Ok v ∧
                  (Validator.PenalizedEpoch v >? CurrentEpoch s) = false) ∧
  attesterSlashableIndices h s slashing ≠ Ok [].
Proof.
  intros indices1 indices2 read. subst indices1 indices2 read.
  unfold attesterSlashableIndices, mbind, Res_bind.
  pose proof (slashable_outer_outcome h s
                (SlashableAttestation.ValidatorIndices
                   (AttesterSlashing.SlashableAttestation_1 slashing))
                (SlashableAttestation.ValidatorIndices
                   (AttesterSlashing.SlashableAttestation_2 slashing)) [])
    as Hout.
  destruct (slashable_outer h s _ _ []) as [result|e0|]; [|done|].
  - destruct Hout as (found & -> & Hreadable & Hnone). simpl.
    assert (Hbridge :
      (∀ x, x ∈ SlashableAttestation.ValidatorIndices
                  (AttesterSlashing.SlashableAttestation_1 slashing) →
            x ∈ SlashableAttestation.ValidatorIndices
                  (AttesterSlashing.SlashableAttestation_2 slashing) →
            unpenalized h s x = false) ↔
      (∀ x, x ∈ SlashableAttestation.ValidatorIndices
                  (AttesterSlashing.SlashableAttestation_1 slashing) →
            x ∈ SlashableAttestation.ValidatorIndices
                  (AttesterSlashing.SlashableAttestation_2 slashing) →
            ∃ v, registry_at h (BeaconState.ValidatorRegistry s) x = Ok v ∧
                 (Validator.PenalizedEpoch v >? CurrentEpoch s) = false)).
    { split; intros Hall x Hx Hx2.
      - destruct (Hreadable x Hx Hx2) as [v Hv]. exists v. split; [done|].
        specialize (Hall x Hx Hx2). unfold unpenalized in Hall.
        by rewrite Hv in Hall.
      - destruct (Hall x Hx Hx2) as (v & Hv & Hold).
        unfold unpenalized. by rewrite Hv. }
    case_bool_decide as Hshort.
    + assert (found = []) as -> by (destruct found; [done|simpl in Hshort; lia]).
      split; [|split; [|done]].
      * split; [done|]. intros (x & Hx & Hx2 & Hpanic).
        destruct (Hreadable x Hx Hx2) as [v Hv]. congruence.
      * intros e. split.
        -- intros [= <-]. split; [done|].
           apply (proj1 Hbridge). by apply (proj1 Hnone).
        -- by intros [-> _].
    + split; [|split].
      * split; [done|]. intros (x & Hx & Hx2 & Hpanic).
        destruct (Hreadable x Hx Hx2) as [v Hv]. congruence.
      * intros e. split; [done|]. intros [_ Hall].
        pose proof (proj2 Hnone (proj2 Hbridge Hall)) as Hnil.
        subst found. simpl in Hshort. lia.
      * intros [= ->]. simpl in Hshort. lia.
  - split; [|split; [|done]].
    + by split.
    + intros e. split; [done|]. intros [_ Hall].
      destruct Hout as (x & Hx & Hx2 & Hpanic).
      destruct (Hall x Hx Hx2) as (v & Hv & _). congruence.
Qed.

End SlashableOutcome.
